(** * Coulomb Hamiltonian of an open atomic shell: model of [lib.py] and [server.py]

    The development follows the Python sources function by function:
    single-particle states, enumeration of configurations, selection of the
    two-body terms that connect two configurations, evaluation of the Coulomb
    integral through Gaunt coefficients, assembly of the Hamiltonian matrix
    and the response of the [get_hamiltonian] tool.

    Python integers are [Z], sympy [Rational] numbers are canonical rationals
    [Qc] (so that Python's [==] is Leibniz equality), tuples and lists are
    [list], exceptions are the [Raise] case of [result]. *)

From Stdlib Require Import ZArith QArith Qcanon List Bool Lia Permutation.
From AAC_tactics Require Import AAC.
Import ListNotations.

Open Scope Z_scope.

(** ** Exceptions *)

Inductive exn : Type :=
| ValueError.

Inductive result (A : Type) : Type :=
| Ok (a : A)
| Raise (e : exn).

Arguments Ok {A} a.
Arguments Raise {A} e.

Definition bind {A B : Type} (r : result A) (k : A -> result B) : result B :=
  match r with
  | Ok a => k a
  | Raise e => Raise e
  end.

Notation "x <- r ;; k" := (bind r (fun x => k))
  (at level 61, r at next level, right associativity).

(** [mapM f xs] runs [f] on the elements of [xs] from left to right and stops
    at the first exception, as a Python loop does. *)
Fixpoint mapM {A B : Type} (f : A -> result B) (xs : list A) : result (list B) :=
  match xs with
  | [] => Ok []
  | x :: t => y <- f x ;; ys <- mapM f t ;; Ok (y :: ys)
  end.

(** ** Single-particle states (lib.py, lines 10-13) *)

Inductive Orbital : Type := orb_s | orb_p | orb_d | orb_f.

Definition orbital_l (o : Orbital) : Z :=
  match o with
  | orb_s => 0
  | orb_p => 1
  | orb_d => 2
  | orb_f => 3
  end.

(** A state is the tuple [(m_l, m_s)]. *)
Definition State : Type := (Z * Qc)%type.

Definition Rational (p : Z) (q : positive) : Qc := Q2Qc (p # q).

(** Python's [range(a, b)]. *)
Definition range (a b : Z) : list Z :=
  map (fun i => a + Z.of_nat i) (seq 0 (Z.to_nat (b - a))).

Definition get_single_states (l : Z) : list State :=
  map (fun m_l => (m_l, Rational 1 2)) (range (- l) (l + 1))
  ++ map (fun m_l => (m_l, Rational (-1) 2)) (range (- l) (l + 1)).

Definition state_eq_dec (x y : State) : {x = y} + {x <> y}.
Proof.
  decide equality; [apply Qc_eq_dec | apply Z.eq_dec].
Defined.

(** ** Enumeration of configurations (lib.py, lines 15-22) *)

(** [itertools.combinations] on a non-negative [r]: the [r]-element
    subsequences, in lexicographic order of the positions. *)
Fixpoint combs {A : Type} (l : list A) (r : nat) : list (list A) :=
  match l with
  | [] => match r with O => [[]] | S _ => [] end
  | x :: t =>
      match r with
      | O => [[]]
      | S r' => map (cons x) (combs t r') ++ combs t r
      end
  end.

(** [itertools.combinations(iterable, r)] raises [ValueError] when [r] is
    negative. *)
Definition combinations {A : Type} (l : list A) (r : Z) : result (list (list A)) :=
  if r <? 0 then Raise ValueError else Ok (combs l (Z.to_nat r)).

(** [sum(state[0] for state in config)] and [sum(state[1] for ...)]. *)
Definition sum_ml (config : list State) : Z :=
  fold_left (fun acc state => acc + fst state) config 0.

Definition sum_ms (config : list State) : Qc :=
  fold_left (fun acc state => (acc + snd state)%Qc) config (Q2Qc 0).

(** [target_m_s] stands for [Rational(target_m_s)], the exact rational value
    of the argument. *)
Definition enumerate_fn_configurations (n : Z) (target_m_l : Z) (target_m_s : Qc)
    (single_electron_states : list State) : result (list (list State)) :=
  combos <- combinations single_electron_states n ;;
  Ok (filter (fun config =>
                let total_m_l := sum_ml config in
                let total_m_s := sum_ms config in
                Z.eqb total_m_l target_m_l && Qc_eq_bool total_m_s target_m_s)
             combos).

(** ** [collections.Counter] over states

    A counter is the insertion-ordered association list of a Python dict. *)

Definition Counter : Type := list (State * Z).

Fixpoint cget (c : Counter) (x : State) : Z :=
  match c with
  | [] => 0
  | (y, n) :: c' => if state_eq_dec x y then n else cget c' x
  end.

Fixpoint cincr (c : Counter) (x : State) : Counter :=
  match c with
  | [] => [(x, 1)]
  | (y, n) :: c' => if state_eq_dec x y then (y, n + 1) :: c' else (y, n) :: cincr c' x
  end.

(** [Counter(iterable)]. *)
Definition counter (l : list State) : Counter := fold_left cincr l [].

Definition cmem (c : Counter) (x : State) : bool :=
  existsb (fun kv => if state_eq_dec x (fst kv) then true else false) c.

(** [Counter.__sub__]: only positive counts are kept. *)
Definition counter_sub (self other : Counter) : Counter :=
  flat_map (fun kv =>
              let newcount := snd kv - cget other (fst kv) in
              if 0 <? newcount then [(fst kv, newcount)] else []) self
  ++ flat_map (fun kv =>
                 if negb (cmem self (fst kv)) && (snd kv <? 0)
                 then [(fst kv, 0 - snd kv)] else []) other.

(** [Counter.elements()]. *)
Definition elements (c : Counter) : list State :=
  flat_map (fun kv => repeat (fst kv) (Z.to_nat (snd kv))) c.

(** [Counter.__eq__]: equal counts on the keys of both, a missing key
    counting zero. *)
Definition counter_eqb (c1 c2 : Counter) : bool :=
  forallb (fun kv => cget c1 (fst kv) =? cget c2 (fst kv)) c1
  && forallb (fun kv => cget c1 (fst kv) =? cget c2 (fst kv)) c2.

(** ** List helpers of Python *)

(** [list.index]; [None] stands for the [ValueError] of a missing element. *)
Fixpoint index (l : list State) (x : State) : option nat :=
  match l with
  | [] => None
  | y :: t => if state_eq_dec y x then Some O else option_map S (index t x)
  end.

(** [l[i] = v] for an index in range. *)
Fixpoint set_item {A : Type} (l : list A) (i : nat) (v : A) : list A :=
  match l, i with
  | [], _ => []
  | _ :: t, O => v :: t
  | y :: t, S i' => y :: set_item t i' v
  end.

(** [itertools.permutations(l, 2)]: ordered pairs of entries at two different
    positions, in lexicographic order of the positions. *)
Definition permutations2 {A : Type} (l : list A) : list (A * A) :=
  flat_map (fun i =>
    flat_map (fun j =>
      if Nat.eqb i j then []
      else match nth_error l i, nth_error l j with
           | Some a, Some b => [(a, b)]
           | _, _ => []
           end)
      (seq 0 (length l)))
    (seq 0 (length l)).

(** ** [sympy.combinatorics.Permutation] in array form *)

(** The inversions of [p] are the pairs of positions [i < j] with
    [p[i] > p[j]]. *)
Definition is_inversion (p : list nat) (ij : nat * nat) : bool :=
  Nat.ltb (fst ij) (snd ij) && Nat.ltb (nth (snd ij) p O) (nth (fst ij) p O).

Definition inversions (p : list nat) : nat :=
  length (filter (is_inversion p)
                 (list_prod (seq 0 (length p)) (seq 0 (length p)))).

Fixpoint nodupb (p : list nat) : bool :=
  match p with
  | [] => true
  | x :: t => negb (existsb (Nat.eqb x) t) && nodupb t
  end.

(** The constructor refuses repeated entries and entries outside
    [0 .. len-1]. *)
Definition is_array_form (p : list nat) : bool :=
  nodupb p && forallb (fun x => Nat.ltb x (length p)) p.

(** [Permutation(perm).signature()]: [+1] for an even permutation, [-1] for
    an odd one; the parity is the parity of the number of inversions. *)
Definition signature (p : list nat) : result Z :=
  if is_array_form p
  then Ok (if Nat.even (inversions p) then 1 else -1)
  else Raise ValueError.

(** ** Selection of the two-body terms (lib.py, lines 56-97) *)

Inductive Kind : Type := direct | exchange.

Definition Term : Type := (Z * Kind * (Z * Z * Z * Z))%type.

(** Case A: the double loop over [i < j] on one configuration. *)
Definition diagonal_terms (state1 : list State) : list Term :=
  flat_map (fun i =>
    flat_map (fun j =>
      match nth_error state1 i, nth_error state1 j with
      | Some (ml1, ms1), Some (ml2, ms2) =>
          (1, direct, (ml1, ml2, ml1, ml2))
          :: (if Qc_eq_bool ms1 ms2
              then [(1, exchange, (ml1, ml2, ml2, ml1))] else [])
      | _, _ => []
      end)
      (seq (S i) (length state1 - S i)))
    (seq 0 (length state1)).

(** The body of the inner loop of Case B for one choice of [(a, b)] and
    [(c, d)]: [Ok None] is [continue], [Ok (Some terms)] is [return terms]. *)
Definition try_assignment (state1 state2 : list State) (a b c d : State)
  : result (option (list Term)) :=
  if Qc_eq_bool (snd a) (snd c) && Qc_eq_bool (snd b) (snd d) then
    match index state1 a, index state1 b with
    | Some idx_a, Some idx_b =>
        let trial_state := set_item (set_item state1 idx_a c) idx_b d in
        if negb (counter_eqb (counter trial_state) (counter state2)) then Ok None
        else
          perm <- mapM (fun x => match index trial_state x with
                                 | Some i => Ok i
                                 | None => Raise ValueError
                                 end) state2 ;;
          sign <- signature perm ;;
          Ok (Some ((sign, direct, (fst a, fst b, fst c, fst d))
                    :: (if Qc_eq_bool (snd a) (snd b)
                        then [(sign, exchange, (fst a, fst b, fst d, fst c))]
                        else [])))
    | _, _ => Ok None
    end
  else Ok None.

Fixpoint first_assignment (state1 state2 : list State)
    (candidates : list ((State * State) * (State * State))) : result (list Term) :=
  match candidates with
  | [] => Ok []
  | ((a, b), (c, d)) :: rest =>
      r <- try_assignment state1 state2 a b c d ;;
      match r with
      | Some terms => Ok terms
      | None => first_assignment state1 state2 rest
      end
  end.

(** [list((Counter(state1) - Counter(state2)).elements())]: the list
    [removed] of the source; [added] is [removed_states state2 state1]. *)
Definition removed_states (state1 state2 : list State) : list State :=
  elements (counter_sub (counter state1) (counter state2)).

Definition get_required_coulomb_terms (state1 state2 : list State)
  : result (list Term) :=
  if list_eq_dec state_eq_dec state1 state2 then Ok (diagonal_terms state1)
  else
    let c1 := counter state1 in
    let c2 := counter state2 in
    let removed := elements (counter_sub c1 c2) in
    let added := elements (counter_sub c2 c1) in
    if negb (Nat.eqb (length removed) 2) || negb (Nat.eqb (length added) 2)
    then Ok []
    else
      first_assignment state1 state2
        (flat_map (fun ab => map (fun cd => (ab, cd)) (permutations2 added))
                  (permutations2 removed)).

(** ** Exact symbolic scalars

    The numbers sympy builds here are products of rationals, square roots of
    rationals and half-integer powers of [pi].  Such a number is kept as
    [sgn * sqrt(sq) * pi^(piexp/2)] with [sgn] in [{-1, 0, 1}] and [sq] a
    canonical non-negative rational: the representation is unique, as the
    automatically evaluated sympy expression is. *)

Record Surd : Type := mkSurd { sgn : Z; sq : Qc; piexp : Z }.

Definition szero : Surd := mkSurd 0 (Q2Qc 0) 0.

Definition Qc_sgn (q : Qc) : Z := Z.sgn (Qnum (this q)).

(** A rational number as a scalar. *)
Definition of_Qc (q : Qc) : Surd :=
  if Qc_sgn q =? 0 then szero else mkSurd (Qc_sgn q) (q * q)%Qc 0.

Definition Z2Qc (z : Z) : Qc := Q2Qc (inject_Z z).

Definition of_Z (z : Z) : Surd := of_Qc (Z2Qc z).

(** [sqrt(q * pi**k)] for a rational [q >= 0]. *)
Definition ssqrt (q : Qc) (k : Z) : Surd :=
  if Qc_sgn q =? 0 then szero else mkSurd 1 q k.

Definition smul (x y : Surd) : Surd :=
  if sgn x * sgn y =? 0 then szero
  else mkSurd (sgn x * sgn y) (sq x * sq y)%Qc (piexp x + piexp y).

Definition sinv (x : Surd) : Surd :=
  if sgn x =? 0 then szero else mkSurd (sgn x) (/ sq x)%Qc (- piexp x).

Definition sdiv (x y : Surd) : Surd := smul x (sinv y).

(** A canonical rational is a square of a rational exactly when its
    numerator and its denominator are perfect squares. *)
Definition Qc_is_square (q : Qc) : bool :=
  let n := Qnum (this q) in
  let d := Zpos (Qden (this q)) in
  (0 <=? n) && (Z.sqrt n * Z.sqrt n =? n) && (Z.sqrt d * Z.sqrt d =? d).

Definition Qc_sqrt (q : Qc) : Qc :=
  Q2Qc (Z.sqrt (Qnum (this q)) # Z.to_pos (Z.sqrt (Zpos (Qden (this q))))).

(** The scalar is a rational number: no square root and no power of [pi]
    is left. *)
Definition is_rational (x : Surd) : bool :=
  (sgn x =? 0) || (Qc_is_square (sq x) && (piexp x =? 0)).

Definition surd_eqb (x y : Surd) : bool :=
  (sgn x =? sgn y) && Qc_eq_bool (sq x) (sq y) && (piexp x =? piexp y).

(** ** Symbolic expressions in the Slater-Condon parameters

    An expression is a sum of monomials [scalar * fk]; it is kept sorted and
    with like monomials collected, every scalar non-zero. *)

Inductive Symbol : Type := f0 | f2 | f4 | f6.

Definition symbol_index (s : Symbol) : Z :=
  match s with f0 => 0 | f2 => 2 | f4 => 4 | f6 => 6 end.

Definition Monomial : Type := (Symbol * Surd)%type.

Definition Expr : Type := list Monomial.

(** Two non-zero monomials are like terms when they carry the same symbol
    and the same power of [pi] and their scalars have a rational ratio. *)
Definition like (m1 m2 : Monomial) : bool :=
  (symbol_index (fst m1) =? symbol_index (fst m2))
  && (piexp (snd m1) =? piexp (snd m2))
  && Qc_is_square (sq (snd m1) * sq (snd m2))%Qc.

(** Sum of two like scalars [x] and [y], [x] non-zero:
    [x + y = (sgn x + sgn y * sqrt(sq y / sq x)) * sqrt(sq x) * pi^..]. *)
Definition sadd_like (x y : Surd) : Surd :=
  let t := (Z2Qc (sgn x) + Z2Qc (sgn y) * Qc_sqrt (sq y / sq x))%Qc in
  if Qc_sgn t =? 0 then szero
  else mkSurd (Qc_sgn t) (t * t * sq x)%Qc (piexp x).

Definition mono_leb (m1 m2 : Monomial) : bool :=
  if symbol_index (fst m1) <? symbol_index (fst m2) then true
  else if symbol_index (fst m2) <? symbol_index (fst m1) then false
  else if piexp (snd m1) <? piexp (snd m2) then true
  else if piexp (snd m2) <? piexp (snd m1) then false
  else match (sq (snd m1) ?= sq (snd m2))%Qc with
       | Gt => false
       | _ => true
       end.

Fixpoint insert_sorted (m : Monomial) (e : Expr) : Expr :=
  match e with
  | [] => [m]
  | m' :: e' => if mono_leb m m' then m :: e else m' :: insert_sorted m e'
  end.

(** Adding one monomial to an expression. *)
Definition eadd1 (e : Expr) (m : Monomial) : Expr :=
  if sgn (snd m) =? 0 then e
  else
    let same := filter (like m) e in
    let rest := filter (fun m' => negb (like m m')) e in
    let s := fold_left (fun acc m' =>
                          if sgn acc =? 0 then snd m' else sadd_like acc (snd m'))
                       same (snd m) in
    if sgn s =? 0 then rest else insert_sorted (fst m, s) rest.

Definition eadd (e1 e2 : Expr) : Expr := fold_left eadd1 e2 e1.

(** [z * e] for a Python integer [z]. *)
Definition escale (z : Z) (e : Expr) : Expr :=
  fold_left eadd1 (map (fun m => (fst m, smul (of_Z z) (snd m))) e) [].

Definition esub (e1 e2 : Expr) : Expr := eadd e1 (escale (-1) e2).

(** [fk * x]. *)
Definition emono (fk : Symbol) (x : Surd) : Expr := eadd1 [] (fk, x).

(** [sum(results)]. *)
Definition esum (results : list Expr) : Expr := fold_left eadd results [].

(** [simplify]: on these linear expressions, the collected form. *)
Definition simplify (e : Expr) : Expr := fold_left eadd1 e [].

Definition mono_eqb (m1 m2 : Monomial) : bool :=
  (symbol_index (fst m1) =? symbol_index (fst m2)) && surd_eqb (snd m1) (snd m2).

Fixpoint expr_eqb (e1 e2 : Expr) : bool :=
  match e1, e2 with
  | [], [] => true
  | m1 :: t1, m2 :: t2 => mono_eqb m1 m2 && expr_eqb t1 t2
  | _, _ => false
  end.

(** ** Gaunt coefficients ([sympy.physics.wigner.gaunt])

    The library function, with its early returns for arguments that violate
    the triangle, projection or parity rules and its closed formula
    [ressqrt * prefac * sumres * (-1)^(bigL + l_3 + m_1 - m_2)]. *)

Fixpoint factZ (n : nat) : Z :=
  match n with
  | O => 1
  | S k => Z.of_nat n * factZ k
  end.

(** The factorial table [_Factlist]. *)
Definition Factlist (i : Z) : Z := factZ (Z.to_nat i).

Definition minus_one_pow (e : Z) : Z := if Z.even e then 1 else -1.

Definition gaunt (l_1 l_2 l_3 m_1 m_2 m_3 : Z) : Surd :=
  if l_1 + l_2 - l_3 <? 0 then szero else
  if l_1 - l_2 + l_3 <? 0 then szero else
  if - l_1 + l_2 + l_3 <? 0 then szero else
  if negb (m_1 + m_2 + m_3 =? 0) then szero else
  if (l_1 <? Z.abs m_1) || (l_2 <? Z.abs m_2) || (l_3 <? Z.abs m_3) then szero else
  let bigL := (l_1 + l_2 + l_3) / 2 in
  let remL := (l_1 + l_2 + l_3) mod 2 in
  if negb (remL mod 2 =? 0) then szero else
  let imin := Z.max (Z.max (- l_3 + l_1 + m_2) (- l_3 + l_2 - m_1)) 0 in
  let imax := Z.min (Z.min (l_2 + m_2) (l_1 - m_1)) (l_1 + l_2 - l_3) in
  let ressqrt :=
    ssqrt (Z2Qc ((2 * l_1 + 1) * (2 * l_2 + 1) * (2 * l_3 + 1)
                 * Factlist (l_1 - m_1) * Factlist (l_1 + m_1)
                 * Factlist (l_2 - m_2) * Factlist (l_2 + m_2)
                 * Factlist (l_3 - m_3) * Factlist (l_3 + m_3)) / Z2Qc 4)%Qc (-1) in
  let prefac :=
    (Z2Qc (Factlist bigL * Factlist (l_2 - l_1 + l_3)
           * Factlist (l_1 - l_2 + l_3) * Factlist (l_1 + l_2 - l_3))
     / Z2Qc (Factlist (2 * bigL + 1))
     / Z2Qc (Factlist (bigL - l_1) * Factlist (bigL - l_2) * Factlist (bigL - l_3)))%Qc in
  let sumres :=
    fold_left (fun sumres ii =>
                 let den := Factlist ii * Factlist (ii + l_3 - l_1 - m_2)
                            * Factlist (l_2 + m_2 - ii) * Factlist (l_1 - ii - m_1)
                            * Factlist (ii + l_3 - l_2 + m_1)
                            * Factlist (l_1 + l_2 - l_3 - ii) in
                 (sumres + Z2Qc (minus_one_pow ii) / Z2Qc den)%Qc)
              (range imin (imax + 1)) (Z2Qc 0) in
  smul (smul (smul ressqrt (of_Qc prefac)) (of_Qc sumres))
       (of_Z (minus_one_pow (bigL + l_3 + m_1 - m_2))).

(** ** The Coulomb integral (lib.py, lines 24-54) *)

Definition in_list (m : Z) (l : list Z) : bool := existsb (Z.eqb m) l.

(** The body shared by the three loops over [zip(ks, fks, pres)]. *)
Definition contributions (l m1 m2 m3 m4 pre01 pre02 : Z)
    (table : list (Z * Symbol * Qc)) : list Expr :=
  map (fun row =>
         let '(k, fk, pre) := row in
         let T1 := sdiv (smul (smul (smul (of_Z pre01) (of_Qc pre)) (ssqrt (Z2Qc 4) 1))
                              (gaunt l k l (- m1) (m1 - m4) m4))
                        (ssqrt (Z2Qc (2 * k + 1)) 0) in
         let T2 := sdiv (smul (smul (smul (of_Z pre02) (of_Qc pre)) (ssqrt (Z2Qc 4) 1))
                              (gaunt l k l (- m3) (m3 - m2) m2))
                        (ssqrt (Z2Qc (2 * k + 1)) 0) in
         emono fk (smul T1 T2))
      table.

(** For [l == 0] the source returns [0]; for any other [l] outside
    [{1, 2, 3}] the list [results] stays empty and [sum(results)] is [0]. *)
Definition coulomb_contribution (m1 m2 m3 m4 l : Z) : Expr :=
  if l =? 3 then
    let pre01 := if in_list m1 [-3; -1; 1; 3] then -1 else 1 in
    let pre02 := if in_list m3 [-3; -1; 1; 3] then -1 else 1 in
    esum (contributions l m1 m2 m3 m4 pre01 pre02
            [(0, f0, Z2Qc 1); (2, f2, Z2Qc 15); (4, f4, Z2Qc 33);
             (6, f6, Rational 429 5)])
  else if l =? 2 then
    let pre01 := if in_list m1 [-1; 1] then -1 else 1 in
    let pre02 := if in_list m3 [-1; 1] then -1 else 1 in
    esum (contributions l m1 m2 m3 m4 pre01 pre02
            [(0, f0, Z2Qc 1); (2, f2, Z2Qc 7); (4, f4, Z2Qc 21)])
  else if l =? 1 then
    let pre01 := if in_list m1 [-1; 1] then -1 else 1 in
    let pre02 := if in_list m3 [-1; 1] then -1 else 1 in
    esum (contributions l m1 m2 m3 m4 pre01 pre02
            [(0, f0, Z2Qc 1); (2, f2, Z2Qc 5)])
  else if l =? 0 then []
  else esum [].

(** ** Assembly of the Hamiltonian (server.py, lines 58-69) *)

Definition Matrix : Type := list (list Expr).

(** The loop over [terms] that accumulates [total_contrib]. *)
Definition total_contribution (l : Z) (terms : list Term) : Expr :=
  fold_left (fun total_contrib term =>
               let '(sign, kind, (m1, m2, m3, m4)) := term in
               match kind with
               | direct =>
                   eadd total_contrib (escale sign (coulomb_contribution m2 m1 m3 m4 l))
               | exchange =>
                   esub total_contrib (escale sign (coulomb_contribution m2 m1 m3 m4 l))
               end)
            terms [].

Definition matrix_entry (l : Z) (cfg1 cfg2 : list State) : result Expr :=
  terms <- get_required_coulomb_terms cfg1 cfg2 ;;
  Ok (simplify (total_contribution l terms)).

Definition hamiltonian (l : Z) (configs : list (list State)) : result Matrix :=
  mapM (fun cfg1 => mapM (fun cfg2 => matrix_entry l cfg1 cfg2) configs) configs.

(** [H[i, j]], the zero of [zeros(n)] outside the matrix. *)
Definition entry (H : Matrix) (i j : nat) : Expr := nth j (nth i H []) [].

(** ** The tool [get_hamiltonian] (server.py, lines 27-82)

    The response text is kept as the list of its parts.  [Matrix.eigenvals]
    of sympy is a parameter of the model: [eigenvals H] is the dictionary of
    eigenvalues and multiplicities it returns. *)

Inductive Part (EigVal : Type) : Type :=
| Found (count : nat)                      (* Found n valid ... configurations. *)
| ConfigLine (idx : nat) (cfg : list State)      (* Config idx: cfg *)
| HamiltonianPretty (H : Matrix)           (* Hamiltonian Matrix (Pretty Print) *)
| EigenvaluesHeader                        (* Eigenvalues: *)
| EigenvalueLine (eig : EigVal) (mult : nat)     (* eig (multiplicity mult) *)
| TooLarge                      (* Matrix too large to diagonalize symbolically. *)
| HamiltonianTxt (H : Matrix).             (* Hamiltonian Matrix (txt) *)

Arguments Found {EigVal} count.
Arguments ConfigLine {EigVal} idx cfg.
Arguments HamiltonianPretty {EigVal} H.
Arguments EigenvaluesHeader {EigVal}.
Arguments EigenvalueLine {EigVal} eig mult.
Arguments TooLarge {EigVal}.
Arguments HamiltonianTxt {EigVal} H.

(** [enumerate(configs)] with the [idx+1] of the response. *)
Definition config_lines {EigVal : Type} (configs : list (list State))
  : list (Part EigVal) :=
  map (fun ic => ConfigLine (S (fst ic)) (snd ic))
      (combine (seq 0 (length configs)) configs).

Definition get_hamiltonian {EigVal : Type} (eigenvals : Matrix -> list (EigVal * nat))
    (orbital : Orbital) (n_electrons : Z) (target_ML : Z) (target_MS : Qc)
  : result (list (Part EigVal)) :=
  let l := orbital_l orbital in
  let single_electron_states := get_single_states l in
  configs <- enumerate_fn_configurations n_electrons target_ML target_MS
               single_electron_states ;;
  let response := [Found (length configs)] in
  if Nat.eqb (length configs) 0 then Ok response
  else
    let response := response ++ config_lines configs in
    H <- hamiltonian l configs ;;
    let response := response ++ [HamiltonianPretty H] in
    let response :=
      if Nat.leb (length configs) 6
      then response ++ [EigenvaluesHeader]
                    ++ map (fun em => EigenvalueLine (fst em) (snd em)) (eigenvals H)
      else response ++ [TooLarge] in
    Ok (response ++ [HamiltonianTxt H]).

(** ** Linear algebra on expressions, used to state eigenvalue equations *)

(** [q * e] for a rational [q]. *)
Definition eqscale (q : Qc) (e : Expr) : Expr :=
  fold_left eadd1 (map (fun m => (fst m, smul (of_Qc q) (snd m))) e) [].

(** Row [row] of [H] applied to the rational vector [v]. *)
Definition row_apply (row : list Expr) (v : list Qc) : Expr :=
  fold_left (fun acc hv => eadd acc (eqscale (snd hv) (fst hv))) (combine row v) [].

Definition mat_apply (H : Matrix) (v : list Qc) : list Expr :=
  map (fun row => row_apply row v) H.

(** [v] is an eigenvector of [H] for the eigenvalue [lambda]. *)
Definition is_eigenpair (H : Matrix) (lambda : Expr) (v : list Qc) : bool :=
  existsb (fun q => negb (Qc_eq_bool q (Q2Qc 0))) v
  && Nat.eqb (length v) (length H)
  && forallb (fun ev => expr_eqb (fst ev) (eqscale (snd ev) lambda))
             (combine (mat_apply H v) v).

(** ** Auxiliary notions used in the statements *)

Abbreviation cnt := (count_occ state_eq_dec).

Definition keys (c : Counter) : list State := map fst c.

(** The common part of two configurations. *)
Definition common_states (l1 l2 : list State) : list State :=
  removed_states l1 (removed_states l1 l2).

(** The multipole formula of the Coulomb integral, written as in the
    specification: [fk * pre1 * pre2 * (Gaunt/sqrt(2k+1)) * (Gaunt/sqrt(2k+1))
    * 4 pi * c_k^e], summed over [k = 0, 2, ..., 2l].  The exponent [e] of the
    tabulated constant is a parameter. *)

Definition parity_sign (m : Z) : Z := if Z.odd m then -1 else 1.

Definition multipole_orders (l : Z) : list Z :=
  map (fun i => 2 * Z.of_nat i) (seq 0 (Z.to_nat l + 1)).

Definition slater_symbol (k : Z) : Symbol :=
  if k =? 0 then f0 else if k =? 2 then f2 else if k =? 4 then f4 else f6.

Definition normalization_constant (l k : Z) : Qc :=
  if k =? 0 then Z2Qc 1
  else if l =? 1 then Z2Qc 5
  else if l =? 2 then (if k =? 2 then Z2Qc 7 else Z2Qc 21)
  else (if k =? 2 then Z2Qc 15 else if k =? 4 then Z2Qc 33 else Rational 429 5).

Definition four_pi : Surd := mkSurd 1 (Z2Qc 16) 2.

Definition multipole_scalar (e : nat) (l k m1 m2 m3 m4 : Z) : Surd :=
  smul (smul (smul (smul (smul (of_Z (parity_sign m1)) (of_Z (parity_sign m3)))
                         (sdiv (gaunt l k l (- m1) (m1 - m4) m4)
                               (ssqrt (Z2Qc (2 * k + 1)) 0)))
                   (sdiv (gaunt l k l (- m3) (m3 - m2) m2)
                         (ssqrt (Z2Qc (2 * k + 1)) 0)))
             four_pi)
       (of_Qc (normalization_constant l k ^ e)%Qc).

Definition coulomb_formula (e : nat) (l m1 m2 m3 m4 : Z) : Expr :=
  esum (map (fun k => emono (slater_symbol k) (multipole_scalar e l k m1 m2 m3 m4))
            (multipole_orders l)).

(** The expression [a*f0 + b*f2] with integer coefficients. *)
Definition lin02 (a b : Z) : Expr :=
  eadd (emono f0 (of_Z a)) (emono f2 (of_Z b)).

(** Shape of one monomial of a Coulomb integral of the shell [l]: a symbol
    among [f0 .. f(2l)] and a non-zero scalar [+-sqrt(q)], [q > 0], without
    any power of [pi]. *)
Definition monomial_shape (l : Z) (m : Monomial) : bool :=
  (symbol_index (fst m) <=? 2 * l)
  && negb (sgn (snd m) =? 0)
  && (piexp (snd m) =? 0)
  && (0 <? Qnum (this (sq (snd m)))).

Definition contribution_shape (l m1 m2 m3 m4 : Z) : bool :=
  let e := coulomb_contribution m1 m2 m3 m4 l in
  forallb (monomial_shape l) e
  && (if ((m1 =? m4) && (m2 =? m3)) || ((m1 =? m3) && (m2 =? m4))
      then forallb (fun m => is_rational (snd m)) e
      else true).

(** A check on all [(m1, m2, m3, m4)] of the shell [l]. *)
Definition all_in_shell (l : Z) (P : Z -> Z -> Z -> Z -> bool) : bool :=
  let R := range (- l) (l + 1) in
  forallb (fun m1 =>
    forallb (fun m2 =>
      forallb (fun m3 =>
        forallb (fun m4 => P m1 m2 m3 m4) R) R) R) R.

Fixpoint row_eqb (r1 r2 : list Expr) : bool :=
  match r1, r2 with
  | [], [] => true
  | e1 :: t1, e2 :: t2 => expr_eqb e1 e2 && row_eqb t1 t2
  | _, _ => false
  end.

Fixpoint matrix_eqb (H1 H2 : Matrix) : bool :=
  match H1, H2 with
  | [], [] => true
  | r1 :: t1, r2 :: t2 => row_eqb r1 r2 && matrix_eqb t1 t2
  | _, _ => false
  end.

(** The three configurations of [p^2] with [M_L = 0] and [M_S = 0], in the
    order of the enumeration, and the Hamiltonian assembled on them. *)
Definition p2_configs : list (list State) :=
  [ [(-1, Rational 1 2); (1, Rational (-1) 2)];
    [(0, Rational 1 2); (0, Rational (-1) 2)];
    [(1, Rational 1 2); (-1, Rational (-1) 2)] ].

Definition p2_hamiltonian : Matrix :=
  [ [lin02 1 1; lin02 0 (-3); lin02 0 6];
    [lin02 0 (-3); lin02 1 4; lin02 0 (-3)];
    [lin02 0 6; lin02 0 (-3); lin02 1 1] ].

(** ** Notions used to describe a successful assignment of Case B *)

(** The position returned by [list.index] when the element is present. *)
Definition pos (l : list State) (x : State) : nat :=
  match index l x with
  | Some i => i
  | None => O
  end.

(** The substitution [a -> c], [b -> d] carried out on [trial_state]. *)
Definition subst_state (a b c d x : State) : State :=
  if state_eq_dec x b then d else if state_eq_dec x a then c else x.

Definition spin_match (a b c d : State) : bool :=
  Qc_eq_bool (snd a) (snd c) && Qc_eq_bool (snd b) (snd d).

Definition assignment_terms (sign : Z) (a b c d : State) : list Term :=
  (sign, direct, (fst a, fst b, fst c, fst d))
  :: (if Qc_eq_bool (snd a) (snd b)
      then [(sign, exchange, (fst a, fst b, fst d, fst c))]
      else []).

Definition pair_sign (c1 c2 : list State) (a b c d : State) : Z :=
  if Nat.even (inversions (map (pos (map (subst_state a b c d) c1)) c2))
  then 1 else -1.

(** [c2] is [c1] with the two states [a], [b] replaced by [c], [d]. *)
Definition swap_pair (c1 c2 : list State) (a b c d : State) : Prop :=
  NoDup c1 /\ NoDup c2 /\ length c1 = length c2
  /\ In a c1 /\ In b c1 /\ a <> b /\ ~ In a c2 /\ ~ In b c2
  /\ In c c2 /\ In d c2 /\ c <> d /\ ~ In c c1 /\ ~ In d c1
  /\ (forall x, In x c1 -> x <> a -> x <> b -> In x c2)
  /\ (forall y, In y c2 -> y <> c -> y <> d -> In y c1).

(** Symmetry of the Gaunt coefficients of the shell [l] under the exchange
    of the two magnetic quantum numbers, checked on the whole shell. *)
Definition gaunt_symmetric_check (l : Z) : bool :=
  let R := range (- l) (l + 1) in
  forallb (fun k =>
    forallb (fun m =>
      forallb (fun m' =>
        surd_eqb (gaunt l k l (- m) (m - m') m') (gaunt l k l (- m') (m' - m) m))
        R) R)
    (multipole_orders l).

(** A list of configurations of one sector: duplicate-free tuples of one
    length with the same totals. *)
Definition same_sector (configs : list (list State)) : Prop :=
  forall c1 c2, In c1 configs -> In c2 configs ->
    NoDup c1 /\ length c1 = length c2
    /\ sum_ml c1 = sum_ml c2 /\ sum_ms c1 = sum_ms c2.

(** ** Further notions used in the statements on [lib.py] and [server.py] *)

From Stdlib Require Import Sorted.

(** The order of the state space: the spin-up states come before the
    spin-down states, and [m_l] ascends within one spin. *)
Definition state_lt (x y : State) : Prop :=
  (snd x = Rational 1 2 /\ snd y = Rational (-1) 2)
  \/ (snd x = snd y /\ fst x < fst y).

Definition is_direct (t : Term) : bool :=
  match snd (fst t) with direct => true | exchange => false end.

(** The multipole selection rule of the Coulomb integral, checked on the
    whole shell [l]: a monomial in [fk] requires [|m1 - m4| <= k] and
    [|m3 - m2| <= k], and the scalar of [f0] is [1]. *)
Definition selection_check (l : Z) : bool :=
  all_in_shell l (fun m1 m2 m3 m4 =>
    forallb (fun mono =>
               (Z.abs (m1 - m4) <=? symbol_index (fst mono))
               && (Z.abs (m3 - m2) <=? symbol_index (fst mono))
               && (if symbol_index (fst mono) =? 0
                   then surd_eqb (snd mono) (of_Z 1) else true))
            (coulomb_contribution m1 m2 m3 m4 l)).

(** The monopole term [f0] is present whenever [m1 = m4] and [m2 = m3]. *)
Definition monopole_check (l : Z) : bool :=
  all_in_shell l (fun m1 m2 m3 m4 =>
    if (m1 =? m4) && (m2 =? m3)
    then existsb (fun mono => (symbol_index (fst mono) =? 0)
                              && surd_eqb (snd mono) (of_Z 1))
                 (coulomb_contribution m1 m2 m3 m4 l)
    else true).

(** * Readers of the spectra files: model of [plot.py]

    Python strings are lists of characters and are meant to hold ASCII
    text; [str.upper] is modelled on ASCII.  The file system, [numpy] arrays
    and the two functions that parse one file are fields of a [World]; an
    unbound local variable is [None], as is the Python value [None] of
    [get_RIXS_iter_all]. *)

From Stdlib Require Ascii String.

Module Plot.
Import Ascii String.

Definition str : Type := list ascii.

Definition lit (s : string) : str := list_ascii_of_string s.

Definition is_ascii (c : ascii) : Prop := (nat_of_ascii c < 128)%nat.

Inductive error : Type :=
| UnboundLocalError (name : str)
| RuntimeError (msg : str)
| OtherError (tag : str).

Inductive outcome (A : Type) : Type :=
| Done (a : A)
| Fail (e : error).

Arguments Done {A} a.
Arguments Fail {A} e.

Definition andThen {A B : Type} (r : outcome A) (k : A -> outcome B) : outcome B :=
  match r with
  | Done a => k a
  | Fail e => Fail e
  end.

Notation "x <~ r ;; k" := (andThen r (fun x => k))
  (at level 61, r at next level, right associativity).

(** Reading a local variable. *)
Definition read_local {A : Type} (name : str) (v : option A) : outcome A :=
  match v with
  | Some a => Done a
  | None => Fail (UnboundLocalError name)
  end.

(** ** [check_pol] (plot.py, lines 118-122) *)

Definition upper_char (c : ascii) : ascii :=
  let n := nat_of_ascii c in
  if (Nat.leb 97 n && Nat.leb n 122)%bool then ascii_of_nat (n - 32) else c.

Definition upper (s : str) : str := map upper_char s.

(** [set(s)], as the list of the distinct characters. *)
Definition set (s : str) : list ascii := nodup ascii_dec s.

Definition issubset (a b : list ascii) : bool :=
  forallb (fun c => existsb (Ascii.eqb c) b) a.

Definition allowed : list ascii := ["X"; "Y"; "Z"]%char.

Definition check_pol (s : str) : outcome unit :=
  let s := upper s in
  if negb (issubset (set s) allowed
           && Nat.eqb (List.length s) (List.length (set s)))
  then Fail (RuntimeError (lit "Invalid Polarization: " ++ s))
  else Done tt.

(** ** The world outside the two readers *)

Record World (Arr : Type) : Type := mkWorld {
  (** [Path(f).exists()] and [Path(f).is_file()] *)
  path_exists : str -> bool;
  path_is_file : str -> bool;
  (** [_get_XAS_iter] and [_get_RIXS_iter]: the columns of one file *)
  get_XAS_iter : str -> outcome (Arr * Arr);
  get_RIXS_iter : str -> outcome (Arr * Arr * Arr);
  (** [np.zeros(n)] and [a.size] *)
  np_zeros : Z -> Arr;
  size : Arr -> Z;
  (** the truth value of [a == 0], an error for most arrays *)
  truth_eq_zero : Arr -> outcome bool;
  (** [n + a] for an integer [n], [a + b], and [a += b] *)
  add_scalar : Z -> Arr -> Arr;
  add : Arr -> Arr -> outcome Arr;
  iadd : Arr -> Arr -> outcome Arr
}.

Arguments path_exists {Arr} w f.
Arguments path_is_file {Arr} w f.
Arguments get_XAS_iter {Arr} w f.
Arguments get_RIXS_iter {Arr} w f.
Arguments np_zeros {Arr} w n.
Arguments size {Arr} w a.
Arguments truth_eq_zero {Arr} w a.
Arguments add_scalar {Arr} w n a.
Arguments add {Arr} w a b.
Arguments iadd {Arr} w a b.

(** The value of [ydata]: the integer [0] or an array. *)
Inductive Ydata (Arr : Type) : Type :=
| YInt (n : Z)
| YArr (a : Arr).

Arguments YInt {Arr} n.
Arguments YArr {Arr} a.

(** ** [read_dir_xas] (plot.py, lines 30-53) *)

Definition xas_filename (dir_name edge : str) (p : ascii) (extension : str) : str :=
  dir_name ++ lit "/XAS_" ++ edge ++ lit "edge_" ++ [p] ++ extension.

Definition xas_missing (filename : str) (p : ascii) : error :=
  RuntimeError (lit "XAS file does not exist: " ++ filename
                ++ lit ", with polarization: " ++ [p]).

(** The loop [for p in pol], on the local variables [xdata] and [ydata]. *)
Fixpoint xas_loop {Arr : Type} (w : World Arr) (dir_name edge extension : str)
    (pol : str) (xdata : option Arr) (ydata : option (Ydata Arr))
  : outcome (option Arr * option (Ydata Arr)) :=
  match pol with
  | [] => Done (xdata, ydata)
  | p :: pol' =>
      let filename := xas_filename dir_name edge p extension in
      if (path_exists w filename && path_is_file w filename)%bool then
        let ydata := YInt 0 in
        xy <~ get_XAS_iter w filename ;;
        let '(x, y) := xy in
        is_zero <~ match ydata with
                   | YInt n => Done (n =? 0)
                   | YArr a => truth_eq_zero w a
                   end ;;
        ydata <~ (if is_zero : bool then Done (YArr y)
                  else match ydata with
                       | YInt n => Done (YArr (add_scalar w n y))
                       | YArr a => s <~ add w a y ;; Done (YArr s)
                       end) ;;
        let xdata := x in
        xas_loop w dir_name edge extension pol' (Some xdata) (Some ydata)
      else Fail (xas_missing filename p)
  end.

Definition read_dir_xas {Arr : Type} (w : World Arr) (dir_name edge pol extension : str)
    (solver : Z) : outcome (Arr * Ydata Arr) :=
  let xdata : option Arr := None in
  let ydata : option (Ydata Arr) := None in
  ydata <~ (if solver <? 4
            then x <~ read_local (lit "xdata") xdata ;;
                 Done (Some (YArr (np_zeros w (size w x))))
            else Done ydata) ;;
  st <~ xas_loop w dir_name edge extension pol xdata ydata ;;
  x <~ read_local (lit "xdata") (fst st) ;;
  y <~ read_local (lit "ydata") (snd st) ;;
  Done (x, y).

(** ** [get_RIXS_iter_all] (plot.py, lines 77-100) *)

Definition rixs_filename (filedir edge : str) (pin pout : ascii) : str :=
  filedir ++ lit "/RIXS_" ++ edge ++ lit "edge_" ++ [pin] ++ lit "_" ++ [pout]
  ++ lit ".txt".

Definition rixs_missing (fname : str) (pin pout : ascii) : error :=
  RuntimeError (lit "RIXS file does not exist: " ++ fname
                ++ lit ",                     with polarization: "
                ++ [pin] ++ lit "," ++ [pout]).

Definition Sums (Arr : Type) : Type := (option Arr * option Arr * option Arr)%type.

(** The loop [for pout in pvout] for one [pin]. *)
Fixpoint rixs_inner {Arr : Type} (w : World Arr) (filedir edge : str) (cross : bool)
    (pin : ascii) (pvout : str) (sums : Sums Arr) : outcome (Sums Arr) :=
  match pvout with
  | [] => Done sums
  | pout :: pvout' =>
      if (cross && Ascii.eqb pin pout)%bool
      then rixs_inner w filedir edge cross pin pvout' sums
      else
        let fname := rixs_filename filedir edge pin pout in
        if (path_exists w fname && path_is_file w fname)%bool then
          xyz <~ get_RIXS_iter w fname ;;
          let '(x, y, z) := xyz in
          let '(_, _, zsum) := sums in
          zsum <~ match zsum with
                  | None => Done z
                  | Some zsum => iadd w zsum z
                  end ;;
          rixs_inner w filedir edge cross pin pvout' (Some x, Some y, Some zsum)
        else Fail (rixs_missing fname pin pout)
  end.

Fixpoint rixs_outer {Arr : Type} (w : World Arr) (filedir edge : str) (cross : bool)
    (pvin pvout : str) (sums : Sums Arr) : outcome (Sums Arr) :=
  match pvin with
  | [] => Done sums
  | pin :: pvin' =>
      sums <~ rixs_inner w filedir edge cross pin pvout sums ;;
      rixs_outer w filedir edge cross pvin' pvout sums
  end.

Definition get_RIXS_iter_all {Arr : Type} (w : World Arr) (filedir edge pvin pvout : str)
    (cross : bool) : outcome (Sums Arr) :=
  rixs_outer w filedir edge cross pvin pvout (None, None, None).

(** The pairs [(pin, pout)] that the two loops read, in their order. *)
Definition rixs_pairs (cross : bool) (pvin pvout : str) : list (ascii * ascii) :=
  filter (fun io => negb (cross && Ascii.eqb (fst io) (snd io)))
         (list_prod pvin pvout).

(** One pass through the body of the loops when the file is read as
    [data (pin, pout)] and [+=] succeeds with [plus]. *)
Definition read_step {Arr : Type} (data : ascii * ascii -> Arr * Arr * Arr)
    (plus : Arr -> Arr -> Arr) (sums : Sums Arr) (io : ascii * ascii) : Sums Arr :=
  let '(x, y, z) := data io in
  let '(_, _, zsum) := sums in
  (Some x, Some y,
   Some (match zsum with
         | None => z
         | Some zsum => plus zsum z
         end)).

(** ** The data of the two plotting tools (main.py, lines 109-111 and 177-178) *)

Definition plot_XAS_data {Arr : Type} (w : World Arr) (run_dir polarization : str)
  : outcome (Arr * Ydata Arr) :=
  _ <~ check_pol polarization ;;
  read_dir_xas w run_dir (lit "L") polarization (lit ".txt") 4.

Definition plot_RIXS_data {Arr : Type} (w : World Arr)
    (run_dir polarization_in polarization_out : str) : outcome (Sums Arr) :=
  _ <~ check_pol polarization_in ;;
  _ <~ check_pol polarization_out ;;
  get_RIXS_iter_all w run_dir (lit "L") polarization_in polarization_out false.

(** ** Two directories used as examples

    In [echo_world] every file exists and its columns are its own name, so
    that a result shows which files went into it; [+] and [+=] concatenate.
    In [empty_world] no file exists. *)

Definition echo_world : World str :=
  mkWorld str (fun _ => true) (fun _ => true)
    (fun f => Done (f, f)) (fun f => Done (f, f, f))
    (fun _ => []) (fun a => Z.of_nat (List.length a))
    (fun a => Done (Nat.eqb (List.length a) 0))
    (fun _ a => a) (fun a b => Done (a ++ b)) (fun a b => Done (a ++ b)).

Definition empty_world : World str :=
  mkWorld str (fun _ => false) (fun _ => false)
    (fun _ => Fail (OtherError (lit "FileNotFoundError")))
    (fun _ => Fail (OtherError (lit "FileNotFoundError")))
    (fun _ => []) (fun a => Z.of_nat (List.length a))
    (fun a => Done (Nat.eqb (List.length a) 0))
    (fun _ a => a) (fun a b => Done (a ++ b)) (fun a b => Done (a ++ b)).

End Plot.

(** * Atomic parameters: model of [get_dParams] of [inputs.py]

    The table [atomic_data] is copied from the source; a float literal is
    kept as its digits and its number of decimals, an integer literal as
    itself.  Python dictionaries are association lists in the order of the
    source. *)

From Stdlib Require DecimalString.

Module Inputs.
Import Ascii String.

#[local] Open Scope string_scope.

Definition str : Type := string.

Inductive Number : Type :=
| Int (z : Z)
| Float (digits : Z) (decimals : nat).

Inductive error : Type :=
| KeyError (key : str)
| ValueError (msg : str).

Inductive checked (A : Type) : Type :=
| Return (a : A)
| Throw (e : error).

Arguments Return {A} a.
Arguments Throw {A} e.

(** [str(n)] for a Python integer. *)
Definition str_of_int (n : Z) : str :=
  DecimalString.NilZero.string_of_int (Z.to_int n).

(** [d[k]] and [k in d]. *)
Fixpoint lookup {K V : Type} (eqb : K -> K -> bool) (d : list (K * V)) (k : K)
  : option V :=
  match d with
  | [] => None
  | (k', v) :: d' => if eqb k' k then Some v else lookup eqb d' k
  end.

Definition atomic_data : list (str * list (Z * list (str * list Number))) :=
  [ ("Zn",
      [ (3, [ ("SO", [Float 15738 3; Float 162 3; Int 0]);
             ("SC2", [Float 45 1; Float 0 1; Float 14489 3; Float 0 1; Float 9041 3]);
             ("SC2EX", [Float 45 1; Float 0 1; Float 15210 3; Float 0 1; Float 9495 3]);
             ("FG", [Float 45 1; Float 7084 3; Float 15738 3; Float 4033 3]) ]);
        (4, [ ("SO", [Float 15737 3; Float 175 3; Int 0]);
             ("SC2", [Float 45 1; Float 0 1; Float 15443 3; Float 0 1; Float 9681 3]);
             ("SC2EX", [Float 45 1; Float 0 1; Float 16145 3; Float 0 1; Float 10124 3]);
             ("FG", [Float 45 1; Float 7639 3; Float 15737 3; Float 4352 3]) ]) ]);
    ("Cu",
      [ (2, [ ("SO", [Float 13498 3; Float 124 3; Int 0]);
             ("SC2", [Float 45 1; Float 0 1; Float 12854 3; Float 0 1; Float 7980 3]);
             ("SC2EX", [Float 45 1; Float 0 1; Float 13611 3; Float 0 1; Float 8457 3]);
             ("FG", [Float 45 1; Float 6169 3; Float 13498 3; Float 3510 3]) ]);
        (3, [ ("SO", [Float 13496 3; Float 135 3; Int 0]);
             ("SC2", [Float 45 1; Float 0 1; Float 13885 3; Float 0 1; Float 8669 3]);
             ("SC2EX", [Float 45 1; Float 0 1; Float 14617 3; Float 0 1; Float 9130 3]);
             ("FG", [Float 45 1; Float 6708 3; Float 13496 3; Float 3818 3]) ]);
        (4, [ ("SO", [Float 13495 3; Float 147 3; Int 0]);
             ("SC2", [Float 45 1; Float 0 1; Float 14845 3; Float 0 1; Float 9313 3]);
             ("SC2EX", [Float 45 1; Float 0 1; Float 15556 3; Float 0 1; Float 9762 3]);
             ("FG", [Float 45 1; Float 7270 3; Float 13495 3; Float 4141 3]) ]) ]);
    ("Ni",
      [ (1, [ ("SO", [Float 11509 3; Float 93 3; Int 0]);
             ("SC2", [Float 45 1; Float 0 1; Float 11084 3; Float 0 1; Float 6835 3]);
             ("SC2EX", [Float 45 1; Float 0 1; Float 11890 3; Float 0 1; Float 7343 3]);
             ("FG", [Float 45 1; Float 5262 3; Float 7098 3; Float 2993 3]) ]);
        (2, [ ("SO", [Float 11507 3; Float 102 3; Int 0]);
             ("SC2", [Float 45 1; Float 0 1; Float 12233 3; Float 0 1; Float 7597 3]);
             ("SC2EX", [Float 45 1; Float 0 1; Float 13005 3; Float 0 1; Float 8084 3]);
             ("FG", [Float 45 1; Float 5783 3; Float 7720 3; Float 3290 3]) ]);
        (3, [ ("SO", [Float 11506 3; Float 112 3; Int 0]);
             ("SC2", [Float 45 1; Float 0 1; Float 13276 3; Float 0 1; Float 8294 3]);
             ("SC2EX", [Float 45 1; Float 0 1; Float 14021 3; Float 0 1; Float 8763 3]);
             ("FG", [Float 45 1; Float 6329 3; Float 8349 3; Float 3602 3]) ]);
        (4, [ ("SO", [Float 11505 3; Float 122 3; Int 0]);
             ("SC2", [Float 45 1; Float 0 1; Float 14244 3; Float 0 1; Float 8944 3]);
             ("SC2EX", [Float 45 1; Float 0 1; Float 14965 3; Float 0 1; Float 9399 3]);
             ("FG", [Float 45 1; Float 6898 3; Float 8984 3; Float 3929 3]) ]) ]);
    ("Co",
      [ (0, [ ("SO", [Float 9752 3; Float 67 3; Int 0]);
             ("SC2", [Float 45 1; Float 0 1; Float 2196 3; Float 0 1; Float 1348 3]);
             ("SC2EX", [Float 45 1; Float 0 1; Float 9969 3; Float 0 1; Float 6108 3]);
             ("FG", [Float 45 1; Float 4367 3; Float 5996 3; Float 2482 3]) ]);
        (1, [ ("SO", [Float 9750 3; Float 75 3; Int 0]);
             ("SC2", [Float 45 1; Float 0 1; Float 10430 3; Float 0 1; Float 6431 3]);
             ("SC2EX", [Float 45 1; Float 0 1; Float 11261 3; Float 0 1; Float 6954 3]);
             ("FG", [Float 45 1; Float 4865 3; Float 6624 3; Float 2766 3]) ]);
        (2, [ ("SO", [Float 9748 3; Float 83 3; Int 0]);
             ("SC2", [Float 45 1; Float 0 1; Float 11604 3; Float 0 1; Float 7209 3]);
             ("SC2EX", [Float 45 1; Float 0 1; Float 12395 3; Float 0 1; Float 7707 3]);
             ("FG", [Float 45 1; Float 5394 3; Float 7259 3; Float 3068 3]) ]);
        (3, [ ("SO", [Float 9746 3; Float 92 3; Int 0]);
             ("SC2", [Float 45 1; Float 0 1; Float 12662 3; Float 0 1; Float 7916 3]);
             ("SC2EX", [Float 45 1; Float 0 1; Float 13421 3; Float 0 1; Float 8394 3]);
             ("FG", [Float 45 1; Float 5947 3; Float 7899 3; Float 3384 3]) ]);
        (4, [ ("SO", [Float 9746 3; Float 101 3; Int 0]);
             ("SC2", [Float 45 1; Float 0 1; Float 13638 3; Float 0 1; Float 8572 3]);
             ("SC2EX", [Float 45 1; Float 0 1; Float 14372 3; Float 0 1; Float 9034 3]);
             ("FG", [Float 45 1; Float 6525 3; Float 8544 3; Float 3716 3]) ]) ]);
    ("Fe",
      [ (0, [ ("SO", [Float 8203 3; Float 53 3; Int 0]);
             ("SC2", [Float 45 1; Float 0 1; Float 2087 3; Float 0 1; Float 1275 3]);
             ("SC2EX", [Float 45 1; Float 0 1; Float 9293 3; Float 0 1; Float 5688 3]);
             ("FG", [Float 45 1; Float 3957 3; Float 8203 3; Float 2248 3]) ]);
        (1, [ ("SO", [Float 8202 3; Float 59 3; Int 0]);
             ("SC2", [Float 45 1; Float 0 1; Float 9761 3; Float 0 1; Float 6017 3]);
             ("SC2EX", [Float 45 1; Float 0 1; Float 10622 3; Float 0 1; Float 6559 3]);
             ("FG", [Float 45 1; Float 4463 3; Float 8202 3; Float 2537 3]) ]);
        (2, [ ("SO", [Float 8200 3; Float 67 3; Int 0]);
             ("SC2", [Float 45 1; Float 0 1; Float 10965 3; Float 0 1; Float 6815 3]);
             ("SC2EX", [Float 45 1; Float 0 1; Float 11778 3; Float 0 1; Float 7327 3]);
             ("FG", [Float 45 1; Float 5000 3; Float 8200 3; Float 2843 3]) ]);
        (3, [ ("SO", [Float 8199 3; Float 74 3; Int 0]);
             ("SC2", [Float 45 1; Float 0 1; Float 12042 3; Float 0 1; Float 7534 3]);
             ("SC2EX", [Float 45 1; Float 0 1; Float 12817 3; Float 0 1; Float 8023 3]);
             ("FG", [Float 45 1; Float 5563 3; Float 8199 3; Float 3165 3]) ]);
        (4, [ ("SO", [Float 8199 3; Float 82 3; Int 0]);
             ("SC2", [Float 45 1; Float 0 1; Float 13029 3; Float 0 1; Float 8197 3]);
             ("SC2EX", [Float 45 1; Float 0 1; Float 13775 3; Float 0 1; Float 8667 3]);
             ("FG", [Float 45 1; Float 6150 3; Float 8199 3; Float 3502 3]) ]) ]);
    ("Mn",
      [ (0, [ ("SO", [Float 6849 3; Float 40 3; Int 0]);
             ("SC2", [Float 45 1; Float 0 1; Float 5312 3; Float 0 1; Float 3268 3]);
             ("SC2EX", [Float 45 1; Float 0 1; Float 8594 3; Float 0 1; Float 5255 3]);
             ("FG", [Float 45 1; Float 3539 3; Float 6849 3; Float 2010 3]) ]);
        (1, [ ("SO", [Float 6847 3; Float 46 3; Int 0]);
             ("SC2", [Float 45 1; Float 0 1; Float 9072 3; Float 0 1; Float 5590 3]);
             ("SC2EX", [Float 45 1; Float 0 1; Float 9971 3; Float 0 1; Float 6156 3]);
             ("FG", [Float 45 1; Float 4056 3; Float 6847 3; Float 2304 3]) ]);
        (2, [ ("SO", [Float 6846 3; Float 53 3; Int 0]);
             ("SC2", [Float 45 1; Float 0 1; Float 10315 3; Float 0 1; Float 6413 3]);
             ("SC2EX", [Float 45 1; Float 0 1; Float 11154 3; Float 0 1; Float 6942 3]);
             ("FG", [Float 45 1; Float 4603 3; Float 6846 3; Float 2617 3]) ]);
        (3, [ ("SO", [Float 6845 3; Float 59 3; Int 0]);
             ("SC2", [Float 45 1; Float 0 1; Float 11414 3; Float 0 1; Float 7147 3]);
             ("SC2EX", [Float 45 1; Float 0 1; Float 12209 3; Float 0 1; Float 7648 3]);
             ("FG", [Float 45 1; Float 5176 3; Float 6845 3; Float 2944 3]) ]);
        (4, [ ("SO", [Float 6845 3; Float 66 3; Int 0]);
             ("SC2", [Float 45 1; Float 0 1; Float 12414 3; Float 0 1; Float 7819 3]);
             ("SC2EX", [Float 45 1; Float 0 1; Float 13176 3; Float 0 1; Float 8299 3]);
             ("FG", [Float 45 1; Float 5773 3; Float 6845 3; Float 3287 3]) ]) ]);
    ("Cr",
      [ (0, [ ("SO", [Float 5671 3; Float 30 3; Int 0]);
             ("SC2", [Float 45 1; Float 0 1; Float 6833 3; Float 0 1; Float 4155 3]);
             ("SC2EX", [Float 45 1; Float 0 1; Float 7866 3; Float 0 1; Float 4803 3]);
             ("FG", [Float 45 1; Float 3112 3; Float 5671 3; Float 1767 3]) ]);
        (1, [ ("SO", [Float 5669 3; Float 35 3; Int 0]);
             ("SC2", [Float 45 1; Float 0 1; Float 8355 3; Float 0 1; Float 5146 3]);
             ("SC2EX", [Float 45 1; Float 0 1; Float 9303 3; Float 0 1; Float 5742 3]);
             ("FG", [Float 45 1; Float 3641 3; Float 5669 3; Float 2068 3]) ]);
        (2, [ ("SO", [Float 5668 3; Float 41 3; Int 0]);
             ("SC2", [Float 45 1; Float 0 1; Float 9648 3; Float 0 1; Float 6001 3]);
             ("SC2EX", [Float 45 1; Float 0 1; Float 10521 3; Float 0 1; Float 6551 3]);
             ("FG", [Float 45 1; Float 4201 3; Float 5668 3; Float 2387 3]) ]);
        (3, [ ("SO", [Float 5667 3; Float 47 3; Int 0]);
             ("SC2", [Float 45 1; Float 0 1; Float 10776 3; Float 0 1; Float 6754 3]);
             ("SC2EX", [Float 45 1; Float 0 1; Float 11594 3; Float 0 1; Float 7270 3]);
             ("FG", [Float 45 1; Float 4785 3; Float 5667 3; Float 2721 3]) ]);
        (4, [ ("SO", [Float 5668 3; Float 53 3; Int 0]);
             ("SC2", [Float 45 1; Float 0 1; Float 11793 3; Float 0 1; Float 7437 3]);
             ("SC2EX", [Float 45 1; Float 0 1; Float 12572 3; Float 0 1; Float 7928 3]);
             ("FG", [Float 45 1; Float 5394 3; Float 5668 3; Float 3070 3]) ]) ]);
    ("V",
      [ (0, [ ("SO", [Float 4652 3; Float 22 3; Int 0]);
             ("SC2", [Float 45 1; Float 0 1; Float 5970 3; Float 0 1; Float 3620 3]);
             ("SC2EX", [Float 45 1; Float 0 1; Float 7095 3; Float 0 1; Float 4324 3]);
             ("FG", [Float 45 1; Float 2673 3; Float 4652 3; Float 1517 3]) ]);
        (1, [ ("SO", [Float 4651 3; Float 26 3; Int 0]);
             ("SC2", [Float 45 1; Float 0 1; Float 7599 3; Float 0 1; Float 4676 3]);
             ("SC2EX", [Float 45 1; Float 0 1; Float 8612 3; Float 0 1; Float 5314 3]);
             ("FG", [Float 45 1; Float 3218 3; Float 4651 3; Float 1827 3]) ]);
        (2, [ ("SO", [Float 4650 3; Float 31 3; Int 0]);
             ("SC2", [Float 45 1; Float 0 1; Float 8961 3; Float 0 1; Float 5576 3]);
             ("SC2EX", [Float 45 1; Float 0 1; Float 9875 3; Float 0 1; Float 6152 3]);
             ("FG", [Float 45 1; Float 3792 3; Float 4650 3; Float 2154 3]) ]);
        (3, [ ("SO", [Float 4649 3; Float 36 3; Int 0]);
             ("SC2", [Float 45 1; Float 0 1; Float 10126 3; Float 0 1; Float 6353 3]);
             ("SC2EX", [Float 45 1; Float 0 1; Float 10973 3; Float 0 1; Float 6887 3]);
             ("FG", [Float 45 1; Float 4389 3; Float 4649 3; Float 2495 3]) ]);
        (4, [ ("SO", [Float 4650 3; Float 41 3; Int 0]);
             ("SC2", [Float 45 1; Float 0 1; Float 0 3; Float 0 1; Float 0 3]);
             ("SC2EX", [Float 45 1; Float 0 1; Float 11963 3; Float 0 1; Float 7554 3]);
             ("FG", [Float 45 1; Float 5011 3; Float 4650 3; Float 2852 3]) ]) ]);
    ("Ti",
      [ (0, [ ("SO", [Float 3778 3; Float 15 3; Int 0]);
             ("SC2", [Float 45 1; Float 0 1; Float 5002 3; Float 0 1; Float 3019 3]);
             ("SC2EX", [Float 45 1; Float 0 1; Float 6261 3; Float 0 1; Float 3806 3]);
             ("FG", [Float 45 1; Float 2216 3; Float 3778 3; Float 1257 3]) ]);
        (1, [ ("SO", [Float 3777 3; Float 19 3; Int 0]);
             ("SC2", [Float 45 1; Float 0 1; Float 6780 3; Float 0 1; Float 4167 3]);
             ("SC2EX", [Float 45 1; Float 0 1; Float 7888 3; Float 0 1; Float 4865 3]);
             ("FG", [Float 45 1; Float 2783 3; Float 3777 3; Float 1578 3]) ]);
        (2, [ ("SO", [Float 3776 3; Float 23 3; Int 0]);
             ("SC2", [Float 45 1; Float 0 1; Float 8243 3; Float 0 1; Float 5132 3]);
             ("SC2EX", [Float 45 1; Float 0 1; Float 9213 3; Float 0 1; Float 5744 3]);
             ("FG", [Float 45 1; Float 3376 3; Float 3776 3; Float 1917 3]) ]);
        (3, [ ("SO", [Float 3776 3; Float 27 3; Int 0]);
             ("SC2", [Float 45 1; Float 0 1; Float 0 1; Float 0 1; Float 0 1]);
             ("SC2EX", [Float 45 1; Float 0 1; Float 10342 3; Float 0 1; Float 6499 3]);
             ("FG", [Float 45 1; Float 3989 3; Float 3776 3; Float 2267 3]) ]) ]) ].

Definition zero_val : list (str * Z) :=
  [ ("Zn", -2); ("Cu", -1); ("Ni", 0); ("Co", 1); ("Fe", 2); ("Mn", 3);
    ("Cr", 4); ("V", 5); ("Ti", 6) ].

Definition invalid_configuration (element : str) (valence : Z) : error :=
  ValueError ("Invalid atomic configuration for " ++ element ++ " with valence "
              ++ str_of_int valence).

Definition no_atomic_data (element : str) (valence : Z) : error :=
  ValueError ("No atomic data found for " ++ element ++ " with valence "
              ++ str_of_int valence).

(** [get_dParams] (inputs.py, lines 127-410) *)
Definition get_dParams (element : str) (valence : Z)
  : checked (Z * list (str * list Number)) :=
  match lookup String.eqb zero_val element with
  | None => Throw (KeyError element)
  | Some z =>
      let holes := z + valence in
      if (holes <? 0)%Z then Throw (invalid_configuration element valence)
      else
        match lookup String.eqb atomic_data element with
        | None => Throw (no_atomic_data element valence)
        | Some by_valence =>
            match lookup Z.eqb by_valence valence with
            | None => Throw (no_atomic_data element valence)
            | Some d => Return (holes, d)
            end
        end
  end.

(** What every entry of the table yields: a hole count between 1 and 9 for
    a valence between 0 and 4, and the four parameter lists. *)
Definition entry_check (element : str) (valence : Z) : bool :=
  match get_dParams element valence with
  | Return (holes, d) =>
      ((1 <=? holes) && (holes <=? 9) && (0 <=? valence) && (valence <=? 4))%Z
      && (match lookup String.eqb zero_val element with
          | Some z => (holes =? z + valence)%Z
          | None => false
          end)
      && (if list_eq_dec string_dec (map fst d) ["SO"; "SC2"; "SC2EX"; "FG"]
          then true else false)
  | Throw _ => false
  end.

Definition table_check : bool :=
  forallb (fun ev => forallb (fun vd => entry_check (fst ev) (fst vd)) (snd ev))
          atomic_data.

End Inputs.

(** * Properties *)

(** ** Exceptions and loops *)

Lemma mapM_ok_length {A B : Type} (f : A -> result B) (xs : list A) (ys : list B) :
  mapM f xs = Ok ys -> length ys = length xs.
Proof.
  revert ys; induction xs as [|x t IH]; simpl; intros ys H.
  - now inversion H.
  - destruct (f x) as [y|e]; simpl in H; [|discriminate].
    destruct (mapM f t) as [ys'|e]; simpl in H; [|discriminate].
    inversion H; subst; simpl; f_equal; auto.
Qed.

Lemma mapM_ok_nth {A B : Type} (f : A -> result B) (xs : list A) (ys : list B) :
  mapM f xs = Ok ys ->
  forall i x, nth_error xs i = Some x ->
  exists y, nth_error ys i = Some y /\ f x = Ok y.
Proof.
  revert ys; induction xs as [|x t IH]; simpl; intros ys H i x0 Hi.
  - destruct i; discriminate.
  - destruct (f x) as [y|e] eqn:Hf; simpl in H; [|discriminate].
    destruct (mapM f t) as [ys'|e]; simpl in H; [|discriminate].
    inversion H; subst; clear H.
    destruct i as [|i]; simpl in *.
    + inversion Hi; subst. eauto.
    + eapply IH; eauto.
Qed.

Lemma mapM_total {A B : Type} (f : A -> result B) (xs : list A) :
  (forall x, In x xs -> exists y, f x = Ok y) ->
  exists ys, mapM f xs = Ok ys.
Proof.
  induction xs as [|x t IH]; simpl; intros H.
  - eauto.
  - destruct (H x) as [y Hy]; [auto|]. rewrite Hy; simpl.
    destruct IH as [ys Hys]; [intros; apply H; auto|].
    rewrite Hys; simpl; eauto.
Qed.

(** ** Single-particle states and combinations *)

Lemma range_NoDup a b : NoDup (range a b).
Proof.
  unfold range. apply Finite.Injective_map_NoDup; [|apply seq_NoDup].
  intros x y H; lia.
Qed.

Lemma range_length a b : length (range a b) = Z.to_nat (b - a).
Proof. unfold range. now rewrite length_map, length_seq. Qed.

Lemma range_In a b x : In x (range a b) <-> a <= x < b.
Proof.
  unfold range. rewrite in_map_iff. split.
  - intros [i [<- Hi]]. apply in_seq in Hi. lia.
  - intros H. exists (Z.to_nat (x - a)). split; [lia|]. apply in_seq. lia.
Qed.

Lemma half_neq : Rational 1 2 <> Rational (-1) 2.
Proof. intros H. apply (f_equal this) in H. discriminate H. Qed.

Lemma get_single_states_NoDup l : NoDup (get_single_states l).
Proof.
  unfold get_single_states. apply NoDup_app.
  - apply Finite.Injective_map_NoDup; [|apply range_NoDup].
    intros x y H; now inversion H.
  - apply Finite.Injective_map_NoDup; [|apply range_NoDup].
    intros x y H; now inversion H.
  - intros [m s] H1 H2. apply in_map_iff in H1, H2.
    destruct H1 as [x [Hx _]], H2 as [y [Hy _]].
    inversion Hx; inversion Hy; subst. now apply half_neq.
Qed.

Lemma get_single_states_length l :
  0 <= l -> Z.of_nat (length (get_single_states l)) = 2 * (2 * l + 1).
Proof.
  intros Hl. unfold get_single_states.
  rewrite length_app, !length_map, range_length. lia.
Qed.

Lemma combs_length {A : Type} (l : list A) :
  forall r c, In c (combs l r) -> length c = r.
Proof.
  induction l as [|x t IH]; intros r c H; destruct r; simpl in H.
  - destruct H as [<-|[]]; reflexivity.
  - destruct H.
  - destruct H as [<-|[]]; reflexivity.
  - apply in_app_or in H. destruct H as [H|H].
    + apply in_map_iff in H. destruct H as [c' [<- H]]. simpl. f_equal. eauto.
    + eauto.
Qed.

Lemma combs_incl {A : Type} (l : list A) :
  forall r c, In c (combs l r) -> incl c l.
Proof.
  induction l as [|x t IH]; intros r c H; destruct r; simpl in H.
  - destruct H as [<-|[]]. apply incl_nil_l.
  - destruct H.
  - destruct H as [<-|[]]. apply incl_nil_l.
  - apply in_app_or in H. destruct H as [H|H].
    + apply in_map_iff in H. destruct H as [c' [<- H]].
      apply incl_cons; [now left|]. apply incl_tl. eauto.
    + apply incl_tl. eauto.
Qed.

Lemma combs_NoDup {A : Type} (l : list A) :
  NoDup l -> forall r c, In c (combs l r) -> NoDup c.
Proof.
  induction 1 as [|x t Hx Ht IH]; intros r c H; destruct r; simpl in H.
  - destruct H as [<-|[]]. constructor.
  - destruct H.
  - destruct H as [<-|[]]. constructor.
  - apply in_app_or in H. destruct H as [H|H].
    + apply in_map_iff in H. destruct H as [c' [<- H]].
      constructor; [|eauto]. intros Hin. apply Hx. eapply combs_incl; eauto.
    + eauto.
Qed.

Lemma combs_too_many {A : Type} (l : list A) :
  forall r, (length l < r)%nat -> combs l r = [].
Proof.
  induction l as [|x t IH]; intros r Hr; destruct r; simpl in *; try lia.
  - reflexivity.
  - rewrite !IH by lia. reflexivity.
Qed.

(** Two combinations of a duplicate-free list with the same elements are the
    same tuple. *)
Lemma combs_perm_eq (l : list State) :
  NoDup l -> forall r c1 c2,
  In c1 (combs l r) -> In c2 (combs l r) -> Permutation c1 c2 -> c1 = c2.
Proof.
  induction 1 as [|x t Hx Ht IH]; intros r c1 c2 H1 H2 HP; destruct r; simpl in H1, H2.
  - destruct H1 as [<-|[]], H2 as [<-|[]]; reflexivity.
  - destruct H1.
  - destruct H1 as [<-|[]], H2 as [<-|[]]; reflexivity.
  - apply in_app_or in H1, H2.
    destruct H1 as [H1|H1], H2 as [H2|H2].
    + apply in_map_iff in H1, H2.
      destruct H1 as [c1' [<- H1]], H2 as [c2' [<- H2]].
      f_equal. apply (IH r); auto. eapply Permutation_cons_inv; eauto.
    + apply in_map_iff in H1. destruct H1 as [c1' [<- H1]].
      exfalso. apply Hx. apply (combs_incl t (S r) c2 H2).
      apply (Permutation_in x HP). now left.
    + apply in_map_iff in H2. destruct H2 as [c2' [<- H2]].
      exfalso. apply Hx. apply (combs_incl t (S r) c1 H1).
      apply (Permutation_in x (Permutation_sym HP)). now left.
    + eapply IH; eauto.
Qed.

Lemma enumerate_ok n target_m_l target_m_s states :
  0 <= n ->
  enumerate_fn_configurations n target_m_l target_m_s states
  = Ok (filter (fun config => Z.eqb (sum_ml config) target_m_l
                              && Qc_eq_bool (sum_ms config) target_m_s)
               (combs states (Z.to_nat n))).
Proof.
  intros Hn. unfold enumerate_fn_configurations, combinations.
  destruct (n <? 0) eqn:E; [lia|]. reflexivity.
Qed.

Lemma enumerate_negative n target_m_l target_m_s states :
  n < 0 ->
  enumerate_fn_configurations n target_m_l target_m_s states = Raise ValueError.
Proof.
  intros Hn. unfold enumerate_fn_configurations, combinations.
  destruct (n <? 0) eqn:E; [reflexivity|lia].
Qed.

Lemma enumerate_inv n target_m_l target_m_s states configs :
  enumerate_fn_configurations n target_m_l target_m_s states = Ok configs ->
  0 <= n /\
  forall config, In config configs ->
    In config (combs states (Z.to_nat n))
    /\ sum_ml config = target_m_l /\ sum_ms config = target_m_s.
Proof.
  intros H. destruct (Z.lt_ge_cases n 0) as [Hn|Hn].
  - rewrite enumerate_negative in H by assumption. discriminate.
  - split; [assumption|]. rewrite enumerate_ok in H by assumption.
    inversion H; subst; clear H. intros config Hc.
    apply filter_In in Hc. destruct Hc as [Hc Hb].
    apply andb_true_iff in Hb. destruct Hb as [Hl Hs].
    split; [assumption|]. split; [now apply Z.eqb_eq|now apply Qc_eq_bool_correct].
Qed.

Lemma enumerate_configurations_total (l n target_m_l : Z) (target_m_s : Qc) :
  0 <= n ->
  exists configs,
    enumerate_fn_configurations n target_m_l target_m_s (get_single_states l)
    = Ok configs.
Proof. intros Hn. eexists. now apply enumerate_ok. Qed.

(** C7. Every configuration returned by [enumerate_fn_configurations] on the
    state space of a shell has exactly [n] pairwise distinct single-particle
    states of that shell, and its total [m_l] and total [m_s] are equal to the
    targets; for a non-negative [n] the enumeration does return. *)
Theorem enumerate_configurations_sound (l n target_m_l : Z) (target_m_s : Qc) :
  0 <= n ->
  exists configs,
    enumerate_fn_configurations n target_m_l target_m_s (get_single_states l)
    = Ok configs
    /\ forall config, In config configs ->
         Z.of_nat (length config) = n
         /\ NoDup config
         /\ incl config (get_single_states l)
         /\ sum_ml config = target_m_l
         /\ sum_ms config = target_m_s.
Proof.
  intros Hn. eexists. split; [apply enumerate_ok; assumption|].
  intros config Hc. apply filter_In in Hc. destruct Hc as [Hc Hb].
  apply andb_true_iff in Hb. destruct Hb as [Hl Hs].
  split; [rewrite (combs_length _ _ _ Hc); lia|].
  split; [eapply combs_NoDup; eauto using get_single_states_NoDup|].
  split; [eapply combs_incl; eauto|].
  split; [now apply Z.eqb_eq|now apply Qc_eq_bool_correct].
Qed.

Lemma enumerate_configurations_sound_witness :
  exists configs,
    enumerate_fn_configurations 2 0 (Q2Qc 0) (get_single_states 1) = Ok configs
    /\ forall config, In config configs ->
         Z.of_nat (length config) = 2
         /\ NoDup config
         /\ incl config (get_single_states 1)
         /\ sum_ml config = 0
         /\ sum_ms config = Q2Qc 0.
Proof. apply (enumerate_configurations_sound 1 2 0 (Q2Qc 0)). lia. Defined.

(** ** Counters as multisets *)


Lemma cget_cincr c x y :
  cget (cincr c x) y = if state_eq_dec y x then cget c y + 1 else cget c y.
Proof.
  induction c as [|[z n] c IH]; simpl.
  - destruct (state_eq_dec y x); reflexivity.
  - destruct (state_eq_dec x z) as [->|Hxz]; simpl.
    + destruct (state_eq_dec y z); reflexivity.
    + destruct (state_eq_dec y z) as [->|Hyz].
      * destruct (state_eq_dec z x); [congruence|reflexivity].
      * apply IH.
Qed.

Lemma cget_fold l : forall c x,
  cget (fold_left cincr l c) x = cget c x + Z.of_nat (cnt l x).
Proof.
  induction l as [|a l IH]; intros c x; simpl.
  - lia.
  - rewrite IH, cget_cincr.
    destruct (state_eq_dec x a) as [->|Hxa].
    + destruct (state_eq_dec a a); [lia|congruence].
    + destruct (state_eq_dec a x); [congruence|lia].
Qed.

Lemma cget_counter l x : cget (counter l) x = Z.of_nat (cnt l x).
Proof. unfold counter. now rewrite cget_fold. Qed.

Lemma keys_cincr c x k : In k (keys (cincr c x)) <-> k = x \/ In k (keys c).
Proof.
  unfold keys. induction c as [|[z n] c IH]; simpl.
  - intuition.
  - destruct (state_eq_dec x z) as [->|Hxz]; simpl; intuition.
Qed.

Lemma keys_cincr_NoDup c x : NoDup (keys c) -> NoDup (keys (cincr c x)).
Proof.
  unfold keys. induction c as [|[z n] c IH]; simpl; intros H.
  - constructor; [intros []|constructor].
  - inversion H as [|? ? Hz Hc]; subst.
    destruct (state_eq_dec x z) as [->|Hxz]; simpl.
    + now constructor.
    + constructor; [|auto]. intros Hin.
      apply (keys_cincr c x z) in Hin. destruct Hin as [->|Hin]; auto.
Qed.

Lemma counter_keys_NoDup l : NoDup (keys (counter l)).
Proof.
  unfold counter. assert (H : NoDup (keys [])) by constructor.
  revert H. generalize (@nil (State * Z)).
  induction l as [|a l IH]; intros c H; simpl; auto using keys_cincr_NoDup.
Qed.

Lemma cget_not_key c x : ~ In x (keys c) -> cget c x = 0.
Proof.
  induction c as [|[z n] c IH]; simpl; intros H; [reflexivity|].
  destruct (state_eq_dec x z) as [->|Hxz]; [exfalso; auto|auto].
Qed.

Lemma cincr_nonneg c a :
  Forall (fun kv : State * Z => 0 <= snd kv) c ->
  Forall (fun kv : State * Z => 0 <= snd kv) (cincr c a).
Proof.
  induction 1 as [|[z n] c Hn Hc IHc]; simpl.
  - constructor; [simpl; lia|constructor].
  - destruct (state_eq_dec a z); constructor; simpl in *; auto; lia.
Qed.

Lemma counter_nonneg l : Forall (fun kv => 0 <= snd kv) (counter l).
Proof.
  unfold counter.
  assert (H : Forall (fun kv : State * Z => 0 <= snd kv) []) by constructor.
  revert H. generalize (@nil (State * Z)).
  induction l as [|a l IH]; intros c H; simpl; auto using cincr_nonneg.
Qed.

Lemma flat_map_cons_eq {A B : Type} (f : A -> list B) (x : A) (l : list A) :
  flat_map f (x :: l) = f x ++ flat_map f l.
Proof. reflexivity. Qed.

Lemma elements_app c1 c2 : elements (c1 ++ c2) = elements c1 ++ elements c2.
Proof. unfold elements. apply flat_map_app. Qed.

Lemma counter_sub_nonneg self other :
  Forall (fun kv => 0 <= snd kv) other ->
  counter_sub self other
  = flat_map (fun kv =>
                let newcount := snd kv - cget other (fst kv) in
                if 0 <? newcount then [(fst kv, newcount)] else []) self.
Proof.
  intros H. unfold counter_sub.
  assert (E : flat_map (fun kv : State * Z =>
                 if negb (cmem self (fst kv)) && (snd kv <? 0)
                 then [(fst kv, 0 - snd kv)] else []) other = []).
  { induction H as [|kv c Hkv Hc IH]; [reflexivity|].
    rewrite flat_map_cons_eq, IH.
    destruct (snd kv <? 0) eqn:E; [lia|]. now rewrite andb_false_r. }
  rewrite E. apply app_nil_r.
Qed.

Lemma cnt_elements_sub self other x :
  NoDup (keys self) ->
  0 <= cget other x ->
  cnt (elements (flat_map (fun kv =>
                   let newcount := snd kv - cget other (fst kv) in
                   if 0 <? newcount then [(fst kv, newcount)] else []) self)) x
  = Z.to_nat (cget self x - cget other x).
Proof.
  intros Hnd Hx. induction self as [|[k n] c IH].
  - simpl. lia.
  - inversion Hnd as [|? ? Hk Hc]; subst.
    rewrite flat_map_cons_eq, elements_app, count_occ_app, IH by assumption.
    cbn [cget fst snd].
    destruct (state_eq_dec x k) as [->|Hxk].
    + rewrite (cget_not_key c k Hk).
      destruct (0 <? n - cget other k) eqn:E; unfold elements; simpl.
      * rewrite app_nil_r, count_occ_repeat_eq by reflexivity. lia.
      * lia.
    + destruct (0 <? n - cget other k) eqn:E; unfold elements; simpl.
      * rewrite app_nil_r, count_occ_repeat_neq by assumption. lia.
      * lia.
Qed.

(** The list [(Counter(l1) - Counter(l2)).elements()] is the multiset
    difference of [l1] and [l2]. *)
Lemma cnt_removed l1 l2 x :
  cnt (removed_states l1 l2) x = (cnt l1 x - cnt l2 x)%nat.
Proof.
  unfold removed_states.
  rewrite counter_sub_nonneg by apply counter_nonneg.
  rewrite cnt_elements_sub.
  - rewrite !cget_counter. lia.
  - apply counter_keys_NoDup.
  - rewrite cget_counter. lia.
Qed.

Lemma removed_perm_nil l1 l2 : Permutation l1 l2 -> removed_states l1 l2 = [].
Proof.
  intros HP. apply (count_occ_inv_nil state_eq_dec). intros x.
  rewrite cnt_removed.
  apply (Permutation_count_occ state_eq_dec) with (x := x) in HP. lia.
Qed.

Lemma counter_eqb_true l1 l2 :
  Permutation l1 l2 -> counter_eqb (counter l1) (counter l2) = true.
Proof.
  intros HP. unfold counter_eqb.
  assert (E : forall x, (cget (counter l1) x =? cget (counter l2) x) = true).
  { intros x. rewrite !cget_counter. apply Z.eqb_eq. f_equal.
    now apply (Permutation_count_occ state_eq_dec). }
  apply andb_true_iff; split; apply forallb_forall; intros kv _; apply E.
Qed.

Lemma split_removed_common l1 l2 :
  Permutation l1 (removed_states l1 l2 ++ common_states l1 l2).
Proof.
  apply (Permutation_count_occ state_eq_dec). intros x.
  unfold common_states. rewrite count_occ_app, !cnt_removed. lia.
Qed.

Lemma common_states_sym l1 l2 :
  Permutation (common_states l1 l2) (common_states l2 l1).
Proof.
  apply (Permutation_count_occ state_eq_dec). intros x.
  unfold common_states. rewrite !cnt_removed. lia.
Qed.

Lemma removed_added_length l1 l2 :
  length l1 = length l2 ->
  length (removed_states l1 l2) = length (removed_states l2 l1).
Proof.
  intros H.
  pose proof (Permutation_length (split_removed_common l1 l2)) as H1.
  pose proof (Permutation_length (split_removed_common l2 l1)) as H2.
  pose proof (Permutation_length (common_states_sym l1 l2)) as H3.
  rewrite length_app in H1, H2. lia.
Qed.

(** ** Totals of a configuration *)

Lemma sum_ml_fold l : forall a,
  fold_left (fun acc state => acc + fst state) l a = a + sum_ml l.
Proof.
  unfold sum_ml. induction l as [|x l IH]; intros a; simpl; [lia|].
  rewrite (IH (a + fst x)), (IH (fst x)). lia.
Qed.

Lemma sum_ml_cons x l : sum_ml (x :: l) = fst x + sum_ml l.
Proof. unfold sum_ml at 1. simpl. now rewrite sum_ml_fold. Qed.

Lemma sum_ml_app l1 l2 : sum_ml (l1 ++ l2) = sum_ml l1 + sum_ml l2.
Proof.
  induction l1 as [|x l1 IH]; simpl; [reflexivity|].
  rewrite !sum_ml_cons, IH. lia.
Qed.

Lemma sum_ml_perm l1 l2 : Permutation l1 l2 -> sum_ml l1 = sum_ml l2.
Proof.
  induction 1; rewrite ?sum_ml_cons; lia.
Qed.

Lemma sum_ms_fold l : forall a,
  fold_left (fun acc state => (acc + snd state)%Qc) l a = (a + sum_ms l)%Qc.
Proof.
  unfold sum_ms. induction l as [|x l IH]; intros a; simpl; [ring|].
  rewrite (IH (a + snd x)%Qc), (IH (Q2Qc 0 + snd x)%Qc). ring.
Qed.

Lemma sum_ms_cons x l : sum_ms (x :: l) = (snd x + sum_ms l)%Qc.
Proof. unfold sum_ms at 1. simpl. rewrite sum_ms_fold. ring. Qed.

Lemma sum_ms_app l1 l2 : sum_ms (l1 ++ l2) = (sum_ms l1 + sum_ms l2)%Qc.
Proof.
  induction l1 as [|x l1 IH]; simpl; [unfold sum_ms at 2; simpl; ring|].
  rewrite !sum_ms_cons, IH. ring.
Qed.

Lemma sum_ms_perm l1 l2 : Permutation l1 l2 -> sum_ms l1 = sum_ms l2.
Proof.
  induction 1; rewrite ?sum_ms_cons; try congruence; try ring.
Qed.

Lemma Qc_add_cancel_r (a b s : Qc) : (a + s = b + s)%Qc -> a = b.
Proof.
  intros H. replace a with (a + s - s)%Qc by ring. rewrite H. ring.
Qed.

(** What is removed and what is added carry the same totals when the two
    configurations do. *)
Lemma removed_added_sums l1 l2 :
  sum_ml l1 = sum_ml l2 -> sum_ms l1 = sum_ms l2 ->
  sum_ml (removed_states l1 l2) = sum_ml (removed_states l2 l1)
  /\ sum_ms (removed_states l1 l2) = sum_ms (removed_states l2 l1).
Proof.
  intros Hl Hs.
  pose proof (split_removed_common l1 l2) as P1.
  pose proof (split_removed_common l2 l1) as P2.
  pose proof (common_states_sym l1 l2) as P3.
  split.
  - apply sum_ml_perm in P1, P2, P3. rewrite sum_ml_app in P1, P2. lia.
  - apply sum_ms_perm in P1, P2, P3. rewrite sum_ms_app in P1, P2.
    apply (Qc_add_cancel_r _ _ (sum_ms (common_states l1 l2))).
    rewrite <- P1, Hs, P2, P3. reflexivity.
Qed.

(** ** The selector on pairs with few or many differences *)

Lemma get_required_coulomb_terms_diag state1 :
  get_required_coulomb_terms state1 state1 = Ok (diagonal_terms state1).
Proof.
  unfold get_required_coulomb_terms.
  destruct (list_eq_dec state_eq_dec state1 state1); congruence.
Qed.

Lemma get_required_coulomb_terms_offdiag state1 state2 :
  state1 <> state2 ->
  get_required_coulomb_terms state1 state2
  = if negb (Nat.eqb (length (removed_states state1 state2)) 2)
       || negb (Nat.eqb (length (removed_states state2 state1)) 2)
    then Ok []
    else first_assignment state1 state2
           (flat_map (fun ab => map (fun cd => (ab, cd))
                                    (permutations2 (removed_states state2 state1)))
                     (permutations2 (removed_states state1 state2))).
Proof.
  intros H. unfold get_required_coulomb_terms.
  destruct (list_eq_dec state_eq_dec state1 state2); [congruence|reflexivity].
Qed.

Lemma guard_returns_empty (state1 state2 : list State) :
  state1 <> state2 ->
  length (removed_states state1 state2) <> 2%nat
  \/ length (removed_states state2 state1) <> 2%nat ->
  get_required_coulomb_terms state1 state2 = Ok [].
Proof.
  intros Hne Hlen.
  rewrite get_required_coulomb_terms_offdiag by assumption.
  destruct Hlen as [H|H]; apply Nat.eqb_neq in H; rewrite H; simpl;
    [reflexivity|now rewrite orb_true_r].
Qed.

(** In particular, more than two removed states give no term. *)
Corollary more_than_two_differences_no_terms (state1 state2 : list State) :
  (2 < length (removed_states state1 state2))%nat ->
  get_required_coulomb_terms state1 state2 = Ok [].
Proof.
  intros H. destruct (list_eq_dec state_eq_dec state1 state2) as [->|Hne].
  - rewrite (removed_perm_nil state2 state2) in H by reflexivity. simpl in H. lia.
  - apply guard_returns_empty; [assumption|left; lia].
Qed.

(** C6. For distinct configurations whose multiset differences do not both
    have exactly two elements, the selector returns the empty term list and
    the matrix element is zero. *)
Theorem not_two_differences_no_terms (l : Z) (state1 state2 : list State) :
  state1 <> state2 ->
  length (removed_states state1 state2) <> 2%nat
  \/ length (removed_states state2 state1) <> 2%nat ->
  get_required_coulomb_terms state1 state2 = Ok []
  /\ matrix_entry l state1 state2 = Ok [].
Proof.
  intros Hne Hlen.
  pose proof (guard_returns_empty state1 state2 Hne Hlen) as E.
  split; [assumption|]. unfold matrix_entry. rewrite E. reflexivity.
Qed.

(** C10. Two configurations with the same multiset of states in a different
    tuple order are not taken as identical: both multiset differences are
    empty and the selector returns the empty term list; the diagonal terms
    are produced for equal tuples only. *)
Theorem reordered_configuration_no_terms (state1 state2 : list State) :
  state1 <> state2 ->
  Permutation state1 state2 ->
  removed_states state1 state2 = []
  /\ removed_states state2 state1 = []
  /\ get_required_coulomb_terms state1 state2 = Ok []
  /\ get_required_coulomb_terms state1 state1 = Ok (diagonal_terms state1).
Proof.
  intros Hne HP.
  assert (R1 := removed_perm_nil _ _ HP).
  assert (R2 := removed_perm_nil _ _ (Permutation_sym HP)).
  repeat split; try assumption.
  - rewrite get_required_coulomb_terms_offdiag by assumption.
    rewrite R1. reflexivity.
  - apply get_required_coulomb_terms_diag.
Qed.

(** C9. Two distinct configurations of one enumeration have multiset
    differences of equal size, and that size is never one; on a
    duplicate-free state list it is at least two. *)
Theorem enumerated_pairs_differ_twice (n target_m_l : Z) (target_m_s : Qc)
    (states : list State) (configs : list (list State)) (c1 c2 : list State) :
  enumerate_fn_configurations n target_m_l target_m_s states = Ok configs ->
  In c1 configs -> In c2 configs -> c1 <> c2 ->
  length (removed_states c1 c2) = length (removed_states c2 c1)
  /\ length (removed_states c1 c2) <> 1%nat
  /\ (NoDup states -> (2 <= length (removed_states c1 c2))%nat).
Proof.
  intros He H1 H2 Hne.
  destruct (enumerate_inv _ _ _ _ _ He) as [Hn Hall].
  destruct (Hall c1 H1) as [Hc1 [Hl1 Hs1]].
  destruct (Hall c2 H2) as [Hc2 [Hl2 Hs2]].
  assert (Hlen : length (removed_states c1 c2) = length (removed_states c2 c1)).
  { apply removed_added_length.
    rewrite (combs_length _ _ _ Hc1), (combs_length _ _ _ Hc2). reflexivity. }
  assert (Hone : length (removed_states c1 c2) <> 1%nat).
  { intros E1. assert (E2 := E1). rewrite Hlen in E2.
    destruct (removed_added_sums c1 c2) as [Sl Ss]; [congruence|congruence|].
    destruct (removed_states c1 c2) as [|r [|? ?]] eqn:ER; try discriminate.
    destruct (removed_states c2 c1) as [|a [|? ?]] eqn:EA; try discriminate.
    rewrite !sum_ml_cons in Sl. unfold sum_ml in Sl; simpl in Sl.
    rewrite !sum_ms_cons in Ss. apply Qc_add_cancel_r in Ss.
    assert (r = a) by (destruct r, a; simpl in *; f_equal; [lia|assumption]).
    subst a.
    pose proof (cnt_removed c1 c2 r) as Cr. pose proof (cnt_removed c2 c1 r) as Ca.
    rewrite ER in Cr. rewrite EA in Ca. simpl in Cr, Ca.
    destruct (state_eq_dec r r); [lia|congruence]. }
  split; [assumption|]. split; [assumption|].
  intros Hnd.
  destruct (removed_states c1 c2) as [|r [|? ?]] eqn:ER; simpl in *; try lia.
  exfalso. apply Hne.
  destruct (removed_states c2 c1) eqn:EA; [|discriminate].
  apply (combs_perm_eq states Hnd (Z.to_nat n)); try assumption.
  apply (Permutation_count_occ state_eq_dec). intros x.
  pose proof (cnt_removed c1 c2 x) as Cr. pose proof (cnt_removed c2 c1 x) as Ca.
  rewrite ER in Cr. rewrite EA in Ca. simpl in Cr, Ca. lia.
Qed.

(** ** Algebra of the exact scalars *)

Lemma surd_eq (x y : Surd) :
  sgn x = sgn y -> sq x = sq y -> piexp x = piexp y -> x = y.
Proof. destruct x, y; simpl; intros -> -> ->; reflexivity. Qed.

Lemma Qc_eq_bool_refl (q : Qc) : Qc_eq_bool q q = true.
Proof.
  unfold Qc_eq_bool. destruct (Qc_eq_dec q q); [reflexivity|congruence].
Qed.

Lemma surd_eqb_eq (x y : Surd) : surd_eqb x y = true <-> x = y.
Proof.
  unfold surd_eqb. split.
  - intros H. apply andb_true_iff in H. destruct H as [H H3].
    apply andb_true_iff in H. destruct H as [H1 H2].
    apply surd_eq; [now apply Z.eqb_eq|now apply Qc_eq_bool_correct|now apply Z.eqb_eq].
  - intros ->. now rewrite !Z.eqb_refl, Qc_eq_bool_refl.
Qed.

Lemma symbol_index_inj (s t : Symbol) : symbol_index s = symbol_index t -> s = t.
Proof. destruct s, t; simpl; intros H; try reflexivity; discriminate. Qed.

Lemma mono_eqb_eq (m1 m2 : Monomial) : mono_eqb m1 m2 = true <-> m1 = m2.
Proof.
  unfold mono_eqb. destruct m1 as [s x], m2 as [t y]; simpl. split.
  - intros H. apply andb_true_iff in H. destruct H as [H1 H2].
    apply Z.eqb_eq, symbol_index_inj in H1. apply surd_eqb_eq in H2. congruence.
  - intros H. inversion H; subst. rewrite Z.eqb_refl. now apply surd_eqb_eq.
Qed.

Lemma expr_eqb_eq (e1 e2 : Expr) : expr_eqb e1 e2 = true <-> e1 = e2.
Proof.
  revert e2. induction e1 as [|m1 t1 IH]; intros [|m2 t2]; simpl;
    try (split; [discriminate|discriminate]); try tauto.
  rewrite andb_true_iff, mono_eqb_eq, IH. split.
  - intros [-> ->]; reflexivity.
  - intros H; inversion H; auto.
Qed.

Lemma smul_comm (x y : Surd) : smul x y = smul y x.
Proof.
  unfold smul. rewrite (Z.mul_comm (sgn y)), (Qcmult_comm (sq y)), (Z.add_comm (piexp y)).
  reflexivity.
Qed.

Lemma smul_zero_l (y : Surd) : smul szero y = szero.
Proof. reflexivity. Qed.

Lemma smul_zero_r (x : Surd) : smul x szero = szero.
Proof. now rewrite smul_comm. Qed.

Ltac zeqb :=
  repeat match goal with
         | H : (_ =? _) = true |- _ => apply Z.eqb_eq in H
         | H : (_ =? _) = false |- _ => apply Z.eqb_neq in H
         end.

Lemma smul_assoc (x y z : Surd) : smul x (smul y z) = smul (smul x y) z.
Proof.
  destruct x as [sx qx ex], y as [sy qy ey], z as [sz qz ez].
  unfold smul; simpl.
  destruct (sy * sz =? 0) eqn:Eyz; destruct (sx * sy =? 0) eqn:Exy; simpl; zeqb.
  - rewrite Z.mul_0_r. reflexivity.
  - rewrite Z.mul_0_r. simpl.
    replace (sx * sy * sz) with (sx * (sy * sz)) by ring.
    rewrite Eyz, Z.mul_0_r. reflexivity.
  - rewrite Z.mul_assoc, Exy. reflexivity.
  - rewrite Z.mul_assoc.
    destruct (sx * sy * sz =? 0) eqn:E; [reflexivity|].
    apply surd_eq; simpl; [ring|ring|ring].
Qed.

Lemma sdiv_zero_l (y : Surd) : sdiv szero y = szero.
Proof. reflexivity. Qed.

#[local] Instance smul_Associative : Associative eq smul.
Proof. intros x y z. apply smul_assoc. Qed.

#[local] Instance smul_Commutative : Commutative eq smul.
Proof. intros x y. apply smul_comm. Qed.

(** The product [T1 * T2] of the source regrouped as in the formula. *)
Lemma contribution_regroup (p1 p2 q1 q2 c c2 s4 G1 G2 iR : Surd) :
  smul c c = c2 ->
  smul s4 s4 = four_pi ->
  smul p1 G1 = smul q1 G1 ->
  smul p2 G2 = smul q2 G2 ->
  smul (smul (smul (smul (smul p1 c) s4) G1) iR)
       (smul (smul (smul (smul p2 c) s4) G2) iR)
  = smul (smul (smul (smul (smul q1 q2) (smul G1 iR)) (smul G2 iR)) four_pi) c2.
Proof.
  intros Hc Hs H1 H2.
  transitivity (smul (smul (smul (smul (smul p1 G1) (smul p2 G2)) (smul c c))
                           (smul s4 s4)) (smul iR iR)).
  - aac_reflexivity.
  - rewrite Hc, Hs, H1, H2. aac_reflexivity.
Qed.

(** ** Gaunt coefficients outside the shell *)

Lemma gaunt_zero_m1 (l_1 l_2 l_3 m_1 m_2 m_3 : Z) :
  l_1 < Z.abs m_1 -> gaunt l_1 l_2 l_3 m_1 m_2 m_3 = szero.
Proof.
  intros H. unfold gaunt.
  replace (l_1 <? Z.abs m_1) with true by (symmetry; apply Z.ltb_lt; assumption).
  cbn [orb].
  repeat match goal with
         | |- (if ?c then _ else _) = _ => destruct c; try reflexivity
         end.
Qed.

Lemma gaunt_zero_m3 (l_1 l_2 l_3 m_1 m_2 m_3 : Z) :
  l_3 < Z.abs m_3 -> gaunt l_1 l_2 l_3 m_1 m_2 m_3 = szero.
Proof.
  intros H. unfold gaunt.
  replace (l_3 <? Z.abs m_3) with true by (symmetry; apply Z.ltb_lt; assumption).
  rewrite !orb_true_r.
  repeat match goal with
         | |- (if ?c then _ else _) = _ => destruct c; try reflexivity
         end.
Qed.

(** The sign factor of the source and the parity sign agree wherever the
    Gaunt coefficient does not vanish. *)
Lemma pre_sign_gaunt (l k m x y : Z) (odd_list : list Z) :
  (forall z, Z.abs z <= l -> in_list z odd_list = Z.odd z) ->
  smul (of_Z (if in_list m odd_list then -1 else 1)) (gaunt l k l (- m) x y)
  = smul (of_Z (parity_sign m)) (gaunt l k l (- m) x y).
Proof.
  intros Hodd. destruct (Z_le_gt_dec (Z.abs m) l) as [Hm|Hm].
  - unfold parity_sign. now rewrite Hodd.
  - rewrite gaunt_zero_m1 by lia. now rewrite !smul_zero_r.
Qed.

Lemma odd_list_3 z : Z.abs z <= 3 -> in_list z [-3; -1; 1; 3] = Z.odd z.
Proof.
  intros H.
  assert (C : z = -3 \/ z = -2 \/ z = -1 \/ z = 0 \/ z = 1 \/ z = 2 \/ z = 3) by lia.
  repeat (destruct C as [->|C]; [reflexivity|]). now subst.
Qed.

Lemma odd_list_2 z : Z.abs z <= 2 -> in_list z [-1; 1] = Z.odd z.
Proof.
  intros H.
  assert (C : z = -2 \/ z = -1 \/ z = 0 \/ z = 1 \/ z = 2) by lia.
  repeat (destruct C as [->|C]; [reflexivity|]). now subst.
Qed.

Lemma odd_list_1 z : Z.abs z <= 1 -> in_list z [-1; 1] = Z.odd z.
Proof. intros H. apply odd_list_2. lia. Qed.

Lemma sqrt_4pi_square : smul (ssqrt (Z2Qc 4) 1) (ssqrt (Z2Qc 4) 1) = four_pi.
Proof. apply surd_eqb_eq. reflexivity. Qed.

(** One row of the loop of [coulomb_contribution] against the formula. *)
Lemma contribution_row (l k : Z) (pre : Qc) (odd_list : list Z) (m1 m2 m3 m4 : Z) :
  (forall z, Z.abs z <= l -> in_list z odd_list = Z.odd z) ->
  smul (of_Qc pre) (of_Qc pre) = of_Qc (normalization_constant l k ^ 2)%Qc ->
  smul (sdiv (smul (smul (smul (of_Z (if in_list m1 odd_list then -1 else 1))
                               (of_Qc pre)) (ssqrt (Z2Qc 4) 1))
                   (gaunt l k l (- m1) (m1 - m4) m4))
             (ssqrt (Z2Qc (2 * k + 1)) 0))
       (sdiv (smul (smul (smul (of_Z (if in_list m3 odd_list then -1 else 1))
                               (of_Qc pre)) (ssqrt (Z2Qc 4) 1))
                   (gaunt l k l (- m3) (m3 - m2) m2))
             (ssqrt (Z2Qc (2 * k + 1)) 0))
  = multipole_scalar 2 l k m1 m2 m3 m4.
Proof.
  intros Hodd Hpre. unfold multipole_scalar, sdiv.
  apply contribution_regroup.
  - exact Hpre.
  - exact sqrt_4pi_square.
  - now apply pre_sign_gaunt.
  - now apply pre_sign_gaunt.
Qed.

Lemma coulomb_contribution_unfold (l m1 m2 m3 m4 : Z) :
  l = 1 \/ l = 2 \/ l = 3 ->
  coulomb_contribution m1 m2 m3 m4 l = coulomb_formula 2 l m1 m2 m3 m4.
Proof.
  intros [-> | [-> | ->]]; unfold coulomb_contribution, coulomb_formula, contributions.
  - change (multipole_orders 1) with [0; 2]. cbn [Z.eqb Pos.eqb map].
    rewrite (contribution_row 1 0 (Z2Qc 1) [-1; 1] m1 m2 m3 m4);
      [|exact odd_list_1|apply surd_eqb_eq; reflexivity].
    rewrite (contribution_row 1 2 (Z2Qc 5) [-1; 1] m1 m2 m3 m4);
      [|exact odd_list_1|apply surd_eqb_eq; reflexivity].
    reflexivity.
  - change (multipole_orders 2) with [0; 2; 4]. cbn [Z.eqb Pos.eqb map].
    rewrite (contribution_row 2 0 (Z2Qc 1) [-1; 1] m1 m2 m3 m4);
      [|exact odd_list_2|apply surd_eqb_eq; reflexivity].
    rewrite (contribution_row 2 2 (Z2Qc 7) [-1; 1] m1 m2 m3 m4);
      [|exact odd_list_2|apply surd_eqb_eq; reflexivity].
    rewrite (contribution_row 2 4 (Z2Qc 21) [-1; 1] m1 m2 m3 m4);
      [|exact odd_list_2|apply surd_eqb_eq; reflexivity].
    reflexivity.
  - change (multipole_orders 3) with [0; 2; 4; 6]. cbn [Z.eqb Pos.eqb map].
    rewrite (contribution_row 3 0 (Z2Qc 1) [-3; -1; 1; 3] m1 m2 m3 m4);
      [|exact odd_list_3|apply surd_eqb_eq; reflexivity].
    rewrite (contribution_row 3 2 (Z2Qc 15) [-3; -1; 1; 3] m1 m2 m3 m4);
      [|exact odd_list_3|apply surd_eqb_eq; reflexivity].
    rewrite (contribution_row 3 4 (Z2Qc 33) [-3; -1; 1; 3] m1 m2 m3 m4);
      [|exact odd_list_3|apply surd_eqb_eq; reflexivity].
    rewrite (contribution_row 3 6 (Rational 429 5) [-3; -1; 1; 3] m1 m2 m3 m4);
      [|exact odd_list_3|apply surd_eqb_eq; reflexivity].
    reflexivity.
Qed.

(** C3 (amended). For [l] in [{1, 2, 3}] and all integers [m1 .. m4] the
    value of [coulomb_contribution] is the sum over [k = 0, 2, .., 2l] of
    [fk * pre1 * pre2 * Gaunt(l,k,l;-m1,m1-m4,m4)/sqrt(2k+1)
     * Gaunt(l,k,l;-m3,m3-m2,m2)/sqrt(2k+1) * 4 pi * c_k^2]: the tabulated
    constant enters squared, once through each of [T1] and [T2]. *)
Theorem coulomb_contribution_formula (l m1 m2 m3 m4 : Z) :
  l = 1 \/ l = 2 \/ l = 3 ->
  coulomb_contribution m1 m2 m3 m4 l = coulomb_formula 2 l m1 m2 m3 m4.
Proof. apply coulomb_contribution_unfold. Qed.

Lemma coulomb_contribution_formula_witness :
  coulomb_contribution 1 0 0 1 2 = coulomb_formula 2 2 1 0 0 1.
Proof. apply (coulomb_contribution_formula 2 1 0 0 1). right; left; reflexivity. Defined.

(** C3 as stated, with [c_k] to the first power, fails: at [l = 1] and
    [m1 = m2 = m3 = m4 = 0] the source gives [f0 + 4 f2], the first-power
    formula [f0 + 4/5 f2]. *)
Lemma coulomb_formula_first_power_fails :
  coulomb_contribution 0 0 0 0 1 = lin02 1 4
  /\ coulomb_contribution 0 0 0 0 1 <> coulomb_formula 1 1 0 0 0 0.
Proof.
  split.
  - apply expr_eqb_eq. vm_compute. reflexivity.
  - intros H. apply expr_eqb_eq in H. vm_compute in H. discriminate H.
Qed.

(** ** Shape of the Coulomb integral *)

Lemma all_in_shell_spec (l : Z) (P : Z -> Z -> Z -> Z -> bool) :
  all_in_shell l P = true ->
  forall m1 m2 m3 m4,
    Z.abs m1 <= l -> Z.abs m2 <= l -> Z.abs m3 <= l -> Z.abs m4 <= l ->
    P m1 m2 m3 m4 = true.
Proof.
  unfold all_in_shell. intros H m1 m2 m3 m4 H1 H2 H3 H4.
  assert (R : forall m, Z.abs m <= l -> In m (range (- l) (l + 1)))
    by (intros m Hm; apply range_In; lia).
  rewrite forallb_forall in H. specialize (H m1 (R m1 H1)).
  rewrite forallb_forall in H. specialize (H m2 (R m2 H2)).
  rewrite forallb_forall in H. specialize (H m3 (R m3 H3)).
  rewrite forallb_forall in H. exact (H m4 (R m4 H4)).
Qed.

Lemma shape_check_1 : all_in_shell 1 (contribution_shape 1) = true.
Proof. vm_compute. reflexivity. Qed.

Lemma shape_check_2 : all_in_shell 2 (contribution_shape 2) = true.
Proof. vm_compute. reflexivity. Qed.

Lemma shape_check_3 : all_in_shell 3 (contribution_shape 3) = true.
Proof. vm_compute. reflexivity. Qed.

Lemma multipole_scalar_zero (e : nat) (l k m1 m2 m3 m4 : Z) :
  l < Z.abs m1 \/ l < Z.abs m2 \/ l < Z.abs m3 \/ l < Z.abs m4 ->
  multipole_scalar e l k m1 m2 m3 m4 = szero.
Proof.
  intros H. unfold multipole_scalar.
  destruct H as [H | [H | [H | H]]].
  - rewrite (gaunt_zero_m1 l k l (- m1)) by lia.
    now rewrite sdiv_zero_l, smul_zero_r, !smul_zero_l.
  - rewrite (gaunt_zero_m3 l k l (- m3) (m3 - m2) m2) by lia.
    now rewrite sdiv_zero_l, smul_zero_r, !smul_zero_l.
  - rewrite (gaunt_zero_m1 l k l (- m3)) by lia.
    now rewrite sdiv_zero_l, smul_zero_r, !smul_zero_l.
  - rewrite (gaunt_zero_m3 l k l (- m1) (m1 - m4) m4) by lia.
    now rewrite sdiv_zero_l, smul_zero_r, !smul_zero_l.
Qed.

(** Outside the shell every Gaunt coefficient vanishes and so does the
    integral. *)
Lemma coulomb_contribution_outside (l m1 m2 m3 m4 : Z) :
  0 <= l <= 3 ->
  l < Z.abs m1 \/ l < Z.abs m2 \/ l < Z.abs m3 \/ l < Z.abs m4 ->
  coulomb_contribution m1 m2 m3 m4 l = [].
Proof.
  intros Hl Hout.
  assert (C : l = 0 \/ l = 1 \/ l = 2 \/ l = 3) by lia.
  destruct C as [-> | C]; [reflexivity|].
  rewrite coulomb_contribution_unfold by assumption.
  unfold coulomb_formula.
  destruct C as [-> | [-> | ->]].
  - change (multipole_orders 1) with [0; 2]. cbn [map].
    now rewrite !multipole_scalar_zero by assumption.
  - change (multipole_orders 2) with [0; 2; 4]. cbn [map].
    now rewrite !multipole_scalar_zero by assumption.
  - change (multipole_orders 3) with [0; 2; 4; 6]. cbn [map].
    now rewrite !multipole_scalar_zero by assumption.
Qed.

Lemma contribution_shape_all (l m1 m2 m3 m4 : Z) :
  0 <= l <= 3 -> contribution_shape l m1 m2 m3 m4 = true.
Proof.
  intros Hl.
  destruct (Z_le_gt_dec (Z.abs m1) l) as [H1|H1];
    [destruct (Z_le_gt_dec (Z.abs m2) l) as [H2|H2];
     [destruct (Z_le_gt_dec (Z.abs m3) l) as [H3|H3];
      [destruct (Z_le_gt_dec (Z.abs m4) l) as [H4|H4]|]|]|].
  - assert (C : l = 0 \/ l = 1 \/ l = 2 \/ l = 3) by lia.
    destruct C as [-> | [-> | [-> | ->]]].
    + unfold contribution_shape. cbn [coulomb_contribution Z.eqb forallb andb].
      now destruct (_ || _).
    + now apply (all_in_shell_spec 1 _ shape_check_1).
    + now apply (all_in_shell_spec 2 _ shape_check_2).
    + now apply (all_in_shell_spec 3 _ shape_check_3).
  - unfold contribution_shape.
    rewrite coulomb_contribution_outside by (auto; lia). simpl. now destruct (_ || _).
  - unfold contribution_shape.
    rewrite coulomb_contribution_outside by (auto; lia). simpl. now destruct (_ || _).
  - unfold contribution_shape.
    rewrite coulomb_contribution_outside by (auto; lia). simpl. now destruct (_ || _).
  - unfold contribution_shape.
    rewrite coulomb_contribution_outside by (auto; lia). simpl. now destruct (_ || _).
Qed.

(** C4 (amended). For [l] in [{0, 1, 2, 3}] and every input the value of
    [coulomb_contribution] is an exact linear combination of the parameters
    [f0 .. f(2l)]; every coefficient is a non-zero signed square root of a
    positive rational, with no power of [pi] left; the coefficients are
    rational for the diagonal index patterns [(a, b, b, a)] and
    [(a, b, a, b)]; for [l = 0] the value is [0]. *)
Theorem coulomb_contribution_exact (l m1 m2 m3 m4 : Z) :
  0 <= l <= 3 ->
  (l = 0 -> coulomb_contribution m1 m2 m3 m4 l = [])
  /\ (forall fk x, In (fk, x) (coulomb_contribution m1 m2 m3 m4 l) ->
        symbol_index fk <= 2 * l
        /\ sgn x <> 0 /\ piexp x = 0 /\ 0 < Qnum (this (sq x)))
  /\ ((m1 = m4 /\ m2 = m3) \/ (m1 = m3 /\ m2 = m4) ->
      forall fk x, In (fk, x) (coulomb_contribution m1 m2 m3 m4 l) ->
        is_rational x = true).
Proof.
  intros Hl. pose proof (contribution_shape_all l m1 m2 m3 m4 Hl) as S.
  unfold contribution_shape in S. apply andb_true_iff in S. destruct S as [S1 S2].
  rewrite forallb_forall in S1.
  split; [intros ->; reflexivity|]. split.
  - intros fk x Hin. specialize (S1 _ Hin). unfold monomial_shape in S1.
    cbn [fst snd] in S1.
    apply andb_true_iff in S1. destruct S1 as [S1 Sd].
    apply andb_true_iff in S1. destruct S1 as [S1 Sc].
    apply andb_true_iff in S1. destruct S1 as [Sa Sb].
    apply negb_true_iff in Sb. zeqb.
    repeat split; lia.
  - intros Hd fk x Hin.
    replace (((m1 =? m4) && (m2 =? m3)) || ((m1 =? m3) && (m2 =? m4))) with true in S2.
    + rewrite forallb_forall in S2. apply (S2 _ Hin).
    + symmetry. destruct Hd as [[-> ->] | [-> ->]]; rewrite !Z.eqb_refl; simpl;
        [reflexivity|apply orb_true_r].
Qed.

Lemma coulomb_contribution_exact_witness :
  (2 = 0 -> coulomb_contribution 1 (-1) 2 0 2 = [])
  /\ (forall fk x, In (fk, x) (coulomb_contribution 1 (-1) 2 0 2) ->
        symbol_index fk <= 2 * 2
        /\ sgn x <> 0 /\ piexp x = 0 /\ 0 < Qnum (this (sq x)))
  /\ ((1 = 0 /\ -1 = 2) \/ (1 = 2 /\ -1 = 0) ->
      forall fk x, In (fk, x) (coulomb_contribution 1 (-1) 2 0 2) ->
        is_rational x = true).
Proof. apply (coulomb_contribution_exact 2 1 (-1) 2 0). lia. Defined.

(** C4 as stated fails.  The configurations [(-1 up, 2 down)] and
    [(0 up, 1 down)] of the [d] shell are connected by the direct term
    [(-1, 2, 0, 1)], for which the assembly evaluates
    [coulomb_contribution(2, -1, 0, 1, 2) = -sqrt(6) f2 + sqrt(150) f4]:
    neither coefficient is rational. *)
Lemma coulomb_contribution_irrational :
  get_required_coulomb_terms [(-1, Rational 1 2); (2, Rational (-1) 2)]
                             [(0, Rational 1 2); (1, Rational (-1) 2)]
  = Ok [(1, direct, (-1, 2, 0, 1))]
  /\ coulomb_contribution 2 (-1) 0 1 2
     = [(f2, mkSurd (-1) (Z2Qc 6) 0); (f4, mkSurd 1 (Z2Qc 150) 0)]
  /\ is_rational (mkSurd (-1) (Z2Qc 6) 0) = false
  /\ is_rational (mkSurd 1 (Z2Qc 150) 0) = false.
Proof.
  split; [vm_compute; reflexivity|].
  split; [apply expr_eqb_eq; vm_compute; reflexivity|].
  split; reflexivity.
Qed.

(** ** The [p^2] multiplet *)

Lemma row_eqb_eq (r1 r2 : list Expr) : row_eqb r1 r2 = true -> r1 = r2.
Proof.
  revert r2. induction r1 as [|e1 t1 IH]; intros [|e2 t2]; simpl;
    try discriminate; try reflexivity.
  intros H. apply andb_true_iff in H. destruct H as [H1 H2].
  apply expr_eqb_eq in H1. f_equal; auto.
Qed.

Lemma matrix_eqb_eq (H1 H2 : Matrix) : matrix_eqb H1 H2 = true -> H1 = H2.
Proof.
  revert H2. induction H1 as [|r1 t1 IH]; intros [|r2 t2]; simpl;
    try discriminate; try reflexivity.
  intros H. apply andb_true_iff in H. destruct H as [Ha Hb].
  apply row_eqb_eq in Ha. f_equal; auto.
Qed.

Lemma p2_enumeration :
  enumerate_fn_configurations 2 0 (Q2Qc 0) (get_single_states 1) = Ok p2_configs.
Proof. vm_compute. reflexivity. Qed.

Lemma p2_assembly : hamiltonian 1 p2_configs = Ok p2_hamiltonian.
Proof.
  assert (E : exists H, hamiltonian 1 p2_configs = Ok H
                        /\ matrix_eqb H p2_hamiltonian = true).
  { eexists. split; [vm_compute; reflexivity|vm_compute; reflexivity]. }
  destruct E as [H [E1 E2]]. apply matrix_eqb_eq in E2. congruence.
Qed.

(** C2. For the [p] shell with two electrons, [M_L = 0] and [M_S = 0], the
    tool enumerates the three configurations of the sector, and the
    assembled Hamiltonian has the eigenvalues [f0 + f2] (1D), [f0 - 5 f2]
    (3P) and [f0 + 10 f2] (1S): three distinct values whose differences are
    [6 f2], [9 f2] and [15 f2]. *)
Theorem p2_multiplet_energies :
  enumerate_fn_configurations 2 0 (Q2Qc 0) (get_single_states (orbital_l orb_p))
  = Ok p2_configs
  /\ hamiltonian (orbital_l orb_p) p2_configs = Ok p2_hamiltonian
  /\ is_eigenpair p2_hamiltonian (lin02 1 1) [Z2Qc 1; Z2Qc 2; Z2Qc 1] = true
  /\ is_eigenpair p2_hamiltonian (lin02 1 (-5)) [Z2Qc 1; Z2Qc 0; Z2Qc (-1)] = true
  /\ is_eigenpair p2_hamiltonian (lin02 1 10) [Z2Qc 1; Z2Qc (-1); Z2Qc 1] = true
  /\ esub (lin02 1 1) (lin02 1 (-5)) = lin02 0 6
  /\ esub (lin02 1 10) (lin02 1 1) = lin02 0 9
  /\ esub (lin02 1 10) (lin02 1 (-5)) = lin02 0 15
  /\ forall (EigVal : Type) (eigenvals : Matrix -> list (EigVal * nat)),
       get_hamiltonian eigenvals orb_p 2 0 (Q2Qc 0)
       = Ok ([Found 3] ++ config_lines p2_configs
             ++ [HamiltonianPretty p2_hamiltonian] ++ [EigenvaluesHeader]
             ++ map (fun em => EigenvalueLine (fst em) (snd em))
                    (eigenvals p2_hamiltonian)
             ++ [HamiltonianTxt p2_hamiltonian]).
Proof.
  split; [exact p2_enumeration|].
  split; [exact p2_assembly|].
  split; [vm_compute; reflexivity|].
  split; [vm_compute; reflexivity|].
  split; [vm_compute; reflexivity|].
  split; [apply expr_eqb_eq; vm_compute; reflexivity|].
  split; [apply expr_eqb_eq; vm_compute; reflexivity|].
  split; [apply expr_eqb_eq; vm_compute; reflexivity|].
  intros EigVal eigenvals. unfold get_hamiltonian.
  change (orbital_l orb_p) with 1.
  rewrite p2_enumeration. cbn [bind]. change (length p2_configs) with 3%nat.
  cbn [Nat.eqb]. rewrite p2_assembly. cbn [bind Nat.leb].
  rewrite <- !app_assoc. reflexivity.
Qed.

(** ** Positions in a list *)

Lemma index_Some l x i :
  index l x = Some i -> nth_error l i = Some x /\ (i < length l)%nat.
Proof.
  revert i. induction l as [|y t IH]; simpl; intros i H; [discriminate|].
  destruct (state_eq_dec y x) as [->|Hne].
  - inversion H; subst. simpl. split; [reflexivity|lia].
  - destruct (index t x) as [k|] eqn:E; simpl in H; [|discriminate].
    inversion H; subst. destruct (IH k eq_refl) as [H1 H2].
    simpl. split; [assumption|lia].
Qed.

Lemma index_In l x : In x l -> exists i, index l x = Some i.
Proof.
  induction l as [|y t IH]; simpl; intros H; [contradiction|].
  destruct (state_eq_dec y x) as [->|Hne]; [eauto|].
  destruct H as [H|H]; [congruence|].
  destruct (IH H) as [i Hi]. rewrite Hi. simpl. eauto.
Qed.

Lemma index_NoDup l : NoDup l -> forall i x,
  nth_error l i = Some x -> index l x = Some i.
Proof.
  induction 1 as [|y t Hy Ht IH]; intros i x Hi.
  - destruct i; discriminate.
  - destruct i as [|i]; simpl in *.
    + inversion Hi; subst. destruct (state_eq_dec x x); [reflexivity|congruence].
    + destruct (state_eq_dec y x) as [->|Hne].
      * exfalso. apply Hy. eapply nth_error_In; eauto.
      * rewrite (IH i x Hi). reflexivity.
Qed.

Lemma pos_spec l x : In x l -> nth_error l (pos l x) = Some x /\ (pos l x < length l)%nat.
Proof.
  intros H. unfold pos. destruct (index_In l x H) as [i Hi]. rewrite Hi.
  now apply index_Some.
Qed.

Lemma pos_NoDup l i x : NoDup l -> nth_error l i = Some x -> pos l x = i.
Proof. intros Hnd Hi. unfold pos. now rewrite (index_NoDup l Hnd i x Hi). Qed.

Lemma set_item_map (l : list State) : NoDup l -> forall i b (f : State -> State) d,
  nth_error l i = Some b ->
  set_item (map f l) i d
  = map (fun x => if state_eq_dec x b then d else f x) l.
Proof.
  induction 1 as [|y t Hy Ht IH]; intros i b f d Hi.
  - destruct i; discriminate.
  - destruct i as [|i]; simpl in *.
    + inversion Hi; subst.
      destruct (state_eq_dec b b); [|congruence]. f_equal.
      apply map_ext_in. intros x Hx.
      destruct (state_eq_dec x b); [subst; contradiction|reflexivity].
    + destruct (state_eq_dec y b) as [->|Hne].
      * exfalso. apply Hy. eapply nth_error_In; eauto.
      * f_equal. now apply IH.
Qed.

(** The two item assignments on [trial_state] are the substitution. *)
Lemma trial_state_map (c1 : list State) (a b c d : State) idx_a idx_b :
  NoDup c1 -> index c1 a = Some idx_a -> index c1 b = Some idx_b ->
  set_item (set_item c1 idx_a c) idx_b d = map (subst_state a b c d) c1.
Proof.
  intros Hnd Ha Hb.
  destruct (index_Some _ _ _ Ha) as [Na _]. destruct (index_Some _ _ _ Hb) as [Nb _].
  rewrite <- (map_id c1) at 1.
  rewrite (set_item_map c1 Hnd idx_a a (fun x => x) c Na).
  rewrite (set_item_map c1 Hnd idx_b b _ d Nb).
  reflexivity.
Qed.

(** ** Inversions of inverse permutations *)

Lemma filter_map_length {A B : Type} (f : A -> B) (P : B -> bool) (l : list A) :
  length (filter P (map f l)) = length (filter (fun x => P (f x)) l).
Proof.
  induction l as [|x t IH]; simpl; [reflexivity|].
  destruct (P (f x)); simpl; now rewrite IH.
Qed.

Lemma filter_length_perm {A : Type} (P : A -> bool) (l1 l2 : list A) :
  Permutation l1 l2 -> length (filter P l1) = length (filter P l2).
Proof.
  induction 1; simpl.
  - reflexivity.
  - destruct (P x); simpl; now rewrite IHPermutation.
  - destruct (P x), (P y); reflexivity.
  - congruence.
Qed.

Lemma list_prod_NoDup {A B : Type} (l : list A) (l' : list B) :
  NoDup l -> NoDup l' -> NoDup (list_prod l l').
Proof.
  intros Hl Hl'. induction Hl as [|x t Hx Ht IH]; simpl; [constructor|].
  apply NoDup_app.
  - apply Finite.Injective_map_NoDup; [|assumption].
    intros y y' E. now inversion E.
  - assumption.
  - intros [u v] H1 H2. apply in_map_iff in H1. destruct H1 as [y [E _]].
    inversion E; subst. apply in_prod_iff in H2. tauto.
Qed.

Lemma inversions_inverse (p p' : list nat) :
  length p' = length p ->
  (forall j, (j < length p)%nat ->
     (nth j p O < length p)%nat /\ nth (nth j p O) p' O = j) ->
  inversions p' = inversions p.
Proof.
  intros Hlen Hinv. unfold inversions. rewrite Hlen.
  set (n := length p) in *.
  set (L := list_prod (seq 0 n) (seq 0 n)).
  set (g := fun ij : nat * nat => (nth (snd ij) p O, nth (fst ij) p O)).
  assert (HL : forall i j, In (i, j) L <-> (i < n)%nat /\ (j < n)%nat).
  { intros i j. unfold L. rewrite in_prod_iff, !in_seq. lia. }
  assert (Hinj : forall i j, (i < n)%nat -> (j < n)%nat ->
                             nth i p O = nth j p O -> i = j).
  { intros i j Hi Hj E. destruct (Hinv i Hi) as [_ Ei], (Hinv j Hj) as [_ Ej].
    rewrite <- Ei, <- Ej, E. reflexivity. }
  assert (HP : Permutation (map g L) L).
  { apply Permutation_map_same_l.
    - apply Finite.Injective_map_NoDup_in.
      + intros [i j] [i' j'] H1 H2 E. apply HL in H1, H2. unfold g in E; simpl in E.
        inversion E. f_equal; apply Hinj; tauto.
      + unfold L. apply list_prod_NoDup; apply seq_NoDup.
    - intros [u v] H. apply in_map_iff in H. destruct H as [[i j] [E H]].
      apply HL in H. unfold g in E; simpl in E. inversion E; subst.
      apply HL. split; apply Hinv; tauto. }
  rewrite <- (filter_length_perm _ _ _ HP), filter_map_length.
  f_equal. apply filter_ext_in. intros [i j] H. apply HL in H.
  unfold is_inversion, g; simpl.
  destruct (Hinv i (proj1 H)) as [_ Ei], (Hinv j (proj2 H)) as [_ Ej].
  rewrite Ei, Ej. apply andb_comm.
Qed.

Lemma nodupb_NoDup (p : list nat) : NoDup p -> nodupb p = true.
Proof.
  induction 1 as [|x t Hx Ht IH]; simpl; [reflexivity|].
  rewrite IH, andb_true_r. apply negb_true_iff.
  destruct (existsb (Nat.eqb x) t) eqn:E; [|reflexivity].
  apply existsb_exists in E. destruct E as [y [Hy Exy]].
  apply Nat.eqb_eq in Exy. subst. contradiction.
Qed.

(** ** Two configurations that differ by two states *)

Lemma swap_pair_sym c1 c2 a b c d :
  swap_pair c1 c2 a b c d -> swap_pair c2 c1 c d a b.
Proof. unfold swap_pair. intuition. Qed.

Lemma swap_pair_flip c1 c2 a b c d :
  swap_pair c1 c2 a b c d -> swap_pair c1 c2 b a d c.
Proof. unfold swap_pair. intuition. Qed.

Lemma swap_pair_cross c1 c2 a b c d :
  swap_pair c1 c2 a b c d -> swap_pair c1 c2 a b d c.
Proof. unfold swap_pair. intuition. Qed.

Lemma cnt_le_1 l x : NoDup l -> (cnt l x <= 1)%nat.
Proof. intros H. now apply (NoDup_count_occ state_eq_dec). Qed.

Lemma cnt_pos_In l x : (0 < cnt l x)%nat <-> In x l.
Proof. symmetry. apply (count_occ_In state_eq_dec). Qed.

Lemma cnt_pair (r0 r1 x : State) :
  cnt [r0; r1] x
  = ((if state_eq_dec r0 x then 1 else 0) + (if state_eq_dec r1 x then 1 else 0))%nat.
Proof. simpl. destruct (state_eq_dec r0 x), (state_eq_dec r1 x); reflexivity. Qed.

Lemma removed_swap_pair c1 c2 r0 r1 a0 a1 :
  NoDup c1 -> NoDup c2 -> length c1 = length c2 ->
  removed_states c1 c2 = [r0; r1] -> removed_states c2 c1 = [a0; a1] ->
  swap_pair c1 c2 r0 r1 a0 a1.
Proof.
  intros N1 N2 Hlen ER EA.
  assert (CR : forall x, cnt [r0; r1] x = (cnt c1 x - cnt c2 x)%nat)
    by (intros x; rewrite <- ER; apply cnt_removed).
  assert (CA : forall x, cnt [a0; a1] x = (cnt c2 x - cnt c1 x)%nat)
    by (intros x; rewrite <- EA; apply cnt_removed).
  assert (L1 := fun x => cnt_le_1 c1 x N1).
  assert (L2 := fun x => cnt_le_1 c2 x N2).
  assert (I1 := fun x => cnt_pos_In c1 x).
  assert (I2 := fun x => cnt_pos_In c2 x).
  unfold swap_pair.
  repeat match goal with |- _ /\ _ => split end; try assumption.
  - apply I1. specialize (CR r0). rewrite cnt_pair in CR.
    destruct (state_eq_dec r0 r0); [lia|congruence].
  - apply I1. specialize (CR r1). rewrite cnt_pair in CR.
    destruct (state_eq_dec r1 r1); [|congruence].
    destruct (state_eq_dec r0 r1); lia.
  - intros E. subst r1. specialize (CR r0). rewrite cnt_pair in CR.
    specialize (L1 r0). destruct (state_eq_dec r0 r0); [lia|congruence].
  - intros Hin. apply I2 in Hin. specialize (CR r0). rewrite cnt_pair in CR.
    specialize (L1 r0). destruct (state_eq_dec r0 r0); [lia|congruence].
  - intros Hin. apply I2 in Hin. specialize (CR r1). rewrite cnt_pair in CR.
    specialize (L1 r1). destruct (state_eq_dec r1 r1); [|congruence].
    destruct (state_eq_dec r0 r1); lia.
  - apply I2. specialize (CA a0). rewrite cnt_pair in CA.
    destruct (state_eq_dec a0 a0); [lia|congruence].
  - apply I2. specialize (CA a1). rewrite cnt_pair in CA.
    destruct (state_eq_dec a1 a1); [|congruence].
    destruct (state_eq_dec a0 a1); lia.
  - intros E. subst a1. specialize (CA a0). rewrite cnt_pair in CA.
    specialize (L2 a0). destruct (state_eq_dec a0 a0); [lia|congruence].
  - intros Hin. apply I1 in Hin. specialize (CA a0). rewrite cnt_pair in CA.
    specialize (L2 a0). destruct (state_eq_dec a0 a0); [lia|congruence].
  - intros Hin. apply I1 in Hin. specialize (CA a1). rewrite cnt_pair in CA.
    specialize (L2 a1). destruct (state_eq_dec a1 a1); [|congruence].
    destruct (state_eq_dec a0 a1); lia.
  - intros x Hin Hx0 Hx1. apply I1 in Hin. apply I2.
    specialize (CR x). rewrite cnt_pair in CR.
    destruct (state_eq_dec r0 x); [congruence|].
    destruct (state_eq_dec r1 x); [congruence|]. lia.
  - intros y Hin Hy0 Hy1. apply I2 in Hin. apply I1.
    specialize (CA y). rewrite cnt_pair in CA.
    destruct (state_eq_dec a0 y); [congruence|].
    destruct (state_eq_dec a1 y); [congruence|]. lia.
Qed.

Lemma subst_state_b a b c d : subst_state a b c d b = d.
Proof. unfold subst_state. destruct (state_eq_dec b b); congruence. Qed.

Lemma subst_state_a a b c d : a <> b -> subst_state a b c d a = c.
Proof.
  intros H. unfold subst_state.
  destruct (state_eq_dec a b); [congruence|].
  destruct (state_eq_dec a a); congruence.
Qed.

Lemma subst_state_other a b c d x : x <> a -> x <> b -> subst_state a b c d x = x.
Proof.
  intros Ha Hb. unfold subst_state.
  destruct (state_eq_dec x b); [congruence|].
  destruct (state_eq_dec x a); congruence.
Qed.

Lemma subst_state_cases a b c d x :
  (x = b /\ subst_state a b c d x = d)
  \/ (x = a /\ x <> b /\ subst_state a b c d x = c)
  \/ (x <> a /\ x <> b /\ subst_state a b c d x = x).
Proof.
  unfold subst_state.
  destruct (state_eq_dec x b); [auto|].
  destruct (state_eq_dec x a); auto.
Qed.

Lemma subst_state_flip a b c d x :
  a <> b -> subst_state a b c d x = subst_state b a d c x.
Proof.
  intros H. unfold subst_state.
  destruct (state_eq_dec x b), (state_eq_dec x a); congruence.
Qed.

Lemma subst_state_inverse c1 c2 a b c d x :
  swap_pair c1 c2 a b c d -> In x c1 ->
  subst_state c d a b (subst_state a b c d x) = x.
Proof.
  unfold swap_pair. intros S Hx.
  destruct (subst_state_cases a b c d x) as [[-> ->] | [[-> [Hab ->]] | [Ha [Hb ->]]]].
  - apply subst_state_b.
  - apply subst_state_a. tauto.
  - apply subst_state_other; intros ->; tauto.
Qed.

Lemma subst_state_target c1 c2 a b c d x :
  swap_pair c1 c2 a b c d -> In x c1 -> In (subst_state a b c d x) c2.
Proof.
  unfold swap_pair. intros S Hx.
  destruct (subst_state_cases a b c d x) as [[-> ->] | [[-> [Hab ->]] | [Ha [Hb ->]]]];
    intuition.
Qed.

Lemma trial_state_NoDup c1 c2 a b c d :
  swap_pair c1 c2 a b c d -> NoDup (map (subst_state a b c d) c1).
Proof.
  intros S. apply Finite.Injective_map_NoDup_in; [|unfold swap_pair in S; tauto].
  intros x y Hx Hy E.
  rewrite <- (subst_state_inverse c1 c2 a b c d x S Hx).
  rewrite <- (subst_state_inverse c1 c2 a b c d y S Hy).
  now rewrite E.
Qed.

Lemma trial_state_perm c1 c2 a b c d :
  swap_pair c1 c2 a b c d -> Permutation (map (subst_state a b c d) c1) c2.
Proof.
  intros S. apply NoDup_Permutation_bis.
  - now apply (trial_state_NoDup c1 c2).
  - rewrite length_map. unfold swap_pair in S. lia.
  - intros y Hy. apply in_map_iff in Hy. destruct Hy as [x [<- Hx]].
    now apply (subst_state_target c1 c2).
Qed.

(** ** Evaluation of one assignment *)

Lemma mapM_index (t l2 : list State) :
  (forall x, In x l2 -> In x t) ->
  mapM (fun x => match index t x with
                 | Some i => Ok i
                 | None => Raise ValueError
                 end) l2
  = Ok (map (pos t) l2).
Proof.
  induction l2 as [|x l2 IH]; intros H; simpl; [reflexivity|].
  unfold pos at 1. destruct (index_In t x) as [i Hi]; [apply H; now left|].
  rewrite Hi. simpl. rewrite IH by (intros; apply H; now right). reflexivity.
Qed.

Lemma positions_array_form (t l2 : list State) :
  NoDup l2 -> length t = length l2 -> (forall x, In x l2 -> In x t) ->
  is_array_form (map (pos t) l2) = true.
Proof.
  intros N2 Hlen Hin. unfold is_array_form. apply andb_true_iff. split.
  - apply nodupb_NoDup. apply Finite.Injective_map_NoDup_in; [|assumption].
    intros x y Hx Hy E.
    destruct (pos_spec t x (Hin x Hx)) as [Ex _].
    destruct (pos_spec t y (Hin y Hy)) as [Ey _].
    rewrite E in Ex. congruence.
  - apply forallb_forall. intros i Hi. apply in_map_iff in Hi.
    destruct Hi as [x [<- Hx]]. apply Nat.ltb_lt. rewrite length_map, <- Hlen.
    apply pos_spec. now apply Hin.
Qed.

Lemma try_assignment_eval c1 c2 a b c d :
  swap_pair c1 c2 a b c d ->
  try_assignment c1 c2 a b c d
  = Ok (if spin_match a b c d
        then Some (assignment_terms (pair_sign c1 c2 a b c d) a b c d)
        else None).
Proof.
  intros S. unfold try_assignment, spin_match.
  destruct (Qc_eq_bool (snd a) (snd c) && Qc_eq_bool (snd b) (snd d)); [|reflexivity].
  assert (S' := S). unfold swap_pair in S'.
  destruct S' as (N1 & N2 & Hlen & Ha & Hb & Hab & _).
  destruct (index_In c1 a Ha) as [idx_a Ia]. destruct (index_In c1 b Hb) as [idx_b Ib].
  rewrite Ia, Ib. rewrite (trial_state_map c1 a b c d idx_a idx_b N1 Ia Ib).
  pose proof (trial_state_perm c1 c2 a b c d S) as P.
  rewrite (counter_eqb_true _ _ P). cbn [negb].
  assert (Hin : forall x, In x c2 -> In x (map (subst_state a b c d) c1))
    by (intros x Hx; apply (Permutation_in x (Permutation_sym P) Hx)).
  rewrite (mapM_index _ c2 Hin). cbn [bind].
  unfold signature. rewrite positions_array_form; [|assumption| |assumption].
  - reflexivity.
  - now rewrite length_map.
Qed.

(** ** The sign of an assignment and of its inverse *)

Lemma nth_map_error {A : Type} (f : A -> nat) (l : list A) (j : nat) (y : A) :
  nth_error l j = Some y -> nth j (map f l) O = f y.
Proof.
  intros H. apply nth_error_nth. rewrite nth_error_map, H. reflexivity.
Qed.

Lemma pair_sign_sym c1 c2 a b c d :
  swap_pair c1 c2 a b c d ->
  pair_sign c2 c1 c d a b = pair_sign c1 c2 a b c d.
Proof.
  intros S. unfold pair_sign.
  enough (E : inversions (map (pos (map (subst_state c d a b) c2)) c1)
              = inversions (map (pos (map (subst_state a b c d) c1)) c2))
    by (now rewrite E).
  assert (S2 := swap_pair_sym _ _ _ _ _ _ S).
  pose proof (trial_state_perm c1 c2 a b c d S) as P.
  pose proof (trial_state_NoDup c2 c1 c d a b S2) as N'.
  assert (Hlen : length c1 = length c2) by (unfold swap_pair in S; tauto).
  apply inversions_inverse.
  - rewrite !length_map. assumption.
  - rewrite length_map. intros j Hj.
    destruct (nth_error c2 j) as [y|] eqn:Ey;
      [|apply nth_error_None in Ey; lia].
    rewrite (nth_map_error _ c2 j y Ey).
    assert (Hy : In y (map (subst_state a b c d) c1)).
    { apply (Permutation_in y (Permutation_sym P)). eapply nth_error_In; eauto. }
    destruct (pos_spec _ y Hy) as [Ei Li]. rewrite length_map in Li.
    split; [lia|].
    rewrite nth_error_map in Ei.
    destruct (nth_error c1 (pos (map (subst_state a b c d) c1) y)) as [x|] eqn:Ex;
      [|discriminate].
    assert (Exy : subst_state a b c d x = y) by (simpl in Ei; congruence).
    rewrite (nth_map_error _ c1 _ x Ex).
    apply pos_NoDup; [assumption|].
    rewrite nth_error_map, Ey. simpl. f_equal.
    rewrite <- Exy. apply (subst_state_inverse c1 c2); [assumption|].
    eapply nth_error_In; eauto.
Qed.

Lemma pair_sign_flip c1 c2 a b c d :
  a <> b -> pair_sign c1 c2 b a d c = pair_sign c1 c2 a b c d.
Proof.
  intros H. unfold pair_sign.
  replace (map (subst_state b a d c) c1) with (map (subst_state a b c d) c1);
    [reflexivity|].
  apply map_ext. intros x. now apply subst_state_flip.
Qed.

(** ** Symmetries of the Coulomb integral *)

Lemma contributions_swap (l m1 m2 m3 m4 p1 p2 : Z) (table : list (Z * Symbol * Qc)) :
  contributions l m1 m2 m3 m4 p1 p2 table = contributions l m3 m4 m1 m2 p2 p1 table.
Proof.
  unfold contributions. apply map_ext. intros [[k fk] pre].
  f_equal. apply smul_comm.
Qed.

(** Exchange of the two factors [T1] and [T2]. *)
Lemma coulomb_contribution_swap (l m1 m2 m3 m4 : Z) :
  coulomb_contribution m1 m2 m3 m4 l = coulomb_contribution m3 m4 m1 m2 l.
Proof.
  unfold coulomb_contribution.
  destruct (l =? 3); [now rewrite contributions_swap|].
  destruct (l =? 2); [now rewrite contributions_swap|].
  destruct (l =? 1); [now rewrite contributions_swap|].
  reflexivity.
Qed.

Lemma gaunt_check_1 : gaunt_symmetric_check 1 = true.
Proof. vm_compute. reflexivity. Qed.

Lemma gaunt_check_2 : gaunt_symmetric_check 2 = true.
Proof. vm_compute. reflexivity. Qed.

Lemma gaunt_check_3 : gaunt_symmetric_check 3 = true.
Proof. vm_compute. reflexivity. Qed.

Lemma gaunt_symmetric (l k m m' : Z) :
  l = 1 \/ l = 2 \/ l = 3 -> In k (multipole_orders l) ->
  gaunt l k l (- m) (m - m') m' = gaunt l k l (- m') (m' - m) m.
Proof.
  intros Hl Hk.
  destruct (Z_le_gt_dec (Z.abs m) l) as [H1|H1];
    [destruct (Z_le_gt_dec (Z.abs m') l) as [H2|H2]|].
  - assert (C : gaunt_symmetric_check l = true)
      by (destruct Hl as [-> | [-> | ->]];
          [exact gaunt_check_1|exact gaunt_check_2|exact gaunt_check_3]).
    unfold gaunt_symmetric_check in C.
    assert (R : forall z, Z.abs z <= l -> In z (range (- l) (l + 1)))
      by (intros z Hz; apply range_In; lia).
    rewrite forallb_forall in C. specialize (C k Hk).
    rewrite forallb_forall in C. specialize (C m (R m H1)).
    rewrite forallb_forall in C. specialize (C m' (R m' H2)).
    now apply surd_eqb_eq.
  - rewrite (gaunt_zero_m3 l k l (- m) (m - m') m') by lia.
    rewrite (gaunt_zero_m1 l k l (- m')) by lia. reflexivity.
  - rewrite (gaunt_zero_m1 l k l (- m)) by lia.
    rewrite (gaunt_zero_m3 l k l (- m') (m' - m) m) by lia. reflexivity.
Qed.

Lemma parity_sign_product (m1 m2 m3 m4 : Z) :
  m1 + m2 = m3 + m4 ->
  smul (of_Z (parity_sign m1)) (of_Z (parity_sign m3))
  = smul (of_Z (parity_sign m4)) (of_Z (parity_sign m2)).
Proof.
  intros H. unfold parity_sign.
  assert (E : xorb (Z.odd m1) (Z.odd m3) = xorb (Z.odd m4) (Z.odd m2)).
  { rewrite <- !Z.odd_add. replace (m1 + m3) with (m4 + m2 + 2 * (m1 - m4)) by lia.
    rewrite Z.odd_add_mul_2. reflexivity. }
  destruct (Z.odd m1), (Z.odd m2), (Z.odd m3), (Z.odd m4);
    try discriminate E; apply surd_eqb_eq; reflexivity.
Qed.

Lemma multipole_scalar_reverse (e : nat) (l k m1 m2 m3 m4 : Z) :
  l = 1 \/ l = 2 \/ l = 3 -> In k (multipole_orders l) ->
  m1 + m2 = m3 + m4 ->
  multipole_scalar e l k m1 m2 m3 m4 = multipole_scalar e l k m4 m3 m2 m1.
Proof.
  intros Hl Hk Hm. unfold multipole_scalar.
  rewrite (parity_sign_product m1 m2 m3 m4 Hm).
  rewrite (gaunt_symmetric l k m1 m4 Hl Hk), (gaunt_symmetric l k m3 m2 Hl Hk).
  reflexivity.
Qed.

(** Reversal of the four indices at a conserved total [m1 + m2 = m3 + m4]. *)
Lemma coulomb_contribution_reverse (l m1 m2 m3 m4 : Z) :
  0 <= l <= 3 -> m1 + m2 = m3 + m4 ->
  coulomb_contribution m1 m2 m3 m4 l = coulomb_contribution m4 m3 m2 m1 l.
Proof.
  intros Hl Hm.
  assert (C : l = 0 \/ l = 1 \/ l = 2 \/ l = 3) by lia.
  destruct C as [-> | C]; [reflexivity|].
  rewrite !coulomb_contribution_unfold by assumption.
  unfold coulomb_formula. f_equal. apply map_ext_in. intros k Hk.
  f_equal. now apply multipole_scalar_reverse.
Qed.

(** ** Symmetry of a matrix element *)

Lemma Qc_eq_bool_sym (x y : Qc) : Qc_eq_bool x y = Qc_eq_bool y x.
Proof.
  unfold Qc_eq_bool. destruct (Qc_eq_dec x y), (Qc_eq_dec y x); congruence.
Qed.

Lemma spin_match_sym a b c d : spin_match c d a b = spin_match a b c d.
Proof.
  unfold spin_match. now rewrite (Qc_eq_bool_sym (snd c)), (Qc_eq_bool_sym (snd d)).
Qed.

Lemma spin_match_flip a b c d : spin_match b a d c = spin_match a b c d.
Proof. unfold spin_match. apply andb_comm. Qed.

Lemma spin_match_exchange a b c d :
  spin_match a b c d = true ->
  Qc_eq_bool (snd c) (snd d) = Qc_eq_bool (snd a) (snd b).
Proof.
  unfold spin_match. intros H. apply andb_true_iff in H. destruct H as [H1 H2].
  apply Qc_eq_bool_correct in H1, H2. now rewrite H1, H2.
Qed.

(** The inverse assignment [c -> a], [d -> b] contributes the same. *)
Lemma assignment_contribution_sym (l : Z) c1 c2 a b c d :
  0 <= l <= 3 -> swap_pair c1 c2 a b c d -> spin_match a b c d = true ->
  fst a + fst b = fst c + fst d ->
  total_contribution l (assignment_terms (pair_sign c2 c1 c d a b) c d a b)
  = total_contribution l (assignment_terms (pair_sign c1 c2 a b c d) a b c d).
Proof.
  intros Hl S Hs Hm. rewrite (pair_sign_sym c1 c2 a b c d S).
  unfold assignment_terms. rewrite (spin_match_exchange a b c d Hs).
  unfold total_contribution.
  destruct (Qc_eq_bool (snd a) (snd b)); cbn [fold_left].
  - rewrite (coulomb_contribution_reverse l (fst d) (fst c) (fst a) (fst b)) by lia.
    rewrite (coulomb_contribution_swap l (fst d) (fst c) (fst b) (fst a)).
    reflexivity.
  - rewrite (coulomb_contribution_reverse l (fst d) (fst c) (fst a) (fst b)) by lia.
    reflexivity.
Qed.

(** The inverse assignment listed with both pairs exchanged. *)
Lemma assignment_contribution_sym_flip (l : Z) c1 c2 a b c d :
  0 <= l <= 3 -> swap_pair c1 c2 a b c d -> spin_match a b c d = true ->
  fst a + fst b = fst c + fst d ->
  total_contribution l (assignment_terms (pair_sign c2 c1 d c b a) d c b a)
  = total_contribution l (assignment_terms (pair_sign c1 c2 a b c d) a b c d).
Proof.
  intros Hl S Hs Hm.
  assert (Hcd : c <> d) by (unfold swap_pair in S; tauto).
  rewrite (pair_sign_flip c2 c1 c d a b Hcd), (pair_sign_sym c1 c2 a b c d S).
  unfold assignment_terms.
  rewrite (Qc_eq_bool_sym (snd d)), (spin_match_exchange a b c d Hs).
  unfold total_contribution.
  destruct (Qc_eq_bool (snd a) (snd b)); cbn [fold_left].
  - rewrite (coulomb_contribution_swap l (fst c) (fst d) (fst b) (fst a)).
    rewrite (coulomb_contribution_reverse l (fst c) (fst d) (fst a) (fst b)) by lia.
    reflexivity.
  - rewrite (coulomb_contribution_swap l (fst c) (fst d) (fst b) (fst a)).
    reflexivity.
Qed.

Lemma permutations2_pair {A : Type} (x y : A) : permutations2 [x; y] = [(x, y); (y, x)].
Proof. reflexivity. Qed.

(** The search of Case B on a pair that differs by two states. *)
Lemma first_assignment_two c1 c2 r0 r1 a0 a1 :
  swap_pair c1 c2 r0 r1 a0 a1 ->
  first_assignment c1 c2
    (flat_map (fun ab => map (fun cd => (ab, cd)) (permutations2 [a0; a1]))
              (permutations2 [r0; r1]))
  = Ok (if spin_match r0 r1 a0 a1
        then assignment_terms (pair_sign c1 c2 r0 r1 a0 a1) r0 r1 a0 a1
        else if spin_match r0 r1 a1 a0
             then assignment_terms (pair_sign c1 c2 r0 r1 a1 a0) r0 r1 a1 a0
             else []).
Proof.
  intros S. rewrite !permutations2_pair. cbn [flat_map map app first_assignment].
  rewrite (try_assignment_eval c1 c2 r0 r1 a0 a1 S). cbn [bind].
  destruct (spin_match r0 r1 a0 a1) eqn:E1; [reflexivity|].
  rewrite (try_assignment_eval c1 c2 r0 r1 a1 a0 (swap_pair_cross _ _ _ _ _ _ S)).
  cbn [bind].
  destruct (spin_match r0 r1 a1 a0) eqn:E2; [reflexivity|].
  rewrite (try_assignment_eval c1 c2 r1 r0 a0 a1
             (swap_pair_flip _ _ _ _ _ _ (swap_pair_cross _ _ _ _ _ _ S))).
  cbn [bind]. rewrite (spin_match_flip r0 r1 a1 a0), E2.
  rewrite (try_assignment_eval c1 c2 r1 r0 a1 a0 (swap_pair_flip _ _ _ _ _ _ S)).
  cbn [bind]. rewrite (spin_match_flip r0 r1 a0 a1), E1.
  reflexivity.
Qed.

Lemma matrix_entry_sym (l : Z) (c1 c2 : list State) :
  0 <= l <= 3 -> NoDup c1 -> NoDup c2 -> length c1 = length c2 ->
  sum_ml c1 = sum_ml c2 -> sum_ms c1 = sum_ms c2 ->
  exists e, matrix_entry l c1 c2 = Ok e /\ matrix_entry l c2 c1 = Ok e.
Proof.
  intros Hl N1 N2 Hlen Sl Ss. unfold matrix_entry.
  destruct (list_eq_dec state_eq_dec c1 c2) as [->|Hne].
  - rewrite get_required_coulomb_terms_diag. cbn [bind]. eauto.
  - rewrite (get_required_coulomb_terms_offdiag c1 c2 Hne).
    rewrite (get_required_coulomb_terms_offdiag c2 c1) by congruence.
    rewrite (orb_comm (negb (Nat.eqb (length (removed_states c2 c1)) 2))).
    destruct (negb (Nat.eqb (length (removed_states c1 c2)) 2)
              || negb (Nat.eqb (length (removed_states c2 c1)) 2)) eqn:E.
    + cbn [bind]. eauto.
    + apply orb_false_iff in E. destruct E as [E1 E2].
      apply negb_false_iff, Nat.eqb_eq in E1, E2.
      destruct (removed_added_sums c1 c2 Sl Ss) as [Rl _].
      destruct (removed_states c1 c2) as [|r0 [|r1 [|? ?]]] eqn:ER; try discriminate.
      destruct (removed_states c2 c1) as [|a0 [|a1 [|? ?]]] eqn:EA; try discriminate.
      assert (Hm : fst r0 + fst r1 = fst a0 + fst a1).
      { rewrite !sum_ml_cons in Rl. unfold sum_ml in Rl. simpl in Rl. lia. }
      pose proof (removed_swap_pair c1 c2 r0 r1 a0 a1 N1 N2 Hlen ER EA) as S.
      rewrite (first_assignment_two c1 c2 r0 r1 a0 a1 S).
      rewrite (first_assignment_two c2 c1 a0 a1 r0 r1 (swap_pair_sym _ _ _ _ _ _ S)).
      cbn [bind].
      rewrite (spin_match_sym r0 r1 a0 a1).
      replace (spin_match a0 a1 r1 r0) with (spin_match r0 r1 a1 a0)
        by (now rewrite <- (spin_match_flip a0 a1 r1 r0), spin_match_sym).
      destruct (spin_match r0 r1 a0 a1) eqn:M1.
      * rewrite (assignment_contribution_sym l c1 c2 r0 r1 a0 a1) by assumption.
        eauto.
      * destruct (spin_match r0 r1 a1 a0) eqn:M2; [|eauto].
        rewrite (assignment_contribution_sym_flip l c1 c2 r0 r1 a1 a0);
          [eauto|assumption|now apply swap_pair_cross|assumption|lia].
Qed.

(** ** The assembled matrix *)

Lemma entry_nth (H : Matrix) (i j : nat) (row : list Expr) (e : Expr) :
  nth_error H i = Some row -> nth_error row j = Some e -> entry H i j = e.
Proof.
  intros Hi Hj. unfold entry.
  rewrite (nth_error_nth H i [] Hi). now apply nth_error_nth.
Qed.

Lemma hamiltonian_entry (l : Z) (configs : list (list State)) (H : Matrix) i j ci cj :
  hamiltonian l configs = Ok H ->
  nth_error configs i = Some ci -> nth_error configs j = Some cj ->
  matrix_entry l ci cj = Ok (entry H i j).
Proof.
  intros EH Hi Hj. unfold hamiltonian in EH.
  destruct (mapM_ok_nth _ _ _ EH i ci Hi) as [row [Hrow Erow]].
  destruct (mapM_ok_nth _ _ _ Erow j cj Hj) as [e [He Ee]].
  now rewrite (entry_nth H i j row e Hrow He).
Qed.

Lemma hamiltonian_rows (l : Z) (configs : list (list State)) (H : Matrix) :
  hamiltonian l configs = Ok H ->
  length H = length configs
  /\ forall row, In row H -> length row = length configs.
Proof.
  intros EH. unfold hamiltonian in EH.
  pose proof (mapM_ok_length _ _ _ EH) as L. split; [assumption|].
  intros row Hrow. apply In_nth_error in Hrow. destruct Hrow as [i Hi].
  assert (Li : (i < length configs)%nat)
    by (rewrite <- L; apply nth_error_Some; congruence).
  destruct (nth_error configs i) as [ci|] eqn:Eci;
    [|apply nth_error_None in Eci; lia].
  destruct (mapM_ok_nth _ _ _ EH i ci Eci) as [row' [Hrow' Erow]].
  assert (row' = row) by congruence. subst row'.
  now apply mapM_ok_length in Erow.
Qed.

Lemma enumerate_same_sector (l n target_m_l : Z) (target_m_s : Qc) configs :
  enumerate_fn_configurations n target_m_l target_m_s (get_single_states l)
  = Ok configs ->
  same_sector configs.
Proof.
  intros E c1 c2 H1 H2. destruct (enumerate_inv _ _ _ _ _ E) as [Hn Hall].
  destruct (Hall c1 H1) as [Hc1 [Hl1 Hs1]]. destruct (Hall c2 H2) as [Hc2 [Hl2 Hs2]].
  split; [eapply combs_NoDup; eauto using get_single_states_NoDup|].
  split; [rewrite (combs_length _ _ _ Hc1), (combs_length _ _ _ Hc2); reflexivity|].
  split; congruence.
Qed.

Lemma hamiltonian_total (l : Z) (configs : list (list State)) :
  0 <= l <= 3 -> same_sector configs ->
  exists H, hamiltonian l configs = Ok H.
Proof.
  intros Hl HS. unfold hamiltonian. apply mapM_total. intros c1 H1.
  apply mapM_total. intros c2 H2.
  destruct (HS c1 c2 H1 H2) as (N1 & L & Sl & Ss).
  destruct (HS c2 c1 H2 H1) as (N2 & _).
  destruct (matrix_entry_sym l c1 c2 Hl N1 N2 L Sl Ss) as [e [E _]]. eauto.
Qed.

Lemma hamiltonian_symmetric (l : Z) (configs : list (list State)) (H : Matrix) :
  0 <= l <= 3 -> same_sector configs -> hamiltonian l configs = Ok H ->
  forall i j, (i < length configs)%nat -> (j < length configs)%nat ->
    entry H i j = entry H j i.
Proof.
  intros Hl HS EH i j Hi Hj.
  destruct (nth_error configs i) as [ci|] eqn:Eci;
    [|apply nth_error_None in Eci; lia].
  destruct (nth_error configs j) as [cj|] eqn:Ecj;
    [|apply nth_error_None in Ecj; lia].
  pose proof (hamiltonian_entry l configs H i j ci cj EH Eci Ecj) as Eij.
  pose proof (hamiltonian_entry l configs H j i cj ci EH Ecj Eci) as Eji.
  assert (Ini : In ci configs) by (eapply nth_error_In; eauto).
  assert (Inj : In cj configs) by (eapply nth_error_In; eauto).
  destruct (HS ci cj Ini Inj) as (N1 & L & Sl & Ss).
  destruct (HS cj ci Inj Ini) as (N2 & _).
  destruct (matrix_entry_sym l ci cj Hl N1 N2 L Sl Ss) as [e [E1 E2]].
  congruence.
Qed.

Lemma orbital_l_range (orbital : Orbital) : 0 <= orbital_l orbital <= 3.
Proof. destruct orbital; simpl; lia. Qed.

(** C1. For every shell and every configuration list enumerated by
    [get_hamiltonian], the Hamiltonian is assembled without error, it is
    square of the dimension of the configuration list, and its simplified
    entries satisfy [H[i][j] = H[j][i]]. *)
Theorem hamiltonian_square_symmetric (orbital : Orbital) (n_electrons target_ML : Z)
    (target_MS : Qc) (configs : list (list State)) :
  enumerate_fn_configurations n_electrons target_ML target_MS
    (get_single_states (orbital_l orbital)) = Ok configs ->
  exists H,
    hamiltonian (orbital_l orbital) configs = Ok H
    /\ length H = length configs
    /\ (forall row, In row H -> length row = length configs)
    /\ forall i j, (i < length configs)%nat -> (j < length configs)%nat ->
         entry H i j = entry H j i.
Proof.
  intros E. pose proof (enumerate_same_sector _ _ _ _ _ E) as HS.
  pose proof (orbital_l_range orbital) as Hl.
  destruct (hamiltonian_total _ configs Hl HS) as [H EH].
  exists H. split; [assumption|].
  destruct (hamiltonian_rows _ _ _ EH) as [L R].
  split; [assumption|]. split; [assumption|].
  exact (hamiltonian_symmetric (orbital_l orbital) configs H Hl HS EH).
Qed.

Lemma hamiltonian_square_symmetric_witness :
  exists H,
    hamiltonian (orbital_l orb_p) p2_configs = Ok H
    /\ length H = length p2_configs
    /\ (forall row, In row H -> length row = length p2_configs)
    /\ forall i j, (i < length p2_configs)%nat -> (j < length p2_configs)%nat ->
         entry H i j = entry H j i.
Proof.
  apply (hamiltonian_square_symmetric orb_p 2 0 (Q2Qc 0) p2_configs).
  vm_compute. reflexivity.
Defined.

(** ** The response of the tool *)

Section Response.

Context {EigVal : Type} (eigenvals : Matrix -> list (EigVal * nat)).

Lemma get_hamiltonian_empty (orbital : Orbital) (n_electrons target_ML : Z)
    (target_MS : Qc) :
  enumerate_fn_configurations n_electrons target_ML target_MS
    (get_single_states (orbital_l orbital)) = Ok [] ->
  get_hamiltonian eigenvals orbital n_electrons target_ML target_MS = Ok [Found 0].
Proof. intros E. unfold get_hamiltonian. rewrite E. reflexivity. Qed.

Lemma get_hamiltonian_nonempty (orbital : Orbital) (n_electrons target_ML : Z)
    (target_MS : Qc) configs H :
  enumerate_fn_configurations n_electrons target_ML target_MS
    (get_single_states (orbital_l orbital)) = Ok configs ->
  (0 < length configs)%nat ->
  hamiltonian (orbital_l orbital) configs = Ok H ->
  get_hamiltonian eigenvals orbital n_electrons target_ML target_MS
  = Ok ([Found (length configs)] ++ config_lines configs
        ++ [HamiltonianPretty H]
        ++ (if Nat.leb (length configs) 6
            then EigenvaluesHeader
                 :: map (fun em => EigenvalueLine (fst em) (snd em)) (eigenvals H)
            else [TooLarge])
        ++ [HamiltonianTxt H]).
Proof.
  intros E Hpos EH. unfold get_hamiltonian. rewrite E. cbn [bind].
  destruct (Nat.eqb (length configs) 0) eqn:Z; [apply Nat.eqb_eq in Z; lia|].
  rewrite EH. cbn [bind].
  destruct (Nat.leb (length configs) 6); rewrite <- ?app_assoc; reflexivity.
Qed.

(** A negative [n_electrons] is refused by [itertools.combinations]. *)
Lemma get_hamiltonian_negative (orbital : Orbital) (n_electrons target_ML : Z)
    (target_MS : Qc) :
  n_electrons < 0 ->
  get_hamiltonian eigenvals orbital n_electrons target_ML target_MS = Raise ValueError.
Proof.
  intros Hn. unfold get_hamiltonian. now rewrite enumerate_negative.
Qed.

(** C5 (amended). When [n_electrons] exceeds the size [2(2l+1)] of the
    single-particle state space there is no validation error: the
    enumeration yields no configuration and the tool answers with the
    count line alone. *)
Theorem excess_electrons_found_zero (orbital : Orbital) (n_electrons target_ML : Z)
    (target_MS : Qc) :
  2 * (2 * orbital_l orbital + 1) < n_electrons ->
  enumerate_fn_configurations n_electrons target_ML target_MS
    (get_single_states (orbital_l orbital)) = Ok []
  /\ get_hamiltonian eigenvals orbital n_electrons target_ML target_MS
     = Ok [Found 0].
Proof.
  intros Hn. pose proof (orbital_l_range orbital) as Hl.
  assert (E : enumerate_fn_configurations n_electrons target_ML target_MS
                (get_single_states (orbital_l orbital)) = Ok []).
  { rewrite enumerate_ok by lia. rewrite combs_too_many; [reflexivity|].
    pose proof (get_single_states_length (orbital_l orbital) (proj1 Hl)). lia. }
  split; [assumption|]. now apply get_hamiltonian_empty.
Qed.

Lemma config_lines_In (configs : list (list State)) (x : Part EigVal) :
  In x (config_lines configs) -> exists idx cfg, x = ConfigLine idx cfg.
Proof.
  unfold config_lines. intros H. apply in_map_iff in H.
  destruct H as [[i c] [<- _]]. eauto.
Qed.

Lemma response_members (count : nat) (lines mid : list (Part EigVal))
    (H : Matrix) (x : Part EigVal) :
  In x ([Found count] ++ lines ++ [HamiltonianPretty H] ++ mid ++ [HamiltonianTxt H])
  <-> x = Found count \/ In x lines \/ x = HamiltonianPretty H
      \/ In x mid \/ x = HamiltonianTxt H.
Proof.
  rewrite !in_app_iff. simpl. intuition congruence.
Qed.

(** C8 (amended). The tool reports eigenvalues exactly when the number of
    configurations is between one and six; above six it reports the
    Hamiltonian and states that the matrix is too large to diagonalize;
    with no configuration it reports the count alone. *)
Theorem eigenvalues_reported_one_to_six (orbital : Orbital)
    (n_electrons target_ML : Z) (target_MS : Qc) :
  0 <= n_electrons ->
  exists configs response,
    enumerate_fn_configurations n_electrons target_ML target_MS
      (get_single_states (orbital_l orbital)) = Ok configs
    /\ get_hamiltonian eigenvals orbital n_electrons target_ML target_MS = Ok response
    /\ In (Found (length configs)) response
    /\ (In EigenvaluesHeader response <-> (1 <= length configs <= 6)%nat)
    /\ (In TooLarge response <-> (6 < length configs)%nat)
    /\ (length configs = 0%nat -> response = [Found 0])
    /\ ((0 < length configs)%nat ->
        exists H, hamiltonian (orbital_l orbital) configs = Ok H
                  /\ In (HamiltonianPretty H) response
                  /\ In (HamiltonianTxt H) response
                  /\ forall eig mult,
                       In (EigenvalueLine eig mult) response
                       <-> ((length configs <= 6)%nat /\ In (eig, mult) (eigenvals H))).
Proof.
  intros Hn.
  destruct (enumerate_configurations_total (orbital_l orbital) n_electrons target_ML
              target_MS Hn) as [configs E].
  exists configs.
  destruct (Nat.eq_dec (length configs) 0) as [Len|Len].
  - exists [Found 0].
    assert (Enil : configs = []) by now apply length_zero_iff_nil.
    split; [assumption|].
    split; [apply get_hamiltonian_empty; congruence|].
    rewrite Len.
    split; [now left|].
    split; [split; [intros [H|[]]; discriminate|lia]|].
    split; [split; [intros [H|[]]; discriminate|lia]|].
    split; [reflexivity|lia].
  - pose proof (enumerate_same_sector _ _ _ _ _ E) as HS.
    destruct (hamiltonian_total _ configs (orbital_l_range orbital) HS) as [H EH].
    eexists. split; [assumption|].
    split; [apply get_hamiltonian_nonempty; [eassumption|lia|eassumption]|].
    assert (NC : forall x : Part EigVal, In x (config_lines configs) ->
                   exists idx cfg, x = ConfigLine idx cfg)
      by apply config_lines_In.
    assert (NE : forall x : Part EigVal,
                   In x (map (fun em => EigenvalueLine (fst em) (snd em)) (eigenvals H)) <->
                   exists eig mult, x = EigenvalueLine eig mult /\ In (eig, mult) (eigenvals H)).
    { intros x. rewrite in_map_iff. split.
      - intros [[eig mult] [<- Hin]]. eauto.
      - intros [eig [mult [-> Hin]]]. exists (eig, mult). auto. }
    split; [apply response_members; now left|].
    destruct (Nat.leb (length configs) 6) eqn:L6;
      [apply Nat.leb_le in L6|apply Nat.leb_gt in L6].
    + split.
      { rewrite response_members. split; [lia|]. intros _.
        right; right; right; left. now left. }
      split.
      { rewrite response_members. split; [|lia].
        intros [X|[X|[X|[X|X]]]]; try discriminate.
        - apply NC in X. destruct X as [? [? X]]. discriminate.
        - destruct X as [X|X]; [discriminate|].
          apply NE in X. destruct X as [? [? [X _]]]. discriminate. }
      split; [lia|]. intros _. exists H. split; [assumption|].
      split; [apply response_members; auto|].
      split; [apply response_members; auto 6|].
      intros eig mult. rewrite response_members. split.
      * intros [X|[X|[X|[X|X]]]]; try discriminate.
        -- apply NC in X. destruct X as [? [? X]]. discriminate.
        -- destruct X as [X|X]; [discriminate|].
           apply NE in X. destruct X as [eig' [mult' [X Hin]]].
           inversion X; subst. auto.
      * intros [_ Hin]. right; right; right; left. right.
        apply NE. eauto.
    + split.
      { rewrite response_members. split; [|lia].
        intros [X|[X|[X|[X|X]]]]; try discriminate.
        - apply NC in X. destruct X as [? [? X]]. discriminate.
        - destruct X as [X|[]]. discriminate. }
      split.
      { rewrite response_members. split; [lia|]. intros _.
        right; right; right; left. now left. }
      split; [lia|]. intros _. exists H. split; [assumption|].
      split; [apply response_members; auto|].
      split; [apply response_members; auto 6|].
      intros eig mult. rewrite response_members. split; [|lia].
      intros [X|[X|[X|[X|X]]]]; try discriminate.
      * apply NC in X. destruct X as [? [? X]]. discriminate.
      * destruct X as [X|[]]. discriminate.
Qed.

End Response.

Lemma excess_electrons_found_zero_witness :
  enumerate_fn_configurations 3 0 (Q2Qc 0) (get_single_states (orbital_l orb_s)) = Ok []
  /\ get_hamiltonian (fun _ : Matrix => @nil (unit * nat)) orb_s 3 0 (Q2Qc 0)
     = Ok [Found 0].
Proof.
  apply (excess_electrons_found_zero (fun _ : Matrix => @nil (unit * nat)) orb_s 3 0 (Q2Qc 0)).
  simpl. lia.
Defined.

(** C5 as stated fails: seven electrons in the [p] shell, which has six
    states, raise no error. *)
Lemma excess_electrons_no_error :
  get_hamiltonian (fun _ : Matrix => @nil (unit * nat)) orb_p 7 0 (Q2Qc 0)
  = Ok [Found 0]
  /\ forall e, get_hamiltonian (fun _ : Matrix => @nil (unit * nat)) orb_p 7 0 (Q2Qc 0)
               <> Raise e.
Proof.
  assert (E : get_hamiltonian (fun _ : Matrix => @nil (unit * nat)) orb_p 7 0 (Q2Qc 0)
              = Ok [Found 0]) by (vm_compute; reflexivity).
  split; [assumption|]. intros e. rewrite E. discriminate.
Qed.

Lemma eigenvalues_reported_one_to_six_witness :
  exists configs response,
    enumerate_fn_configurations 2 0 (Q2Qc 0) (get_single_states (orbital_l orb_p))
    = Ok configs
    /\ get_hamiltonian (fun _ : Matrix => @nil (unit * nat)) orb_p 2 0 (Q2Qc 0)
       = Ok response
    /\ In (Found (length configs)) response
    /\ (In EigenvaluesHeader response <-> (1 <= length configs <= 6)%nat)
    /\ (In TooLarge response <-> (6 < length configs)%nat)
    /\ (length configs = 0%nat -> response = [Found 0])
    /\ ((0 < length configs)%nat ->
        exists H, hamiltonian (orbital_l orb_p) configs = Ok H
                  /\ In (HamiltonianPretty H) response
                  /\ In (HamiltonianTxt H) response
                  /\ forall eig mult,
                       In (EigenvalueLine eig mult) response
                       <-> ((length configs <= 6)%nat /\ In (eig, mult) [])).
Proof.
  apply (eigenvalues_reported_one_to_six (fun _ : Matrix => @nil (unit * nat))
           orb_p 2 0 (Q2Qc 0)).
  lia.
Defined.

(** C8 as stated fails: an empty sector has at most six configurations and
    no eigenvalue is computed or reported for it. *)
Lemma empty_sector_no_eigenvalues :
  enumerate_fn_configurations 2 5 (Q2Qc 0) (get_single_states (orbital_l orb_p)) = Ok []
  /\ get_hamiltonian (fun _ : Matrix => [(tt, 1%nat)]) orb_p 2 5 (Q2Qc 0) = Ok [Found 0]
  /\ ~ In EigenvaluesHeader [@Found unit 0].
Proof.
  split; [vm_compute; reflexivity|].
  split; [vm_compute; reflexivity|].
  intros [H|[]]. discriminate.
Qed.

(** ** Instances on concrete configurations *)

Lemma not_two_differences_no_terms_witness :
  get_required_coulomb_terms
    [(-2, Rational 1 2); (-1, Rational 1 2); (0, Rational 1 2)]
    [(1, Rational 1 2); (2, Rational 1 2); (2, Rational (-1) 2)] = Ok []
  /\ matrix_entry 2
       [(-2, Rational 1 2); (-1, Rational 1 2); (0, Rational 1 2)]
       [(1, Rational 1 2); (2, Rational 1 2); (2, Rational (-1) 2)] = Ok [].
Proof.
  apply (not_two_differences_no_terms 2
           [(-2, Rational 1 2); (-1, Rational 1 2); (0, Rational 1 2)]
           [(1, Rational 1 2); (2, Rational 1 2); (2, Rational (-1) 2)]).
  - intros H. discriminate H.
  - left. vm_compute. intros H. discriminate H.
Defined.

Lemma reordered_configuration_no_terms_witness :
  removed_states [(0, Rational 1 2); (1, Rational 1 2)]
                 [(1, Rational 1 2); (0, Rational 1 2)] = []
  /\ removed_states [(1, Rational 1 2); (0, Rational 1 2)]
                    [(0, Rational 1 2); (1, Rational 1 2)] = []
  /\ get_required_coulomb_terms [(0, Rational 1 2); (1, Rational 1 2)]
                                [(1, Rational 1 2); (0, Rational 1 2)] = Ok []
  /\ get_required_coulomb_terms [(0, Rational 1 2); (1, Rational 1 2)]
                                [(0, Rational 1 2); (1, Rational 1 2)]
     = Ok (diagonal_terms [(0, Rational 1 2); (1, Rational 1 2)]).
Proof.
  apply (reordered_configuration_no_terms
           [(0, Rational 1 2); (1, Rational 1 2)]
           [(1, Rational 1 2); (0, Rational 1 2)]).
  - intros H. discriminate H.
  - apply perm_swap.
Defined.

Lemma enumerated_pairs_differ_twice_witness :
  length (removed_states [(-1, Rational 1 2); (1, Rational (-1) 2)]
                         [(0, Rational 1 2); (0, Rational (-1) 2)])
  = length (removed_states [(0, Rational 1 2); (0, Rational (-1) 2)]
                           [(-1, Rational 1 2); (1, Rational (-1) 2)])
  /\ length (removed_states [(-1, Rational 1 2); (1, Rational (-1) 2)]
                            [(0, Rational 1 2); (0, Rational (-1) 2)]) <> 1%nat
  /\ (NoDup (get_single_states 1) ->
      le 2 (length (removed_states [(-1, Rational 1 2); (1, Rational (-1) 2)]
                                   [(0, Rational 1 2); (0, Rational (-1) 2)]))).
Proof.
  apply (enumerated_pairs_differ_twice 2 0 (Q2Qc 0) (get_single_states 1) p2_configs
           [(-1, Rational 1 2); (1, Rational (-1) 2)]
           [(0, Rational 1 2); (0, Rational (-1) 2)]).
  - vm_compute. reflexivity.
  - simpl. left. reflexivity.
  - simpl. right. left. reflexivity.
  - intros H. discriminate H.
Defined.

(** * Further properties of [lib.py] and [server.py] *)

(** ** The state space *)

Lemma get_single_states_In (l m : Z) (s : Qc) :
  In (m, s) (get_single_states l)
  <-> - l <= m <= l /\ (s = Rational 1 2 \/ s = Rational (-1) 2).
Proof.
  unfold get_single_states. rewrite in_app_iff, !in_map_iff. split.
  - intros [[x [E H]] | [x [E H]]]; inversion E; subst; apply range_In in H;
      split; auto; lia.
  - intros [Hm [-> | ->]]; [left | right]; exists m;
      (split; [reflexivity | apply range_In; lia]).
Qed.

(** X1. The state space of the shell [l] has [2(2l+1)] states (none for a
    negative [l]), no state twice, and holds exactly the pairs [(m, +-1/2)]
    with [-l <= m <= l]. *)
Theorem single_states_characterised (l : Z) :
  Z.of_nat (length (get_single_states l)) = Z.max 0 (2 * (2 * l + 1))
  /\ NoDup (get_single_states l)
  /\ forall m s, In (m, s) (get_single_states l)
                 <-> - l <= m <= l /\ (s = Rational 1 2 \/ s = Rational (-1) 2).
Proof.
  split; [|split; [apply get_single_states_NoDup | apply get_single_states_In]].
  unfold get_single_states. rewrite length_app, !length_map, range_length. lia.
Qed.

(** ** Completeness and order of the enumeration *)

Lemma combs_list_NoDup {A : Type} (l : list A) :
  NoDup l -> forall r, NoDup (combs l r).
Proof.
  induction 1 as [|x t Hx Ht IH]; intros r; destruct r; simpl.
  - repeat constructor; auto.
  - constructor.
  - repeat constructor; auto.
  - apply NoDup_app.
    + apply Finite.Injective_map_NoDup; [|apply IH].
      intros c c' E. now inversion E.
    + apply IH.
    + intros c H1 H2. apply in_map_iff in H1. destruct H1 as [c' [<- _]].
      apply Hx. apply (combs_incl t (S r) _ H2). now left.
Qed.

Lemma combs_complete (l : list State) :
  NoDup l -> forall c, NoDup c -> incl c l ->
  exists c', In c' (combs l (length c)) /\ Permutation c c'.
Proof.
  induction 1 as [|x t Hx Ht IH]; intros c Nc Hc.
  - destruct c as [|y c]; [exists []; simpl; auto|].
    exfalso. apply (Hc y). now left.
  - destruct (in_dec state_eq_dec x c) as [Hin|Hout].
    + destruct (in_split x c Hin) as [c1 [c2 ->]].
      assert (Nc' : NoDup (c1 ++ c2)) by (eapply NoDup_remove_1; eauto).
      assert (Hx' : ~ In x (c1 ++ c2)) by (eapply NoDup_remove_2; eauto).
      destruct (IH (c1 ++ c2) Nc') as [c' [H1 H2]].
      { intros y Hy. assert (In y (c1 ++ x :: c2)).
        { apply in_app_iff in Hy. apply in_app_iff. simpl. tauto. }
        destruct (Hc y H) as [E|E]; [subst; contradiction|assumption]. }
      exists (x :: c'). split.
      * rewrite length_app. simpl. rewrite Nat.add_succ_r, <- length_app.
        simpl. apply in_or_app. left. now apply in_map.
      * apply Permutation_sym, Permutation_cons_app, Permutation_sym. assumption.
    + destruct (IH c Nc) as [c' [H1 H2]].
      { intros y Hy. destruct (Hc y Hy) as [E|E]; [subst; contradiction|assumption]. }
      exists c'. split; [|assumption].
      destruct (length c) eqn:E; simpl.
      * destruct t; simpl in H1; exact H1.
      * apply in_or_app. now right.
Qed.

(** X2. On the state space of a shell the enumeration lists every set of
    [n] distinct states with the target totals exactly once: each such set
    has a listed representative, the list has no configuration twice, and
    two listed configurations with the same states are the same tuple. *)
Theorem enumeration_complete_unique (l n target_m_l : Z) (target_m_s : Qc)
    (configs : list (list State)) :
  enumerate_fn_configurations n target_m_l target_m_s (get_single_states l)
  = Ok configs ->
  NoDup configs
  /\ (forall c, NoDup c -> incl c (get_single_states l) ->
                Z.of_nat (length c) = n ->
                sum_ml c = target_m_l -> sum_ms c = target_m_s ->
                exists c', In c' configs /\ Permutation c c')
  /\ (forall c1 c2, In c1 configs -> In c2 configs -> Permutation c1 c2 -> c1 = c2).
Proof.
  intros E. destruct (enumerate_inv _ _ _ _ _ E) as [Hn Hall].
  rewrite enumerate_ok in E by assumption. inversion E as [E']. clear E.
  pose proof (get_single_states_NoDup l) as NS.
  split; [apply NoDup_filter; now apply combs_list_NoDup|].
  split.
  - intros c Nc Hc Hlen Sl Ss.
    destruct (combs_complete _ NS c Nc Hc) as [c' [H1 H2]].
    exists c'. split; [|assumption].
    apply filter_In. split.
    + replace (Z.to_nat n) with (length c) by lia. assumption.
    + rewrite <- (sum_ml_perm _ _ H2), <- (sum_ms_perm _ _ H2), Sl, Ss.
      now rewrite Z.eqb_refl, Qc_eq_bool_refl.
  - intros c1 c2 H1 H2 HP.
    apply (combs_perm_eq _ NS (Z.to_nat n)); try assumption.
    + apply (Hall c1). now rewrite <- E'.
    + apply (Hall c2). now rewrite <- E'.
Qed.

Lemma enumeration_complete_unique_witness :
  NoDup p2_configs
  /\ (forall c, NoDup c -> incl c (get_single_states 1) ->
                Z.of_nat (length c) = 2 ->
                sum_ml c = 0 -> sum_ms c = Q2Qc 0 ->
                exists c', In c' p2_configs /\ Permutation c c')
  /\ (forall c1 c2, In c1 p2_configs -> In c2 p2_configs ->
                    Permutation c1 c2 -> c1 = c2).
Proof.
  apply (enumeration_complete_unique 1 2 0 (Q2Qc 0) p2_configs).
  vm_compute. reflexivity.
Defined.

Lemma StronglySorted_app_intro {A : Type} (R : A -> A -> Prop) (l1 l2 : list A) :
  StronglySorted R l1 -> StronglySorted R l2 ->
  (forall x y, In x l1 -> In y l2 -> R x y) ->
  StronglySorted R (l1 ++ l2).
Proof.
  induction 1 as [|x l1 H1 IH F]; intros H2 H; simpl; [assumption|].
  constructor.
  - apply IH; [assumption|]. intros; apply H; simpl; auto.
  - apply Forall_app. split; [assumption|].
    apply Forall_forall. intros y Hy. apply H; simpl; auto.
Qed.

Lemma range_sorted (f : Z -> State) (R : State -> State -> Prop) (a b : Z) :
  (forall x y, x < y -> R (f x) (f y)) ->
  StronglySorted R (map f (range a b)).
Proof.
  intros HR. unfold range. rewrite map_map.
  generalize (Z.to_nat (b - a)) as k. generalize 0%nat as s.
  intros s k. revert s. induction k as [|k IH]; intros s; simpl; constructor.
  - apply IH.
  - apply Forall_forall. intros y Hy. apply in_map_iff in Hy.
    destruct Hy as [i [<- Hi]]. apply in_seq in Hi. apply HR. lia.
Qed.

Lemma get_single_states_sorted (l : Z) :
  StronglySorted state_lt (get_single_states l).
Proof.
  unfold get_single_states. apply StronglySorted_app_intro.
  - apply range_sorted. intros x y H. right. simpl. auto.
  - apply range_sorted. intros x y H. right. simpl. auto.
  - intros x y Hx Hy. apply in_map_iff in Hx, Hy.
    destruct Hx as [m [<- _]], Hy as [m' [<- _]]. left. simpl. auto.
Qed.

Lemma combs_sorted {A : Type} (R : A -> A -> Prop) (l : list A) :
  StronglySorted R l -> forall r c, In c (combs l r) -> StronglySorted R c.
Proof.
  induction 1 as [|x t Ht IH F]; intros r c H; destruct r; simpl in H.
  - destruct H as [<-|[]]. constructor.
  - destruct H.
  - destruct H as [<-|[]]. constructor.
  - apply in_app_or in H. destruct H as [H|H].
    + apply in_map_iff in H. destruct H as [c' [<- H]].
      constructor; [eauto|]. rewrite Forall_forall in *.
      intros y Hy. apply F. eapply combs_incl; eauto.
    + eauto.
Qed.

(** X3. Every enumerated configuration lists its states in the order of the
    state space: spin-up states before spin-down states, and ascending
    [m_l] within one spin. *)
Theorem configurations_in_state_order (l n target_m_l : Z) (target_m_s : Qc)
    (configs : list (list State)) :
  enumerate_fn_configurations n target_m_l target_m_s (get_single_states l)
  = Ok configs ->
  forall config, In config configs -> StronglySorted state_lt config.
Proof.
  intros E config H. destruct (enumerate_inv _ _ _ _ _ E) as [_ Hall].
  destruct (Hall config H) as [Hc _].
  exact (combs_sorted state_lt _ (get_single_states_sorted l) _ _ Hc).
Qed.

Lemma configurations_in_state_order_witness :
  StronglySorted state_lt [(1, Rational 1 2); (-1, Rational (-1) 2)].
Proof.
  apply (configurations_in_state_order 1 2 0 (Q2Qc 0) p2_configs).
  - vm_compute. reflexivity.
  - vm_compute. tauto.
Defined.

(** ** Targets without configurations *)

Lemma sum_ml_bound (l : Z) (c : list State) :
  (forall x, In x c -> Z.abs (fst x) <= l) ->
  Z.abs (sum_ml c) <= Z.of_nat (length c) * l.
Proof.
  induction c as [|x c IH]; intros H.
  - unfold sum_ml. simpl. lia.
  - rewrite sum_ml_cons. simpl length.
    assert (Z.abs (fst x) <= l) by (apply H; now left).
    assert (Z.abs (sum_ml c) <= Z.of_nat (length c) * l)
      by (apply IH; intros; apply H; now right).
    lia.
Qed.

Lemma half_sum (a b : Z) : (Q2Qc (a # 2) + Q2Qc (b # 2))%Qc = Q2Qc ((a + b) # 2).
Proof.
  apply Qc_is_canon. unfold Qcplus, Q2Qc. cbn [this].
  rewrite !Qred_correct. unfold Qeq, Qplus. cbn [Qnum Qden]. lia.
Qed.

Lemma sum_ms_half (c : list State) :
  (forall x, In x c -> snd x = Rational 1 2 \/ snd x = Rational (-1) 2) ->
  exists k, sum_ms c = Q2Qc (k # 2)
            /\ Z.abs k <= Z.of_nat (length c)
            /\ Z.even (Z.of_nat (length c) - k) = true.
Proof.
  induction c as [|x c IH]; intros H.
  - exists 0. split; [|split; [simpl; lia|reflexivity]].
    apply Qc_is_canon. reflexivity.
  - destruct IH as [k [E [B P]]]; [intros; apply H; now right|].
    rewrite sum_ms_cons, E. simpl length.
    destruct (H x) as [-> | ->]; [now left| |].
    + exists (1 + k). unfold Rational. rewrite half_sum.
      split; [reflexivity|]. split; [lia|].
      replace (Z.of_nat (S (length c)) - (1 + k)) with (Z.of_nat (length c) - k) by lia.
      assumption.
    + exists (-1 + k). unfold Rational. rewrite half_sum.
      split; [reflexivity|]. split; [lia|].
      replace (Z.of_nat (S (length c)) - (-1 + k))
        with (Z.of_nat (length c) - k + 2 * 1) by lia.
      now rewrite Z.even_add_mul_2.
Qed.

(** X5. A sector holds a configuration only if [|target_ML| <= n l] and
    [target_MS] is a half-integer [k/2] with [|k| <= n] and [k] of the
    parity of [n]; for every other target the enumeration is empty. *)
Theorem nonempty_sector_targets (l n target_m_l : Z) (target_m_s : Qc)
    (configs : list (list State)) :
  enumerate_fn_configurations n target_m_l target_m_s (get_single_states l)
  = Ok configs ->
  configs <> [] ->
  Z.abs target_m_l <= n * l
  /\ exists k, target_m_s = Q2Qc (k # 2) /\ Z.abs k <= n /\ Z.even (n - k) = true.
Proof.
  intros E Hne. destruct (enumerate_inv _ _ _ _ _ E) as [Hn Hall].
  destruct configs as [|c rest]; [congruence|].
  destruct (Hall c) as [Hc [Sl Ss]]; [now left|].
  pose proof (combs_length _ _ _ Hc) as Len.
  pose proof (combs_incl _ _ _ Hc) as Inc.
  split.
  - rewrite <- Sl. replace n with (Z.of_nat (length c)) by lia.
    apply sum_ml_bound. intros [m s] Hx. apply Inc, get_single_states_In in Hx.
    simpl. lia.
  - destruct (sum_ms_half c) as [k [Ek [B P]]].
    + intros [m s] Hx. apply Inc, get_single_states_In in Hx. simpl. tauto.
    + exists k. rewrite <- Ss. replace n with (Z.of_nat (length c)) by lia. auto.
Qed.

Lemma nonempty_sector_targets_witness :
  Z.abs 0 <= 2 * 1
  /\ exists k, Q2Qc 0 = Q2Qc (k # 2) /\ Z.abs k <= 2 /\ Z.even (2 - k) = true.
Proof.
  apply (nonempty_sector_targets 1 2 0 (Q2Qc 0) p2_configs).
  - vm_compute. reflexivity.
  - intros H. discriminate H.
Defined.

(** ** Edge cases of the electron count *)

(** X4. A negative [n_electrons] raises the [ValueError] of
    [itertools.combinations], in the enumeration and in the tool. *)
Theorem negative_electron_count_raises {EigVal : Type}
    (eigenvals : Matrix -> list (EigVal * nat)) (orbital : Orbital)
    (n_electrons target_ML : Z) (target_MS : Qc) (states : list State) :
  n_electrons < 0 ->
  enumerate_fn_configurations n_electrons target_ML target_MS states
  = Raise ValueError
  /\ get_hamiltonian eigenvals orbital n_electrons target_ML target_MS
     = Raise ValueError.
Proof.
  intros Hn. split; [now apply enumerate_negative|].
  unfold get_hamiltonian. now rewrite enumerate_negative.
Qed.

Lemma negative_electron_count_raises_witness :
  enumerate_fn_configurations (-1) 0 (Q2Qc 0) (get_single_states 2) = Raise ValueError
  /\ get_hamiltonian (fun _ : Matrix => @nil (unit * nat)) orb_d (-1) 0 (Q2Qc 0)
     = Raise ValueError.
Proof.
  apply (negative_electron_count_raises (fun _ : Matrix => @nil (unit * nat))
           orb_d (-1) 0 (Q2Qc 0) (get_single_states 2)).
  lia.
Defined.

Lemma combs_zero {A : Type} (l : list A) : combs l 0 = [[]].
Proof. destruct l; reflexivity. Qed.

(** X6. With zero electrons the enumeration yields the single empty
    configuration when both targets are zero, and nothing otherwise; the
    tool then reports one configuration and a 1x1 zero Hamiltonian. *)
Theorem zero_electrons_vacuum {EigVal : Type}
    (eigenvals : Matrix -> list (EigVal * nat)) (orbital : Orbital)
    (target_ML : Z) (target_MS : Qc) :
  get_hamiltonian eigenvals orbital 0 target_ML target_MS
  = if (0 =? target_ML) && Qc_eq_bool (Q2Qc 0) target_MS
    then Ok ([Found 1; ConfigLine 1 []; HamiltonianPretty [[[]]]; EigenvaluesHeader]
             ++ map (fun em => EigenvalueLine (fst em) (snd em)) (eigenvals [[[]]])
             ++ [HamiltonianTxt [[[]]]])
    else Ok [Found 0].
Proof.
  unfold get_hamiltonian. rewrite enumerate_ok by lia.
  change (Z.to_nat 0) with 0%nat. rewrite combs_zero.
  cbn [filter]. change (sum_ml []) with 0. change (sum_ms []) with (Q2Qc 0).
  destruct ((0 =? target_ML) && Qc_eq_bool (Q2Qc 0) target_MS); reflexivity.
Qed.

(** ** The terms of the selector *)

Lemma length_filter_flat_map {A B : Type} (P : B -> bool) (f : A -> list B)
    (L : list A) :
  length (filter P (flat_map f L))
  = list_sum (map (fun x => length (filter P (f x))) L).
Proof.
  induction L as [|x L IH]; simpl; [reflexivity|].
  now rewrite filter_app, length_app, IH.
Qed.

Lemma list_sum_map_ext_in {A : Type} (g h : A -> nat) (L : list A) :
  (forall x, In x L -> g x = h x) ->
  list_sum (map g L) = list_sum (map h L).
Proof.
  intros H. f_equal. now apply map_ext_in.
Qed.

Lemma list_sum_ones {A : Type} (L : list A) :
  list_sum (map (fun _ => 1%nat) L) = length L.
Proof. induction L; simpl; auto. Qed.

Lemma triangle_sum (k : nat) : forall s,
  (2 * list_sum (map (fun i => s + k - S i) (seq s k)) = k * (k - 1))%nat.
Proof.
  induction k as [|k IH]; intros s; [reflexivity|].
  rewrite <- cons_seq, map_cons.
  change (list_sum ((s + S k - S s)%nat :: ?l)) with ((s + S k - S s) + list_sum l)%nat.
  rewrite (list_sum_map_ext_in (fun i => (s + S k - S i)%nat)
             (fun i => (S s + k - S i)%nat)) by (intros; lia).
  specialize (IH (S s)). nia.
Qed.

Lemma diagonal_direct_count (c : list State) :
  (2 * length (filter is_direct (diagonal_terms c))
   = length c * (length c - 1))%nat.
Proof.
  unfold diagonal_terms. set (n := length c).
  rewrite length_filter_flat_map.
  rewrite (list_sum_map_ext_in _ (fun i => (0 + n - S i)%nat)).
  - apply triangle_sum.
  - intros i Hi. apply in_seq in Hi.
    rewrite length_filter_flat_map.
    rewrite (list_sum_map_ext_in _ (fun _ => 1%nat)).
    + rewrite list_sum_ones, length_seq. lia.
    + intros j Hj. apply in_seq in Hj.
      destruct (nth_error c i) as [[ml1 ms1]|] eqn:Ei;
        [|apply nth_error_None in Ei; lia].
      destruct (nth_error c j) as [[ml2 ms2]|] eqn:Ej;
        [|apply nth_error_None in Ej; unfold n in *; lia].
      destruct (Qc_eq_bool ms1 ms2); reflexivity.
Qed.

Lemma diagonal_terms_form (c : list State) (t : Term) :
  In t (diagonal_terms c) ->
  exists a b, In a c /\ In b c
    /\ (t = (1, direct, (fst a, fst b, fst a, fst b))
        \/ (snd a = snd b /\ t = (1, exchange, (fst a, fst b, fst b, fst a)))).
Proof.
  unfold diagonal_terms. intros H.
  apply in_flat_map in H. destruct H as [i [_ H]].
  apply in_flat_map in H. destruct H as [j [_ H]].
  destruct (nth_error c i) as [[ml1 ms1]|] eqn:Ei; [|destruct H].
  destruct (nth_error c j) as [[ml2 ms2]|] eqn:Ej; [|destruct H].
  exists (ml1, ms1), (ml2, ms2).
  split; [eapply nth_error_In; eauto|]. split; [eapply nth_error_In; eauto|].
  destruct H as [<- | H]; [now left|].
  destruct (Qc_eq_bool ms1 ms2) eqn:E; [|destruct H].
  destruct H as [<- | []]. right. split; [|reflexivity].
  now apply Qc_eq_bool_correct.
Qed.

(** X7. On one configuration of [n] states the selector returns exactly
    [n(n-1)/2] direct terms, one per pair of states, each of the form
    [(+1, direct, (a, b, a, b))]; every other term is an exchange term
    [(+1, exchange, (a, b, b, a))] of two states of equal spin. *)
Theorem diagonal_terms_census (state1 : list State) :
  exists terms,
    get_required_coulomb_terms state1 state1 = Ok terms
    /\ (2 * length (filter is_direct terms)
        = length state1 * (length state1 - 1))%nat
    /\ forall t, In t terms ->
         exists a b, In a state1 /\ In b state1
           /\ (t = (1, direct, (fst a, fst b, fst a, fst b))
               \/ (snd a = snd b
                   /\ t = (1, exchange, (fst a, fst b, fst b, fst a)))).
Proof.
  exists (diagonal_terms state1).
  split; [apply get_required_coulomb_terms_diag|].
  split; [apply diagonal_direct_count|apply diagonal_terms_form].
Qed.

Lemma permutations2_In {A : Type} (l : list A) (a b : A) :
  In (a, b) (permutations2 l) -> In a l /\ In b l.
Proof.
  unfold permutations2. intros H.
  apply in_flat_map in H. destruct H as [i [_ H]].
  apply in_flat_map in H. destruct H as [j [_ H]].
  destruct (Nat.eqb i j); [destruct H|].
  destruct (nth_error l i) as [x|] eqn:Ei; [|destruct H].
  destruct (nth_error l j) as [y|] eqn:Ej; [|destruct H].
  destruct H as [H|[]]. inversion H; subst.
  split; eapply nth_error_In; eauto.
Qed.

Lemma try_assignment_shape (state1 state2 : list State) (a b c d : State) terms :
  try_assignment state1 state2 a b c d = Ok (Some terms) ->
  exists sign, (sign = 1 \/ sign = -1)
    /\ snd a = snd c /\ snd b = snd d
    /\ terms = assignment_terms sign a b c d.
Proof.
  unfold try_assignment. intros H.
  destruct (Qc_eq_bool (snd a) (snd c) && Qc_eq_bool (snd b) (snd d)) eqn:Es;
    [|discriminate].
  apply andb_true_iff in Es. destruct Es as [E1 E2].
  apply Qc_eq_bool_correct in E1, E2.
  destruct (index state1 a); [|discriminate].
  destruct (index state1 b); [|discriminate].
  destruct (negb _); [discriminate|].
  destruct (mapM _ state2) as [perm|]; [|discriminate]. cbn [bind] in H.
  unfold signature in H. destruct (is_array_form perm); [|discriminate].
  cbn [bind] in H. inversion H; subst.
  exists (if Nat.even (inversions perm) then 1 else -1).
  split; [destruct (Nat.even _); auto|]. auto.
Qed.

Lemma first_assignment_shape (state1 state2 : list State) candidates terms :
  first_assignment state1 state2 candidates = Ok terms ->
  terms = []
  \/ exists sign a b c d,
       In ((a, b), (c, d)) candidates
       /\ (sign = 1 \/ sign = -1) /\ snd a = snd c /\ snd b = snd d
       /\ terms = assignment_terms sign a b c d.
Proof.
  induction candidates as [|[[a b] [c d]] rest IH]; simpl; intros H.
  - inversion H. now left.
  - destruct (try_assignment state1 state2 a b c d) as [[ts|]|] eqn:E;
      cbn [bind] in H; [| |discriminate].
    + inversion H; subst. right.
      destruct (try_assignment_shape _ _ _ _ _ _ _ E) as [sign [Hs [E1 [E2 ->]]]].
      exists sign, a, b, c, d. auto.
    + destruct (IH H) as [-> | [sign [a' [b' [c' [d' [Hin R]]]]]]]; [now left|].
      right. exists sign, a', b', c', d'. auto.
Qed.

(** X8. On two different tuples a returned term list is empty or consists
    of one direct term, followed by one exchange term when the two removed
    states have equal spin; both carry the same sign [+1] or [-1], the
    states [a, b] are taken from [removed] and [c, d] from [added], and the
    spins agree pairwise. *)
Theorem offdiagonal_terms_shape (state1 state2 : list State) (terms : list Term) :
  state1 <> state2 ->
  get_required_coulomb_terms state1 state2 = Ok terms ->
  terms = []
  \/ exists sign a b c d,
       (sign = 1 \/ sign = -1)
       /\ In a (removed_states state1 state2) /\ In b (removed_states state1 state2)
       /\ In c (removed_states state2 state1) /\ In d (removed_states state2 state1)
       /\ snd a = snd c /\ snd b = snd d
       /\ terms
          = (sign, direct, (fst a, fst b, fst c, fst d))
            :: (if Qc_eq_bool (snd a) (snd b)
                then [(sign, exchange, (fst a, fst b, fst d, fst c))]
                else []).
Proof.
  intros Hne H. rewrite get_required_coulomb_terms_offdiag in H by assumption.
  destruct (_ || _); [inversion H; now left|].
  destruct (first_assignment_shape _ _ _ _ H)
    as [-> | [sign [a [b [c [d [Hin [Hs [E1 [E2 ->]]]]]]]]]]; [now left|].
  right. exists sign, a, b, c, d.
  apply in_flat_map in Hin. destruct Hin as [[a' b'] [Hab Hcd]].
  apply in_map_iff in Hcd. destruct Hcd as [[c' d'] [E Hcd]].
  inversion E; subst.
  apply permutations2_In in Hab, Hcd. unfold assignment_terms. tauto.
Qed.

Lemma offdiagonal_terms_shape_witness :
  [(1, direct, (-1, 2, 0, 1))] = []
  \/ exists sign a b c d,
       (sign = 1 \/ sign = -1)
       /\ In a (removed_states [(-1, Rational 1 2); (2, Rational (-1) 2)]
                               [(0, Rational 1 2); (1, Rational (-1) 2)])
       /\ In b (removed_states [(-1, Rational 1 2); (2, Rational (-1) 2)]
                               [(0, Rational 1 2); (1, Rational (-1) 2)])
       /\ In c (removed_states [(0, Rational 1 2); (1, Rational (-1) 2)]
                               [(-1, Rational 1 2); (2, Rational (-1) 2)])
       /\ In d (removed_states [(0, Rational 1 2); (1, Rational (-1) 2)]
                               [(-1, Rational 1 2); (2, Rational (-1) 2)])
       /\ snd a = snd c /\ snd b = snd d
       /\ [(1, direct, (-1, 2, 0, 1))]
          = (sign, direct, (fst a, fst b, fst c, fst d))
            :: (if Qc_eq_bool (snd a) (snd b)
                then [(sign, exchange, (fst a, fst b, fst d, fst c))]
                else []).
Proof.
  apply (offdiagonal_terms_shape
           [(-1, Rational 1 2); (2, Rational (-1) 2)]
           [(0, Rational 1 2); (1, Rational (-1) 2)]).
  - intros H. discriminate H.
  - vm_compute. reflexivity.
Defined.

Lemma spin_sum_match (r0 r1 a0 a1 : State) :
  (forall x, In x [r0; r1; a0; a1] ->
     snd x = Rational 1 2 \/ snd x = Rational (-1) 2) ->
  (snd r0 + snd r1 = snd a0 + snd a1)%Qc ->
  spin_match r0 r1 a0 a1 = false -> spin_match r0 r1 a1 a0 = true.
Proof.
  intros Hs Hsum E.
  destruct r0 as [m0 s0], r1 as [m1 s1], a0 as [n0 t0], a1 as [n1 t1].
  unfold spin_match in *. cbn [snd] in *.
  assert (H0 : s0 = Rational 1 2 \/ s0 = Rational (-1) 2)
    by (apply (Hs (m0, s0)); simpl; tauto).
  assert (H1 : s1 = Rational 1 2 \/ s1 = Rational (-1) 2)
    by (apply (Hs (m1, s1)); simpl; tauto).
  assert (H2 : t0 = Rational 1 2 \/ t0 = Rational (-1) 2)
    by (apply (Hs (n0, t0)); simpl; tauto).
  assert (H3 : t1 = Rational 1 2 \/ t1 = Rational (-1) 2)
    by (apply (Hs (n1, t1)); simpl; tauto).
  clear Hs.
  destruct H0 as [-> | ->], H1 as [-> | ->], H2 as [-> | ->], H3 as [-> | ->];
    first [ reflexivity
          | exfalso; vm_compute in E; discriminate E
          | exfalso; apply (f_equal this) in Hsum; vm_compute in Hsum;
            discriminate Hsum ].
Qed.

(** X9. Two enumerated configurations that differ in exactly two states are
    always coupled: the selector returns a direct term (and an exchange term
    for equal spins) whose four magnetic quantum numbers conserve
    [m1 + m2 = m3 + m4], built from the two removed states in order and the
    two added states in one of their two orders. *)
Theorem two_differences_always_coupled (l n target_m_l : Z) (target_m_s : Qc)
    (configs : list (list State)) (c1 c2 : list State) :
  enumerate_fn_configurations n target_m_l target_m_s (get_single_states l)
  = Ok configs ->
  In c1 configs -> In c2 configs -> c1 <> c2 ->
  length (removed_states c1 c2) = 2%nat ->
  exists sign a b c d,
    (sign = 1 \/ sign = -1)
    /\ removed_states c1 c2 = [a; b]
    /\ Permutation (removed_states c2 c1) [c; d]
    /\ snd a = snd c /\ snd b = snd d
    /\ fst a + fst b = fst c + fst d
    /\ get_required_coulomb_terms c1 c2
       = Ok ((sign, direct, (fst a, fst b, fst c, fst d))
             :: (if Qc_eq_bool (snd a) (snd b)
                 then [(sign, exchange, (fst a, fst b, fst d, fst c))]
                 else [])).
Proof.
  intros He H1 H2 Hne Hlen.
  destruct (enumerate_same_sector _ _ _ _ _ He c1 c2 H1 H2) as (N1 & L & Sl & Ss).
  destruct (enumerate_same_sector _ _ _ _ _ He c2 c1 H2 H1) as (N2 & _).
  destruct (enumerate_inv _ _ _ _ _ He) as [_ Hall].
  destruct (Hall c1 H1) as [Hc1 _]. destruct (Hall c2 H2) as [Hc2 _].
  pose proof (removed_added_length c1 c2 L) as Hlen'.
  destruct (removed_added_sums c1 c2 Sl Ss) as [Rl Rs].
  destruct (removed_states c1 c2) as [|r0 [|r1 [|]]] eqn:ER; try discriminate Hlen.
  destruct (removed_states c2 c1) as [|a0 [|a1 [|]]] eqn:EA;
    try (rewrite Hlen in Hlen'; discriminate Hlen').
  pose proof (removed_swap_pair c1 c2 r0 r1 a0 a1 N1 N2 L ER EA) as S.
  assert (G : get_required_coulomb_terms c1 c2
              = Ok (if spin_match r0 r1 a0 a1
                    then assignment_terms (pair_sign c1 c2 r0 r1 a0 a1) r0 r1 a0 a1
                    else if spin_match r0 r1 a1 a0
                         then assignment_terms (pair_sign c1 c2 r0 r1 a1 a0) r0 r1 a1 a0
                         else [])).
  { rewrite get_required_coulomb_terms_offdiag by assumption.
    rewrite ER, EA. cbn [length Nat.eqb negb orb].
    now apply first_assignment_two. }
  rewrite !sum_ml_cons in Rl. rewrite !sum_ms_cons in Rs.
  change (sum_ml []) with 0 in Rl.
  assert (Rs' : (snd r0 + snd r1 = snd a0 + snd a1)%Qc).
  { apply (Qc_add_cancel_r _ _ (sum_ms [])). rewrite <- !Qcplus_assoc. exact Rs. }
  assert (Hspin : forall x, In x [r0; r1; a0; a1] ->
            snd x = Rational 1 2 \/ snd x = Rational (-1) 2).
  { intros [m s] Hx. cbn [snd].
    assert (Hin : In (m, s) (get_single_states l)).
    { unfold swap_pair in S.
      destruct Hx as [<-|[<-|[<-|[<-|[]]]]];
        [apply (combs_incl _ _ _ Hc1)|apply (combs_incl _ _ _ Hc1)
        |apply (combs_incl _ _ _ Hc2)|apply (combs_incl _ _ _ Hc2)]; tauto. }
    apply get_single_states_In in Hin. tauto. }
  destruct (spin_match r0 r1 a0 a1) eqn:E1.
  - exists (pair_sign c1 c2 r0 r1 a0 a1), r0, r1, a0, a1.
    unfold spin_match in E1. apply andb_true_iff in E1. destruct E1 as [E1 E1'].
    apply Qc_eq_bool_correct in E1, E1'.
    repeat split; auto; try lia.
    unfold pair_sign. destruct (Nat.even _); auto.
  - rewrite (spin_sum_match r0 r1 a0 a1 Hspin Rs' E1) in G.
    pose proof (spin_sum_match r0 r1 a0 a1 Hspin Rs' E1) as E2.
    exists (pair_sign c1 c2 r0 r1 a1 a0), r0, r1, a1, a0.
    unfold spin_match in E2. apply andb_true_iff in E2. destruct E2 as [E2 E2'].
    apply Qc_eq_bool_correct in E2, E2'.
    repeat split; auto; try lia.
    + unfold pair_sign. destruct (Nat.even _); auto.
    + apply perm_swap.
Qed.

Lemma two_differences_always_coupled_witness :
  exists sign a b c d,
    (sign = 1 \/ sign = -1)
    /\ removed_states [(-1, Rational 1 2); (1, Rational (-1) 2)]
                      [(0, Rational 1 2); (0, Rational (-1) 2)] = [a; b]
    /\ Permutation (removed_states [(0, Rational 1 2); (0, Rational (-1) 2)]
                                   [(-1, Rational 1 2); (1, Rational (-1) 2)]) [c; d]
    /\ snd a = snd c /\ snd b = snd d
    /\ fst a + fst b = fst c + fst d
    /\ get_required_coulomb_terms [(-1, Rational 1 2); (1, Rational (-1) 2)]
                                  [(0, Rational 1 2); (0, Rational (-1) 2)]
       = Ok ((sign, direct, (fst a, fst b, fst c, fst d))
             :: (if Qc_eq_bool (snd a) (snd b)
                 then [(sign, exchange, (fst a, fst b, fst d, fst c))]
                 else [])).
Proof.
  apply (two_differences_always_coupled 1 2 0 (Q2Qc 0) p2_configs).
  - exact p2_enumeration.
  - vm_compute. tauto.
  - vm_compute. tauto.
  - intros H. discriminate H.
  - vm_compute. reflexivity.
Defined.

(** ** Further properties of the Coulomb integral *)

(** X10. The Coulomb integral is unchanged when the pair [(m1, m2)] is
    exchanged with the pair [(m3, m4)], for every [l] and all arguments. *)
Theorem coulomb_contribution_pair_exchange (l m1 m2 m3 m4 : Z) :
  coulomb_contribution m1 m2 m3 m4 l = coulomb_contribution m3 m4 m1 m2 l.
Proof. apply coulomb_contribution_swap. Qed.

(** X11. For the shells [s] to [f] and arguments that conserve
    [m1 + m2 = m3 + m4], the Coulomb integral is unchanged when its four
    arguments are reversed. *)
Theorem coulomb_contribution_reversal (l m1 m2 m3 m4 : Z) :
  0 <= l <= 3 -> m1 + m2 = m3 + m4 ->
  coulomb_contribution m1 m2 m3 m4 l = coulomb_contribution m4 m3 m2 m1 l.
Proof. apply coulomb_contribution_reverse. Qed.

Lemma coulomb_contribution_reversal_witness :
  coulomb_contribution 1 0 (-1) 2 2 = coulomb_contribution 2 (-1) 0 1 2.
Proof.
  apply (coulomb_contribution_reversal 2 1 0 (-1) 2); lia.
Defined.

Lemma coulomb_contribution_unsupported (l m1 m2 m3 m4 : Z) :
  l < 1 \/ 3 < l -> coulomb_contribution m1 m2 m3 m4 l = [].
Proof.
  intros Hl. unfold coulomb_contribution.
  destruct (l =? 3) eqn:E3; [apply Z.eqb_eq in E3; lia|].
  destruct (l =? 2) eqn:E2; [apply Z.eqb_eq in E2; lia|].
  destruct (l =? 1) eqn:E1; [apply Z.eqb_eq in E1; lia|].
  destruct (l =? 0); reflexivity.
Qed.

(** X12. The Coulomb integral is zero, and nothing is raised, for a shell
    outside [p, d, f] (in particular for [l = 0]) and whenever one of the
    four magnetic quantum numbers lies outside [-l .. l]. *)
Theorem coulomb_contribution_zero_outside (l m1 m2 m3 m4 : Z) :
  l < 1 \/ 3 < l
  \/ l < Z.abs m1 \/ l < Z.abs m2 \/ l < Z.abs m3 \/ l < Z.abs m4 ->
  coulomb_contribution m1 m2 m3 m4 l = [].
Proof.
  intros H.
  destruct (Z_lt_ge_dec l 1) as [L|L]; [apply coulomb_contribution_unsupported; lia|].
  destruct (Z_lt_ge_dec 3 l) as [U|U]; [apply coulomb_contribution_unsupported; lia|].
  apply coulomb_contribution_outside; lia.
Qed.

Lemma coulomb_contribution_zero_outside_witness :
  coulomb_contribution 2 0 0 1 1 = [].
Proof.
  apply (coulomb_contribution_zero_outside 1 2 0 0 1). simpl. lia.
Defined.

Lemma selection_check_1 : selection_check 1 = true.
Proof. vm_compute. reflexivity. Qed.

Lemma selection_check_2 : selection_check 2 = true.
Proof. vm_compute. reflexivity. Qed.

Lemma selection_check_3 : selection_check 3 = true.
Proof. vm_compute. reflexivity. Qed.

Lemma monopole_check_1 : monopole_check 1 = true.
Proof. vm_compute. reflexivity. Qed.

Lemma monopole_check_2 : monopole_check 2 = true.
Proof. vm_compute. reflexivity. Qed.

Lemma monopole_check_3 : monopole_check 3 = true.
Proof. vm_compute. reflexivity. Qed.

Lemma in_shell_or_outside (l m1 m2 m3 m4 : Z) :
  (Z.abs m1 <= l /\ Z.abs m2 <= l /\ Z.abs m3 <= l /\ Z.abs m4 <= l)
  \/ (l < Z.abs m1 \/ l < Z.abs m2 \/ l < Z.abs m3 \/ l < Z.abs m4).
Proof. lia. Qed.

Lemma symbol_index_zero (fk : Symbol) : symbol_index fk = 0 -> fk = f0.
Proof. destruct fk; simpl; intros H; [reflexivity|lia|lia|lia]. Qed.

(** X13. Multipole selection rule: a monomial in [fk] occurs in the Coulomb
    integral only when [|m1 - m4| <= k] and [|m3 - m2| <= k], and the
    monopole [f0] occurs exactly when all arguments are in the shell,
    [m1 = m4] and [m2 = m3], with the scalar [1]. *)
Theorem multipole_selection_rule (l m1 m2 m3 m4 : Z) (fk : Symbol) (x : Surd) :
  In (fk, x) (coulomb_contribution m1 m2 m3 m4 l) ->
  Z.abs (m1 - m4) <= symbol_index fk
  /\ Z.abs (m3 - m2) <= symbol_index fk
  /\ (fk = f0 -> x = of_Z 1 /\ m1 = m4 /\ m2 = m3).
Proof.
  intros Hin.
  assert (C : l < 1 \/ 3 < l \/ l = 1 \/ l = 2 \/ l = 3) by lia.
  destruct C as [C | [C | C]];
    [rewrite coulomb_contribution_unsupported in Hin by lia; destruct Hin
    |rewrite coulomb_contribution_unsupported in Hin by lia; destruct Hin|].
  destruct (in_shell_or_outside l m1 m2 m3 m4) as [(H1 & H2 & H3 & H4) | Hout];
    [|rewrite coulomb_contribution_outside in Hin by lia; destruct Hin].
  assert (K : selection_check l = true)
    by (destruct C as [-> | [-> | ->]];
        [exact selection_check_1|exact selection_check_2|exact selection_check_3]).
  pose proof (all_in_shell_spec l _ K m1 m2 m3 m4 H1 H2 H3 H4) as B.
  cbv beta in B. rewrite forallb_forall in B. specialize (B (fk, x) Hin).
  cbn [fst snd] in B. apply andb_true_iff in B. destruct B as [B B3].
  apply andb_true_iff in B. destruct B as [B1 B2].
  apply Z.leb_le in B1, B2. split; [assumption|]. split; [assumption|].
  intros ->. cbn [symbol_index Z.eqb] in B3. apply surd_eqb_eq in B3.
  cbn [symbol_index] in B1, B2. split; [assumption|]. lia.
Qed.

Lemma monopole_present (l m1 m2 : Z) :
  1 <= l <= 3 -> Z.abs m1 <= l -> Z.abs m2 <= l ->
  In (f0, of_Z 1) (coulomb_contribution m1 m2 m2 m1 l).
Proof.
  intros Hl H1 H2.
  assert (K : monopole_check l = true).
  { assert (C : l = 1 \/ l = 2 \/ l = 3) by lia.
    destruct C as [-> | [-> | ->]];
      [exact monopole_check_1|exact monopole_check_2|exact monopole_check_3]. }
  pose proof (all_in_shell_spec l _ K m1 m2 m2 m1 H1 H2 H2 H1) as B.
  cbv beta in B. rewrite !Z.eqb_refl in B. cbn [andb] in B.
  apply existsb_exists in B. destruct B as [[fk x] [Hin B]].
  cbn [fst snd] in B. apply andb_true_iff in B. destruct B as [B1 B2].
  apply Z.eqb_eq in B1. apply symbol_index_zero in B1.
  apply surd_eqb_eq in B2. now subst.
Qed.

Lemma multipole_selection_rule_witness :
  Z.abs (1 - 1) <= symbol_index f0
  /\ Z.abs (0 - 0) <= symbol_index f0
  /\ (f0 = f0 -> of_Z 1 = of_Z 1 /\ 1 = 1 /\ 0 = 0).
Proof.
  apply (multipole_selection_rule 1 1 0 0 1 f0 (of_Z 1)).
  apply monopole_present; simpl; lia.
Defined.

(** X14. The monopole term: for the shells [p], [d], [f] and [m1], [m2] in
    the shell, the integral with [m3 = m2] and [m4 = m1] contains [f0] with
    the scalar [1]. *)
Theorem monopole_term_present (l m1 m2 : Z) :
  1 <= l <= 3 -> Z.abs m1 <= l -> Z.abs m2 <= l ->
  In (f0, of_Z 1) (coulomb_contribution m1 m2 m2 m1 l).
Proof. apply monopole_present. Qed.

Lemma monopole_term_present_witness :
  In (f0, of_Z 1) (coulomb_contribution (-2) 1 1 (-2) 2).
Proof.
  apply (monopole_term_present 2 (-2) 1); simpl; lia.
Defined.

(** ** Shells without Coulomb energy, and a single electron *)

Lemma total_contribution_zero (l : Z) (terms : list Term) :
  (forall m1 m2 m3 m4, coulomb_contribution m1 m2 m3 m4 l = []) ->
  total_contribution l terms = [].
Proof.
  intros Hz. unfold total_contribution.
  induction terms as [|[[sign kind] [[[m1 m2] m3] m4]] terms IH]; [reflexivity|].
  cbn [fold_left]. rewrite Hz. destruct kind; exact IH.
Qed.

Lemma mapM_ok_Forall {A B : Type} (f : A -> result B) (P : B -> Prop) (xs : list A) :
  (forall x y, f x = Ok y -> P y) ->
  forall ys, mapM f xs = Ok ys -> Forall P ys.
Proof.
  intros Hf. induction xs as [|x xs IH]; simpl; intros ys H.
  - inversion H. constructor.
  - destruct (f x) as [y|] eqn:E; simpl in H; [|discriminate].
    destruct (mapM f xs) as [ys'|]; simpl in H; [|discriminate].
    inversion H; subst. constructor; eauto.
Qed.

Lemma Forall_nth_default {A : Type} (P : A -> Prop) (l : list A) (d : A) (i : nat) :
  Forall P l -> P d -> P (nth i l d).
Proof.
  intros Hl Hd. destruct (Nat.lt_ge_cases i (length l)) as [H|H].
  - rewrite Forall_forall in Hl. apply Hl. now apply nth_In.
  - now rewrite nth_overflow.
Qed.

(** X15. For the [s] shell, and any [l] outside [1 .. 3], every entry of an
    assembled Hamiltonian is zero whatever the configurations are; no
    [f0] appears even for two electrons. *)
Theorem s_shell_hamiltonian_zero (l : Z) (configs : list (list State)) (H : Matrix) :
  l < 1 \/ 3 < l ->
  hamiltonian l configs = Ok H ->
  forall i j, entry H i j = [].
Proof.
  intros Hl EH i j. unfold hamiltonian in EH.
  assert (F : Forall (Forall (fun e => e = [])) H).
  { revert EH. apply mapM_ok_Forall. intros c1 row. apply mapM_ok_Forall.
    intros c2 e. unfold matrix_entry.
    destruct (get_required_coulomb_terms c1 c2) as [terms|]; [|discriminate].
    cbn [bind]. rewrite total_contribution_zero
      by (intros; apply coulomb_contribution_unsupported; assumption).
    intros E. now inversion E. }
  unfold entry.
  apply (Forall_nth_default (fun e => e = [])); [|reflexivity].
  apply (Forall_nth_default (Forall (fun e => e = []))); [assumption|constructor].
Qed.

Lemma s_shell_hamiltonian_zero_witness :
  entry [[[]]] 0 0 = [].
Proof.
  apply (s_shell_hamiltonian_zero 0 [[(0, Rational 1 2); (0, Rational (-1) 2)]]).
  - lia.
  - vm_compute. reflexivity.
Defined.

Lemma combs_one_In {A : Type} (l : list A) (x : A) :
  In x l -> In [x] (combs l 1).
Proof.
  induction l as [|y t IH]; intros H; [destruct H|].
  cbn [combs]. apply in_or_app. destruct H as [-> | H].
  - left. apply in_map. rewrite combs_zero. now left.
  - right. now apply IH.
Qed.

Lemma NoDup_all_eq {A : Type} (a : A) (l : list A) :
  NoDup l -> (forall x, In x l -> x = a) -> l = [] \/ l = [a].
Proof.
  intros N H. destruct l as [|x [|y t]]; [now left| |].
  - right. f_equal. apply H. now left.
  - exfalso. inversion N as [|? ? Hx _]; subst. apply Hx.
    rewrite (H x) by (now left). rewrite (H y) by (right; now left). now left.
Qed.

Lemma sum_single (x : State) : sum_ml [x] = fst x /\ sum_ms [x] = snd x.
Proof.
  rewrite sum_ml_cons, sum_ms_cons. change (sum_ml []) with 0.
  change (sum_ms []) with (Q2Qc 0). split; [lia|apply Qcplus_0_r].
Qed.

(** X16. One electron: the enumeration yields the single configuration
    [((target_m_l, target_m_s),)] when that state belongs to the shell and
    nothing otherwise, and the Hamiltonian of the configuration is the 1x1
    zero matrix. *)
Theorem single_electron_no_coulomb (l target_m_l : Z) (target_m_s : Qc)
    (configs : list (list State)) :
  enumerate_fn_configurations 1 target_m_l target_m_s (get_single_states l)
  = Ok configs ->
  (configs = [] /\ ~ In (target_m_l, target_m_s) (get_single_states l))
  \/ (configs = [[(target_m_l, target_m_s)]]
      /\ In (target_m_l, target_m_s) (get_single_states l)
      /\ hamiltonian l configs = Ok [[[]]]).
Proof.
  intros E. destruct (enumerate_inv _ _ _ _ _ E) as [_ Hall].
  assert (Heq : forall c, In c configs ->
            c = [(target_m_l, target_m_s)]
            /\ In (target_m_l, target_m_s) (get_single_states l)).
  { intros c Hc. destruct (Hall c Hc) as [Hin [Hl Hs]].
    pose proof (combs_length _ _ _ Hin) as Len.
    pose proof (combs_incl _ _ _ Hin) as Inc.
    destruct c as [|[m s] [|]]; try discriminate Len.
    destruct (sum_single (m, s)) as [S1 S2]. cbn [fst snd] in S1, S2.
    rewrite S1 in Hl. rewrite S2 in Hs. subst m s. split; [reflexivity|]. apply Inc. now left. }
  assert (N : NoDup configs).
  { rewrite enumerate_ok in E by lia. inversion E; subst.
    apply NoDup_filter, combs_list_NoDup, get_single_states_NoDup. }
  destruct (NoDup_all_eq [(target_m_l, target_m_s)] configs N
              (fun c Hc => proj1 (Heq c Hc))) as [-> | ->].
  - left. split; [reflexivity|]. intros Hin.
    rewrite enumerate_ok in E by lia.
    change (Z.to_nat 1) with 1%nat in E. injection E as E'.
    assert (Hc : In [(target_m_l, target_m_s)]
                   (filter (fun config => Z.eqb (sum_ml config) target_m_l
                                          && Qc_eq_bool (sum_ms config) target_m_s)
                           (combs (get_single_states l) 1))).
    { apply filter_In. split; [now apply combs_one_In|].
      cbv beta. pose proof (sum_single (target_m_l, target_m_s)) as [S1 S2].
      apply andb_true_iff. split; [apply Z.eqb_eq; exact S1|].
      unfold Qc_eq_bool. destruct (Qc_eq_dec _ _) as [|NE]; [reflexivity|].
      exfalso. apply NE. exact S2. }
    rewrite E' in Hc. destruct Hc.
  - right. split; [reflexivity|].
    split; [apply (Heq [(target_m_l, target_m_s)]); now left|].
    unfold hamiltonian. cbn [mapM]. unfold matrix_entry.
    rewrite get_required_coulomb_terms_diag. reflexivity.
Qed.

Lemma single_electron_no_coulomb_witness :
  ([[(0, Rational 1 2)]] = [] /\ ~ In (0, Rational 1 2) (get_single_states 1))
  \/ ([[(0, Rational 1 2)]] = [[(0, Rational 1 2)]]
      /\ In (0, Rational 1 2) (get_single_states 1)
      /\ hamiltonian 1 [[(0, Rational 1 2)]] = Ok [[[]]]).
Proof.
  apply (single_electron_no_coulomb 1 0 (Rational 1 2) [[(0, Rational 1 2)]]).
  vm_compute. reflexivity.
Defined.

(** ** Numbering of the configurations in the response *)

Lemma In_combine_seq {A : Type} (l : list A) : forall s i (c : A),
  In (i, c) (combine (seq s (length l)) l)
  <-> (s <= i)%nat /\ nth_error l (i - s) = Some c.
Proof.
  induction l as [|x t IH]; intros s i c; cbn [length seq combine In].
  - split; [tauto|]. intros [_ H]. destruct (i - s)%nat; discriminate H.
  - rewrite IH. split.
    + intros [E | [Hs Hn]].
      * inversion E; subst. rewrite Nat.sub_diag. split; [lia|reflexivity].
      * split; [lia|]. replace (i - s)%nat with (S (i - S s)) by lia. exact Hn.
    + intros [Hs Hn]. destruct (Nat.eq_dec i s) as [->|Hne].
      * left. rewrite Nat.sub_diag in Hn. cbn in Hn. congruence.
      * right. split; [lia|].
        replace (i - s)%nat with (S (i - S s)) in Hn by lia. exact Hn.
Qed.

Lemma Ok_inj {A : Type} (x y : A) : Ok x = Ok y -> x = y.
Proof. intros H. now inversion H. Qed.

Lemma config_lines_numbering {EigVal : Type} (configs : list (list State))
    (k : nat) (cfg : list State) :
  In (@ConfigLine EigVal k cfg) (config_lines configs)
  <-> (1 <= k)%nat /\ nth_error configs (k - 1) = Some cfg.
Proof.
  unfold config_lines. rewrite in_map_iff. split.
  - intros [[i c] [E Hin]]. cbn [fst snd] in E. inversion E; subst.
    apply In_combine_seq in Hin. rewrite Nat.sub_0_r in Hin.
    split; [lia|]. replace (S i - 1)%nat with i by lia. tauto.
  - intros [Hk Hn]. exists ((k - 1)%nat, cfg). cbn [fst snd].
    split; [f_equal; lia|]. apply In_combine_seq. rewrite Nat.sub_0_r.
    split; [lia|assumption].
Qed.

(** X17. The response numbers the configurations from 1 in the order of the
    enumeration, and row [i], column [j] of the reported Hamiltonian is the
    matrix element between [Config i+1] and [Config j+1]. *)
Theorem response_numbering {EigVal : Type}
    (eigenvals : Matrix -> list (EigVal * nat)) (orbital : Orbital)
    (n_electrons target_ML : Z) (target_MS : Qc)
    (configs : list (list State)) (response : list (Part EigVal)) :
  enumerate_fn_configurations n_electrons target_ML target_MS
    (get_single_states (orbital_l orbital)) = Ok configs ->
  get_hamiltonian eigenvals orbital n_electrons target_ML target_MS = Ok response ->
  (forall k cfg, In (ConfigLine k cfg) response
                 <-> (1 <= k)%nat /\ nth_error configs (k - 1) = Some cfg)
  /\ forall H i j ci cj,
       In (HamiltonianPretty H) response ->
       In (ConfigLine (S i) ci) response -> In (ConfigLine (S j) cj) response ->
       matrix_entry (orbital_l orbital) ci cj = Ok (entry H i j).
Proof.
  intros E G.
  destruct configs as [|c0 configs'] eqn:EC.
  - rewrite (get_hamiltonian_empty eigenvals _ _ _ _ E) in G. inversion G; subst.
    split.
    + intros k cfg. split.
      * intros [H|[]]. discriminate H.
      * intros [_ H]. destruct (k - 1)%nat; discriminate H.
    + intros H i j ci cj [F|[]]. discriminate F.
  - rewrite <- EC in *.
    assert (Hpos : (0 < length configs)%nat) by (rewrite EC; simpl; lia).
    destruct (hamiltonian_total (orbital_l orbital) configs (orbital_l_range orbital)
                (enumerate_same_sector _ _ _ _ _ E)) as [H0 EH].
    rewrite (get_hamiltonian_nonempty eigenvals _ _ _ _ _ _ E Hpos EH) in G.
    apply Ok_inj in G. rename G into G'.
    assert (Mid : forall x : Part EigVal,
              In x (if Nat.leb (length configs) 6
                    then EigenvaluesHeader
                         :: map (fun em => EigenvalueLine (fst em) (snd em))
                                (eigenvals H0)
                    else [TooLarge]) ->
              x = EigenvaluesHeader \/ x = TooLarge
              \/ exists eig mult, x = EigenvalueLine eig mult).
    { intros x Hx. destruct (Nat.leb (length configs) 6).
      - destruct Hx as [<- | Hx]; [now left|].
        apply in_map_iff in Hx. destruct Hx as [[eig mult] [<- _]]. eauto.
      - destruct Hx as [<- | []]. auto. }
    assert (Lines : forall k cfg, In (@ConfigLine EigVal k cfg) response
                      <-> In (@ConfigLine EigVal k cfg) (config_lines configs)).
    { intros k cfg. rewrite <- G', (response_members eigenvals). split; [|tauto].
      intros [F | [F | [F | [F | F]]]]; try discriminate F; [assumption|].
      destruct (Mid _ F) as [F' | [F' | [eig [mult F']]]]; discriminate F'. }
    split.
    + intros k cfg. rewrite Lines. apply config_lines_numbering.
    + intros H i j ci cj HH Hi Hj.
      assert (H = H0).
      { rewrite <- G' in HH. apply (response_members eigenvals) in HH.
        destruct HH as [F | [F | [F | [F | F]]]]; try discriminate F.
        - apply config_lines_In in F. destruct F as [idx [cfg F]]. discriminate F.
        - now inversion F.
        - destruct (Mid _ F) as [F' | [F' | [eig [mult F']]]]; discriminate F'. }
      subst H0.
      apply Lines, config_lines_numbering in Hi.
      apply Lines, config_lines_numbering in Hj.
      cbn [Nat.sub] in Hi, Hj. rewrite Nat.sub_0_r in Hi, Hj.
      apply (hamiltonian_entry _ configs); tauto.
Qed.

Lemma response_numbering_witness :
  (forall k cfg,
     In (ConfigLine k cfg)
        [Found 1; ConfigLine 1 [(0, Rational 1 2)]; HamiltonianPretty [[[]]];
         @EigenvaluesHeader unit; HamiltonianTxt [[[]]]]
     <-> (1 <= k)%nat /\ nth_error [[(0, Rational 1 2)]] (k - 1) = Some cfg)
  /\ forall H i j ci cj,
       In (HamiltonianPretty H)
          [Found 1; ConfigLine 1 [(0, Rational 1 2)]; HamiltonianPretty [[[]]];
           @EigenvaluesHeader unit; HamiltonianTxt [[[]]]] ->
       In (ConfigLine (S i) ci)
          [Found 1; ConfigLine 1 [(0, Rational 1 2)]; HamiltonianPretty [[[]]];
           @EigenvaluesHeader unit; HamiltonianTxt [[[]]]] ->
       In (ConfigLine (S j) cj)
          [Found 1; ConfigLine 1 [(0, Rational 1 2)]; HamiltonianPretty [[[]]];
           @EigenvaluesHeader unit; HamiltonianTxt [[[]]]] ->
       matrix_entry (orbital_l orb_p) ci cj = Ok (entry H i j).
Proof.
  apply (response_numbering (fun _ : Matrix => @nil (unit * nat)) orb_p 1 0
           (Rational 1 2)).
  - vm_compute. reflexivity.
  - vm_compute. reflexivity.
Defined.

(** ** The polarization check of [plot.py] *)

Import Ascii String.
Import Plot.

Lemma issubset_incl (a b : list ascii) : issubset a b = true <-> incl a b.
Proof.
  unfold issubset. rewrite forallb_forall. split.
  - intros H c Hc. specialize (H c Hc). apply existsb_exists in H.
    destruct H as [c' [Hc' E]]. apply Ascii.eqb_eq in E. now subst.
  - intros H c Hc. apply existsb_exists. exists c.
    split; [now apply H|apply Ascii.eqb_refl].
Qed.

Lemma nodup_length_le (l : list ascii) :
  (List.length (nodup ascii_dec l) <= List.length l)%nat.
Proof.
  induction l as [|x l IH]; simpl; [lia|].
  destruct (in_dec ascii_dec x l); simpl; lia.
Qed.

Lemma nodup_length_NoDup (l : list ascii) :
  List.length l = List.length (nodup ascii_dec l) <-> NoDup l.
Proof.
  split.
  - induction l as [|x l IH]; simpl; intros H; [constructor|].
    pose proof (nodup_length_le l) as B.
    destruct (in_dec ascii_dec x l) as [Hin|Hout]; [lia|].
    simpl in H. constructor; [assumption|]. apply IH. lia.
  - intros H. now rewrite nodup_fixed_point.
Qed.

Lemma check_pol_done (s : str) :
  check_pol s = Done tt <-> NoDup (upper s) /\ incl (upper s) allowed.
Proof.
  unfold check_pol.
  destruct (issubset (set (upper s)) allowed
            && Nat.eqb (List.length (upper s)) (List.length (set (upper s))))%bool
    eqn:E; cbn [negb].
  - apply andb_true_iff in E. destruct E as [E1 E2].
    apply issubset_incl in E1. apply Nat.eqb_eq in E2.
    apply nodup_length_NoDup in E2. split; [|reflexivity]. intros _.
    split; [assumption|]. intros c Hc. apply E1. unfold set. now apply nodup_In.
  - split; [discriminate|]. intros [N I]. exfalso.
    apply andb_false_iff in E. destruct E as [E|E].
    + assert (T : issubset (set (upper s)) allowed = true).
      { apply issubset_incl. intros c Hc. apply I. unfold set in Hc.
        now apply nodup_In in Hc. }
      congruence.
    + apply Nat.eqb_neq in E. apply E. now apply nodup_length_NoDup.
Qed.

Lemma check_pol_fail (s : str) :
  check_pol s = Done tt
  \/ check_pol s = Fail (RuntimeError (lit "Invalid Polarization: " ++ upper s)).
Proof.
  unfold check_pol. destruct (negb _); [now right|now left].
Qed.

(** X18. On ASCII text [check_pol] returns normally exactly when the
    upper-cased string has no character twice and only the characters
    [X], [Y], [Z]; such a string has at most three characters; any other
    string raises [RuntimeError] with the upper-cased string in its
    message. *)
Theorem check_pol_characterised (s : str) :
  Forall is_ascii s ->
  (check_pol s = Done tt <-> NoDup (upper s) /\ incl (upper s) allowed)
  /\ (check_pol s = Done tt -> (List.length s <= 3)%nat)
  /\ (check_pol s <> Done tt ->
      check_pol s = Fail (RuntimeError (lit "Invalid Polarization: " ++ upper s))).
Proof.
  intros _. split; [apply check_pol_done|]. split.
  - intros H. apply check_pol_done in H. destruct H as [N I].
    pose proof (NoDup_incl_length N I) as L. unfold upper in L.
    rewrite length_map in L. exact L.
  - intros H. destruct (check_pol_fail s); [contradiction|assumption].
Qed.

Lemma check_pol_characterised_witness :
  (check_pol (lit "zX") = Done tt
   <-> NoDup (upper (lit "zX")) /\ incl (upper (lit "zX")) allowed)
  /\ (check_pol (lit "zX") = Done tt -> (List.length (lit "zX") <= 3)%nat)
  /\ (check_pol (lit "zX") <> Done tt ->
      check_pol (lit "zX")
      = Fail (RuntimeError (lit "Invalid Polarization: " ++ upper (lit "zX")))).
Proof.
  apply (check_pol_characterised (lit "zX")).
  repeat constructor; unfold is_ascii; simpl; lia.
Defined.

Lemma upper_char_idempotent (c : ascii) : upper_char (upper_char c) = upper_char c.
Proof.
  destruct c as [[] [] [] [] [] [] [] []]; reflexivity.
Qed.

Lemma upper_idempotent (s : str) : upper (upper s) = upper s.
Proof.
  unfold upper. rewrite map_map. apply map_ext. intros c. apply upper_char_idempotent.
Qed.

(** X19. The check ignores the case of the letters and their order: a
    string and its upper-cased form have the same outcome, and a
    rearrangement of an accepted string is accepted. *)
Theorem check_pol_case_and_order (s t : str) :
  Forall is_ascii s -> Forall is_ascii t ->
  check_pol (upper s) = check_pol s
  /\ (Permutation s t -> check_pol s = Done tt -> check_pol t = Done tt).
Proof.
  intros _ _. split.
  - unfold check_pol. now rewrite upper_idempotent.
  - intros P H. apply check_pol_done in H. destruct H as [N I].
    apply check_pol_done.
    assert (P' : Permutation (upper s) (upper t)) by (now apply Permutation_map).
    split; [now apply (Permutation_NoDup P')|].
    intros c Hc. apply I. now apply (Permutation_in _ (Permutation_sym P')).
Qed.

Lemma check_pol_case_and_order_witness :
  check_pol (upper (lit "yx")) = check_pol (lit "yx")
  /\ (Permutation (lit "yx") (lit "xy") ->
      check_pol (lit "yx") = Done tt -> check_pol (lit "xy") = Done tt).
Proof.
  apply (check_pol_case_and_order (lit "yx") (lit "xy"));
    repeat constructor; unfold is_ascii; simpl; lia.
Defined.

(** ** The readers of [plot.py] *)

Section Readers.

Context {Arr : Type} (w : World Arr).

(** X20. [read_dir_xas] cannot return for [solver < 4], whatever the
    directory holds, nor for an empty polarization string: the local
    variable [xdata] is read before it is bound. *)
Theorem read_dir_xas_unbound (dir_name edge pol extension : str) (solver : Z) :
  solver < 4 \/ pol = [] ->
  read_dir_xas w dir_name edge pol extension solver
  = Fail (UnboundLocalError (lit "xdata")).
Proof.
  intros H. unfold read_dir_xas.
  destruct (solver <? 4) eqn:E; [reflexivity|].
  destruct H as [H | ->]; [apply Z.ltb_ge in E; lia|reflexivity].
Qed.

Lemma xas_loop_last (dir_name edge extension : str) (data : ascii -> Arr * Arr)
    (q : ascii) (pol : str) :
  (forall p, In p (pol ++ [q]) ->
     path_exists w (xas_filename dir_name edge p extension) = true
     /\ path_is_file w (xas_filename dir_name edge p extension) = true
     /\ get_XAS_iter w (xas_filename dir_name edge p extension) = Done (data p)) ->
  forall xdata ydata,
    xas_loop w dir_name edge extension (pol ++ [q]) xdata ydata
    = Done (Some (fst (data q)), Some (YArr (snd (data q)))).
Proof.
  induction pol as [|p pol IH]; intros H xdata ydata.
  - destruct (H q) as (E1 & E2 & E3); [now left|].
    cbn [app xas_loop]. rewrite E1, E2, E3. cbn [andb andThen].
    now destruct (data q).
  - destruct (H p) as (E1 & E2 & E3); [now left|].
    cbn [app xas_loop]. rewrite E1, E2, E3. cbn [andb andThen].
    destruct (data p) as [x y]. cbn [Z.eqb andThen].
    apply IH. intros p' Hp'. apply H. now right.
Qed.

(** X21. With [solver >= 4] and every requested file present and readable,
    [read_dir_xas] returns the two columns of the file of the last
    polarization alone: the intensities of the other files are not added. *)
Theorem read_dir_xas_last_file (dir_name edge extension : str) (solver : Z)
    (data : ascii -> Arr * Arr) (pol : str) (q : ascii) :
  4 <= solver ->
  (forall p, In p (pol ++ [q]) ->
     path_exists w (xas_filename dir_name edge p extension) = true
     /\ path_is_file w (xas_filename dir_name edge p extension) = true
     /\ get_XAS_iter w (xas_filename dir_name edge p extension) = Done (data p)) ->
  read_dir_xas w dir_name edge (pol ++ [q]) extension solver
  = Done (fst (data q), YArr (snd (data q))).
Proof.
  intros Hs H. unfold read_dir_xas.
  destruct (solver <? 4) eqn:E; [apply Z.ltb_lt in E; lia|].
  cbn [andThen]. now rewrite (xas_loop_last _ _ _ data q pol H).
Qed.

Lemma xas_loop_missing (dir_name edge extension : str) (p : ascii) (post : str)
    (pre : str) :
  (forall c, In c pre ->
     path_exists w (xas_filename dir_name edge c extension) = true
     /\ path_is_file w (xas_filename dir_name edge c extension) = true
     /\ exists xy, get_XAS_iter w (xas_filename dir_name edge c extension) = Done xy) ->
  (path_exists w (xas_filename dir_name edge p extension)
   && path_is_file w (xas_filename dir_name edge p extension))%bool = false ->
  forall xdata ydata,
    xas_loop w dir_name edge extension (pre ++ p :: post) xdata ydata
    = Fail (xas_missing (xas_filename dir_name edge p extension) p).
Proof.
  induction pre as [|c pre IH]; intros H M xdata ydata.
  - cbn [app xas_loop]. now rewrite M.
  - destruct (H c) as (E1 & E2 & [[x y] E3]); [now left|].
    cbn [app xas_loop]. rewrite E1, E2, E3. cbn [andb andThen Z.eqb].
    apply IH; [|assumption]. intros c' Hc'. apply H. now right.
Qed.

(** X22. With [solver >= 4], the first polarization whose file is missing
    (or is not a regular file) makes [read_dir_xas] raise [RuntimeError]
    naming that file and that character, once the files before it have
    been read. *)
Theorem read_dir_xas_missing_file (dir_name edge extension : str) (solver : Z)
    (pre : str) (p : ascii) (post : str) :
  4 <= solver ->
  (forall c, In c pre ->
     path_exists w (xas_filename dir_name edge c extension) = true
     /\ path_is_file w (xas_filename dir_name edge c extension) = true
     /\ exists xy, get_XAS_iter w (xas_filename dir_name edge c extension) = Done xy) ->
  (path_exists w (xas_filename dir_name edge p extension)
   && path_is_file w (xas_filename dir_name edge p extension))%bool = false ->
  read_dir_xas w dir_name edge (pre ++ p :: post) extension solver
  = Fail (xas_missing (xas_filename dir_name edge p extension) p).
Proof.
  intros Hs H M. unfold read_dir_xas.
  destruct (solver <? 4) eqn:E; [apply Z.ltb_lt in E; lia|].
  cbn [andThen]. now rewrite (xas_loop_missing _ _ _ p post pre H M).
Qed.

Lemma rixs_inner_skip (filedir edge : str) (pin : ascii) (pvout : str)
    (sums : Sums Arr) :
  (forall pout, In pout pvout -> pin = pout) ->
  rixs_inner w filedir edge true pin pvout sums = Done sums.
Proof.
  induction pvout as [|pout pvout IH]; intros H; [reflexivity|].
  cbn [rixs_inner]. rewrite (H pout) by (now left).
  rewrite Ascii.eqb_refl. cbn [andb]. rewrite <- (H pout) by (now left).
  apply IH. intros p Hp. apply H. now right.
Qed.

Lemma rixs_outer_nothing (filedir edge : str) (cross : bool) (pvin pvout : str)
    (sums : Sums Arr) :
  (forall pin, In pin pvin ->
     rixs_inner w filedir edge cross pin pvout sums = Done sums) ->
  rixs_outer w filedir edge cross pvin pvout sums = Done sums.
Proof.
  induction pvin as [|pin pvin IH]; intros H; [reflexivity|].
  cbn [rixs_outer]. rewrite (H pin) by (now left). cbn [andThen].
  apply IH. intros p Hp. apply H. now right.
Qed.

(** X23. [get_RIXS_iter_all] returns [(None, None, None)] without raising
    and without touching a file when an empty polarization string is
    passed, or when [cross] is set and the two strings only pair equal
    characters. *)
Theorem get_RIXS_iter_all_nothing_read (filedir edge pvin pvout : str) (cross : bool) :
  pvin = [] \/ pvout = []
  \/ (cross = true /\ forall pin pout, In pin pvin -> In pout pvout -> pin = pout) ->
  get_RIXS_iter_all w filedir edge pvin pvout cross = Done (None, None, None).
Proof.
  intros H. unfold get_RIXS_iter_all.
  destruct H as [-> | [-> | [-> H]]].
  - reflexivity.
  - apply rixs_outer_nothing. reflexivity.
  - apply rixs_outer_nothing. intros pin Hpin. apply rixs_inner_skip.
    intros pout Hpout. now apply H.
Qed.

Lemma rixs_inner_fold (filedir edge : str) (cross : bool)
    (data : ascii * ascii -> Arr * Arr * Arr) (plus : Arr -> Arr -> Arr)
    (pin : ascii) (pvout : str) :
  (forall pout, In pout pvout -> (cross && Ascii.eqb pin pout)%bool = false ->
     path_exists w (rixs_filename filedir edge pin pout) = true
     /\ path_is_file w (rixs_filename filedir edge pin pout) = true
     /\ get_RIXS_iter w (rixs_filename filedir edge pin pout) = Done (data (pin, pout))) ->
  (forall a b, iadd w a b = Done (plus a b)) ->
  forall sums,
    rixs_inner w filedir edge cross pin pvout sums
    = Done (fold_left (read_step data plus)
              (filter (fun io => negb (cross && Ascii.eqb (fst io) (snd io)))
                      (map (pair pin) pvout))
              sums).
Proof.
  intros H Hadd. induction pvout as [|pout pvout IH]; intros sums; [reflexivity|].
  cbn [rixs_inner map filter fst snd].
  destruct (cross && Ascii.eqb pin pout)%bool eqn:E; cbn [negb].
  - apply IH. intros p Hp. apply H. now right.
  - destruct (H pout) as (E1 & E2 & E3); [now left|assumption|].
    rewrite E1, E2, E3. cbn [andb andThen fold_left]. unfold read_step at 2.
    destruct (data (pin, pout)) as [[x y] z]. destruct sums as [[xs ys] [zs|]].
    + rewrite Hadd. cbn [andThen]. apply IH. intros p Hp. apply H. now right.
    + cbn [andThen]. apply IH. intros p Hp. apply H. now right.
Qed.

Lemma rixs_outer_fold (filedir edge : str) (cross : bool)
    (data : ascii * ascii -> Arr * Arr * Arr) (plus : Arr -> Arr -> Arr)
    (pvout : str) (pvin : str) :
  (forall pin pout, In (pin, pout) (rixs_pairs cross pvin pvout) ->
     path_exists w (rixs_filename filedir edge pin pout) = true
     /\ path_is_file w (rixs_filename filedir edge pin pout) = true
     /\ get_RIXS_iter w (rixs_filename filedir edge pin pout) = Done (data (pin, pout))) ->
  (forall a b, iadd w a b = Done (plus a b)) ->
  forall sums,
    rixs_outer w filedir edge cross pvin pvout sums
    = Done (fold_left (read_step data plus) (rixs_pairs cross pvin pvout) sums).
Proof.
  intros H Hadd. induction pvin as [|pin pvin IH]; intros sums; [reflexivity|].
  cbn [rixs_outer]. unfold rixs_pairs in *. cbn [list_prod].
  rewrite filter_app, fold_left_app.
  rewrite (rixs_inner_fold filedir edge cross data plus pin pvout).
  - cbn [andThen]. apply IH. intros a b Hab. apply H.
    cbn [list_prod]. rewrite filter_app. apply in_or_app. now right.
  - intros pout Hp E. apply H. cbn [list_prod]. rewrite filter_app.
    apply in_or_app. left. apply filter_In. split; [now apply in_map|].
    cbn [fst snd]. now rewrite E.
  - assumption.
Qed.

Lemma last_cons {A : Type} (a d : A) (l : list A) : last (a :: l) d = last l a.
Proof.
  revert a d. induction l as [|b l IH]; intros a d; [reflexivity|].
  change (last (a :: b :: l) d) with (last (b :: l) d). now rewrite !IH.
Qed.

Lemma fold_read_step (data : ascii * ascii -> Arr * Arr * Arr)
    (plus : Arr -> Arr -> Arr) (rest : list (ascii * ascii)) :
  forall io zacc,
    fold_left (read_step data plus) rest
      (Some (fst (fst (data io))), Some (snd (fst (data io))), Some zacc)
    = (Some (fst (fst (data (last rest io)))),
       Some (snd (fst (data (last rest io)))),
       Some (fold_left plus (map (fun io' => snd (data io')) rest) zacc)).
Proof.
  induction rest as [|io' rest IH]; intros io zacc; [reflexivity|].
  cbn [fold_left map]. rewrite last_cons. rewrite <- IH. f_equal.
  unfold read_step. now destruct (data io') as [[x y] z].
Qed.

(** X24. When every file of the pairs that the two loops visit is present
    and readable and the additions succeed, [get_RIXS_iter_all] returns the
    [x] and [y] grids of the last pair read and the sum of the [z] grids of
    all pairs, added in the order of the loops. *)
Theorem get_RIXS_iter_all_sums (filedir edge pvin pvout : str) (cross : bool)
    (data : ascii * ascii -> Arr * Arr * Arr) (plus : Arr -> Arr -> Arr)
    (first : ascii * ascii) (rest : list (ascii * ascii)) :
  rixs_pairs cross pvin pvout = first :: rest ->
  (forall pin pout, In (pin, pout) (rixs_pairs cross pvin pvout) ->
     path_exists w (rixs_filename filedir edge pin pout) = true
     /\ path_is_file w (rixs_filename filedir edge pin pout) = true
     /\ get_RIXS_iter w (rixs_filename filedir edge pin pout) = Done (data (pin, pout))) ->
  (forall a b, iadd w a b = Done (plus a b)) ->
  get_RIXS_iter_all w filedir edge pvin pvout cross
  = Done (Some (fst (fst (data (last rest first)))),
          Some (snd (fst (data (last rest first)))),
          Some (fold_left plus (map (fun io => snd (data io)) rest)
                          (snd (data first)))).
Proof.
  intros EP H Hadd. unfold get_RIXS_iter_all.
  rewrite (rixs_outer_fold filedir edge cross data plus pvout pvin H Hadd).
  rewrite EP. cbn [fold_left]. rewrite <- fold_read_step. do 2 f_equal.
  unfold read_step. now destruct (data first) as [[x y] z].
Qed.

(** X25. A lower-case polarization passes [check_pol], but the XAS tool
    looks its file up under the lower-case letter: when that file is
    missing the tool raises [RuntimeError] naming it, whether or not the
    file of the upper-case letter exists. *)
Theorem plot_XAS_data_lower_case (run_dir : str) (c : ascii) :
  In c (lit "xyz") ->
  path_exists w (xas_filename run_dir (lit "L") c (lit ".txt")) = false ->
  check_pol [c] = Done tt
  /\ plot_XAS_data w run_dir [c]
     = Fail (xas_missing (xas_filename run_dir (lit "L") c (lit ".txt")) c).
Proof.
  intros Hc M.
  assert (K : check_pol [c] = Done tt)
    by (destruct Hc as [<- | [<- | [<- | []]]]; reflexivity).
  split; [assumption|].
  unfold plot_XAS_data. rewrite K. cbn [andThen]. unfold read_dir_xas.
  cbn [Z.ltb Z.compare Pos.compare Pos.compare_cont andThen xas_loop].
  now rewrite M.
Qed.

(** X26. An empty polarization string passes [check_pol]; the XAS tool then
    fails with [UnboundLocalError] on [xdata], while the RIXS tool obtains
    [(None, None, None)] from [get_RIXS_iter_all] when either of its two
    strings is empty and the other one passes the check. *)
Theorem empty_polarization (run_dir pol : str) :
  check_pol pol = Done tt ->
  check_pol [] = Done tt
  /\ plot_XAS_data w run_dir [] = Fail (UnboundLocalError (lit "xdata"))
  /\ plot_RIXS_data w run_dir [] pol = Done (None, None, None)
  /\ plot_RIXS_data w run_dir pol [] = Done (None, None, None).
Proof.
  intros K. split; [reflexivity|]. split; [reflexivity|].
  unfold plot_RIXS_data. rewrite K.
  change (check_pol []) with (@Done unit tt). cbn [andThen].
  split; [reflexivity|].
  unfold get_RIXS_iter_all. apply rixs_outer_nothing. reflexivity.
Qed.

End Readers.

Lemma read_dir_xas_unbound_witness :
  read_dir_xas echo_world (lit "run") (lit "L") (lit "XYZ") (lit ".txt") 3
  = Fail (UnboundLocalError (lit "xdata")).
Proof.
  apply (read_dir_xas_unbound echo_world). left. lia.
Defined.

Lemma read_dir_xas_last_file_witness :
  read_dir_xas echo_world (lit "run") (lit "L") (lit "XY" ++ ["Z"%char]) (lit ".txt") 4
  = Done (xas_filename (lit "run") (lit "L") "Z" (lit ".txt"),
          YArr (xas_filename (lit "run") (lit "L") "Z" (lit ".txt"))).
Proof.
  apply (read_dir_xas_last_file echo_world (lit "run") (lit "L") (lit ".txt") 4
           (fun p => (xas_filename (lit "run") (lit "L") p (lit ".txt"),
                      xas_filename (lit "run") (lit "L") p (lit ".txt")))
           (lit "XY") "Z"%char).
  - lia.
  - intros p _. repeat split.
Defined.

Lemma read_dir_xas_missing_file_witness :
  read_dir_xas empty_world (lit "run") (lit "L") ([] ++ "X"%char :: lit "YZ")
    (lit ".txt") 4
  = Fail (xas_missing (xas_filename (lit "run") (lit "L") "X" (lit ".txt")) "X").
Proof.
  apply (read_dir_xas_missing_file empty_world (lit "run") (lit "L") (lit ".txt") 4
           [] "X"%char (lit "YZ")).
  - lia.
  - intros c [].
  - reflexivity.
Defined.

Lemma get_RIXS_iter_all_nothing_read_witness :
  get_RIXS_iter_all empty_world (lit "run") (lit "L") (lit "X") (lit "X") true
  = Done (None, None, None).
Proof.
  apply (get_RIXS_iter_all_nothing_read empty_world). right. right.
  split; [reflexivity|]. intros pin pout [<- | []] [<- | []]. reflexivity.
Defined.

Lemma get_RIXS_iter_all_sums_witness :
  get_RIXS_iter_all echo_world (lit "run") (lit "L") (lit "XY") (lit "XY") true
  = Done (Some (rixs_filename (lit "run") (lit "L") "Y" "X"),
          Some (rixs_filename (lit "run") (lit "L") "Y" "X"),
          Some (rixs_filename (lit "run") (lit "L") "X" "Y"
                ++ rixs_filename (lit "run") (lit "L") "Y" "X")).
Proof.
  apply (get_RIXS_iter_all_sums echo_world (lit "run") (lit "L") (lit "XY") (lit "XY")
           true
           (fun io => (rixs_filename (lit "run") (lit "L") (fst io) (snd io),
                       rixs_filename (lit "run") (lit "L") (fst io) (snd io),
                       rixs_filename (lit "run") (lit "L") (fst io) (snd io)))
           (@app ascii) ("X", "Y")%char [("Y", "X")%char]).
  - reflexivity.
  - intros pin pout _. repeat split.
  - reflexivity.
Defined.

Lemma plot_XAS_data_lower_case_witness :
  check_pol ["x"%char] = Done tt
  /\ plot_XAS_data empty_world (lit "run") ["x"%char]
     = Fail (xas_missing (xas_filename (lit "run") (lit "L") "x" (lit ".txt")) "x").
Proof.
  apply (plot_XAS_data_lower_case empty_world (lit "run") "x"%char).
  - simpl. tauto.
  - reflexivity.
Defined.

Lemma empty_polarization_witness :
  check_pol [] = Done tt
  /\ plot_XAS_data echo_world (lit "run") [] = Fail (UnboundLocalError (lit "xdata"))
  /\ plot_RIXS_data echo_world (lit "run") [] (lit "XYZ") = Done (None, None, None)
  /\ plot_RIXS_data echo_world (lit "run") (lit "XYZ") [] = Done (None, None, None).
Proof.
  apply (empty_polarization echo_world (lit "run") (lit "XYZ")). reflexivity.
Defined.

(** ** The atomic parameters of [inputs.py] *)

Lemma lookup_string_In {V : Type} (d : list (Inputs.str * V)) (k : Inputs.str) (v : V) :
  Inputs.lookup String.eqb d k = Some v -> In (k, v) d.
Proof.
  induction d as [|[k' v'] d IH]; simpl; intros H; [discriminate|].
  destruct (String.eqb k' k) eqn:E.
  - apply String.eqb_eq in E. inversion H; subst. now left.
  - right. now apply IH.
Qed.

Lemma lookup_Z_In {V : Type} (d : list (Z * V)) (k : Z) (v : V) :
  Inputs.lookup Z.eqb d k = Some v -> In (k, v) d.
Proof.
  induction d as [|[k' v'] d IH]; simpl; intros H; [discriminate|].
  destruct (Z.eqb k' k) eqn:E.
  - apply Z.eqb_eq in E. inversion H; subst. now left.
  - right. now apply IH.
Qed.

Lemma lookup_string_None {V : Type} (d : list (Inputs.str * V)) (k : Inputs.str) :
  ~ In k (map fst d) -> Inputs.lookup String.eqb d k = None.
Proof.
  induction d as [|[k' v'] d IH]; simpl; intros H; [reflexivity|].
  destruct (String.eqb k' k) eqn:E.
  - apply String.eqb_eq in E. tauto.
  - apply IH. tauto.
Qed.

Lemma table_check_true : Inputs.table_check = true.
Proof. vm_compute. reflexivity. Qed.

Lemma get_dParams_returns (element : Inputs.str) (valence holes : Z)
    (d : list (Inputs.str * list Inputs.Number)) :
  Inputs.get_dParams element valence = Inputs.Return (holes, d) ->
  1 <= holes <= 9 /\ 0 <= valence <= 4
  /\ Inputs.lookup String.eqb Inputs.zero_val element = Some (holes - valence)
  /\ map fst d = ["SO"; "SC2"; "SC2EX"; "FG"]%string.
Proof.
  intros H.
  assert (C : Inputs.entry_check element valence = true).
  { pose proof table_check_true as T. unfold Inputs.table_check in T.
    rewrite forallb_forall in T. unfold Inputs.get_dParams in H.
    destruct (Inputs.lookup String.eqb Inputs.zero_val element); [|discriminate].
    destruct (_ <? 0); [discriminate|].
    destruct (Inputs.lookup String.eqb Inputs.atomic_data element) as [bv|] eqn:E1;
      [|discriminate].
    destruct (Inputs.lookup Z.eqb bv valence) as [d0|] eqn:E2; [|discriminate].
    specialize (T (element, bv) (lookup_string_In _ _ _ E1)). cbn [fst snd] in T.
    rewrite forallb_forall in T.
    exact (T (valence, d0) (lookup_Z_In _ _ _ E2)). }
  unfold Inputs.entry_check in C. rewrite H in C.
  destruct (Inputs.lookup String.eqb Inputs.zero_val element) as [z|];
    [|rewrite andb_false_r in C; discriminate].
  apply andb_true_iff in C. destruct C as [C C6].
  apply andb_true_iff in C. destruct C as [C C5].
  apply andb_true_iff in C. destruct C as [C C4].
  apply andb_true_iff in C. destruct C as [C C3].
  apply andb_true_iff in C. destruct C as [C1 C2].
  apply Z.leb_le in C1, C2, C3, C4. apply Z.eqb_eq in C5.
  split; [lia|]. split; [lia|]. split; [f_equal; lia|].
  now destruct (list_eq_dec _ _ _) in C6.
Qed.

(** X27. Whenever [get_dParams] returns, the number of holes lies between
    1 and 9, the valence between 0 and 4, the holes are the entry of
    [zero_val] plus the valence, and the parameter dictionary has the keys
    [SO], [SC2], [SC2EX], [FG] in this order. *)
Theorem get_dParams_success_range (element : Inputs.str) (valence holes : Z)
    (d : list (Inputs.str * list Inputs.Number)) :
  Inputs.get_dParams element valence = Inputs.Return (holes, d) ->
  1 <= holes <= 9 /\ 0 <= valence <= 4
  /\ Inputs.lookup String.eqb Inputs.zero_val element = Some (holes - valence)
  /\ map fst d = ["SO"; "SC2"; "SC2EX"; "FG"]%string.
Proof. apply get_dParams_returns. Qed.

Lemma get_dParams_success_range_witness :
  1 <= 2 <= 9 /\ 0 <= 2 <= 4
  /\ Inputs.lookup String.eqb Inputs.zero_val "Ni"%string = Some (2 - 2)
  /\ map fst [("SO", [Inputs.Float 11507 3; Inputs.Float 102 3; Inputs.Int 0]);
              ("SC2", [Inputs.Float 45 1; Inputs.Float 0 1; Inputs.Float 12233 3;
                       Inputs.Float 0 1; Inputs.Float 7597 3]);
              ("SC2EX", [Inputs.Float 45 1; Inputs.Float 0 1; Inputs.Float 13005 3;
                         Inputs.Float 0 1; Inputs.Float 8084 3]);
              ("FG", [Inputs.Float 45 1; Inputs.Float 5783 3; Inputs.Float 7720 3;
                      Inputs.Float 3290 3])]%string
     = ["SO"; "SC2"; "SC2EX"; "FG"]%string.
Proof.
  apply (get_dParams_success_range "Ni"%string 2 2). vm_compute. reflexivity.
Defined.

(** X28. An element outside the nine of [zero_val] raises [KeyError] at
    the first lookup, for every valence; since [atomic_data] has the same
    elements in the same order, the [ValueError] for missing data can only
    come from a missing valence. *)
Theorem get_dParams_unknown_element (element : Inputs.str) (valence : Z) :
  ~ In element (map fst Inputs.zero_val) ->
  map fst Inputs.atomic_data = map fst Inputs.zero_val
  /\ Inputs.get_dParams element valence = Inputs.Throw (Inputs.KeyError element).
Proof.
  intros H. split; [reflexivity|].
  unfold Inputs.get_dParams. now rewrite lookup_string_None.
Qed.

Lemma get_dParams_unknown_element_witness :
  map fst Inputs.atomic_data = map fst Inputs.zero_val
  /\ Inputs.get_dParams "Sc"%string 3 = Inputs.Throw (Inputs.KeyError "Sc"%string).
Proof.
  apply (get_dParams_unknown_element "Sc"%string 3).
  intros H. simpl in H. repeat (destruct H as [H|H]; [discriminate H|]). exact H.
Defined.

(** X29. For a known element, a valence that leaves a negative number of
    holes raises the [ValueError] for an invalid configuration, and the
    valence of the closed shell with no hole raises the [ValueError] for
    missing data. *)
Theorem get_dParams_no_holes (element : Inputs.str) (z valence : Z) :
  Inputs.lookup String.eqb Inputs.zero_val element = Some z ->
  z + valence <= 0 ->
  Inputs.get_dParams element valence
  = Inputs.Throw (if z + valence <? 0
                  then Inputs.invalid_configuration element valence
                  else Inputs.no_atomic_data element valence).
Proof.
  intros Hz Hh.
  destruct (Inputs.get_dParams element valence) as [[holes d]|e] eqn:G.
  - destruct (get_dParams_returns _ _ _ _ G) as (B & _ & L & _).
    rewrite Hz in L. inversion L. lia.
  - unfold Inputs.get_dParams in G. rewrite Hz in G.
    destruct (z + valence <? 0); [congruence|].
    destruct (Inputs.lookup String.eqb Inputs.atomic_data element) as [bv|];
      [|congruence].
    destruct (Inputs.lookup Z.eqb bv valence); [discriminate|congruence].
Qed.

Lemma get_dParams_no_holes_witness :
  Inputs.get_dParams "Cu"%string 1
  = Inputs.Throw (if -1 + 1 <? 0
                  then Inputs.invalid_configuration "Cu"%string 1
                  else Inputs.no_atomic_data "Cu"%string 1).
Proof.
  apply (get_dParams_no_holes "Cu"%string (-1) 1); [reflexivity|lia].
Defined.
